(** * video-mapper: the Brightcove video mapper and its two delivery paths

    A shallow embedding of [video-mapper.go].  Go strings are byte
    sequences and are modelled by [string] (a list of 8-bit [ascii]);
    [map[string]interface{}] is a [gmap string value]; a run-time panic
    and the log lines written on the way are explicit in the monad [M].
    The parts of the Go standard library the mapper calls
    ([unicode/utf8], [encoding/json], [path/filepath], [strings]) are
    embedded next to it, as the mapper's output is defined by them. *)

From Stdlib Require Import ZArith Lia Ascii String List Bool.
From stdpp Require Import base option strings gmap.

#[local] Set Warnings "-register-all".
#[local] Open Scope string_scope.
#[local] Open Scope Z_scope.

(** ** Bytes *)

Definition byte_to_Z (b : ascii) : Z := Z.of_N (N_of_ascii b).

(** Go's conversion [byte(x)]: the low eight bits. *)
Definition Z_to_byte (z : Z) : ascii := ascii_of_N (Z.to_N (z mod 256)).

(** [s[n:]] for [n <= len(s)]. *)
Fixpoint drop_bytes (n : nat) (s : string) : string :=
  match n, s with
  | O, _ => s
  | S n', String _ r => drop_bytes n' r
  | S _, EmptyString => EmptyString
  end.

(** [s[:n]] for [n <= len(s)]. *)
Fixpoint take_bytes (n : nat) (s : string) : string :=
  match n, s with
  | O, _ => EmptyString
  | S n', String c r => String c (take_bytes n' r)
  | S _, EmptyString => EmptyString
  end.

(** [len(s) < n], by walking the string. *)
Fixpoint len_lt (s : string) (n : nat) {struct n} : bool :=
  match n, s with
  | O, _ => false
  | S _, EmptyString => true
  | S n', String _ r => len_lt r n'
  end.

(** ** unicode/utf8 *)

Module utf8.

Definition RuneError : Z := 0xFFFD.
Definition RuneSelf : Z := 0x80.
Definition MaxRune : Z := 0x10FFFF.

Definition surrogateMin : Z := 0xD800.
Definition surrogateMax : Z := 0xDFFF.

Definition tx : Z := 0x80.
Definition t2 : Z := 0xC0.
Definition t3 : Z := 0xE0.
Definition t4 : Z := 0xF0.

Definition maskx : Z := 0x3F.
Definition mask2 : Z := 0x1F.
Definition mask3 : Z := 0x0F.
Definition mask4 : Z := 0x07.

Definition rune1Max : Z := 0x7F.
Definition rune2Max : Z := 0x7FF.
Definition rune3Max : Z := 0xFFFF.

Definition locb : Z := 0x80.
Definition hicb : Z := 0xBF.

(** Information about the first byte of an encoding: the high nibble
    indexes [acceptRanges], the low three bits give the size. *)
Definition xx : Z := 0xF1.
Definition as_ : Z := 0xF0.
Definition s1 : Z := 0x02.
Definition s2 : Z := 0x13.
Definition s3 : Z := 0x03.
Definition s4 : Z := 0x23.
Definition s5 : Z := 0x34.
Definition s6 : Z := 0x04.
Definition s7 : Z := 0x44.

(** The 256-entry table [first], by its runs of equal entries. *)
Definition first (b : Z) : Z :=
  if b <? 0x80 then as_
  else if b <? 0xC2 then xx
  else if b <? 0xE0 then s1
  else if b =? 0xE0 then s2
  else if b <? 0xED then s3
  else if b =? 0xED then s4
  else if b <? 0xF0 then s3
  else if b =? 0xF0 then s5
  else if b <? 0xF4 then s6
  else if b =? 0xF4 then s7
  else xx.

(** [acceptRanges]: the bounds of the second byte. *)
Definition acceptRanges (i : Z) : Z * Z :=
  match i with
  | 0 => (locb, hicb)
  | 1 => (0xA0, hicb)
  | 2 => (locb, 0x9F)
  | 3 => (0x90, hicb)
  | 4 => (locb, 0x8F)
  | _ => (0, 0)
  end.

Definition DecodeRuneInString (s : string) : Z * nat :=
  match s with
  | EmptyString => (RuneError, 0%nat)
  | String c0 r0 =>
      let b0 := byte_to_Z c0 in
      let x := first b0 in
      if as_ <=? x then
        (* rune(x) << 31 >> 31 on an int32: all ones when bit 0 is set *)
        let mask := if Z.odd x then -1 else 0 in
        (Z.lor (Z.land b0 (Z.lnot mask)) (Z.land RuneError mask), 1%nat)
      else
        let sz := Z.to_nat (Z.land x 7) in
        let accept := acceptRanges (Z.shiftr x 4) in
        if len_lt s sz then (RuneError, 1%nat)
        else
          match r0 with
          | EmptyString => (RuneError, 1%nat)
          | String c1 r1 =>
              let b1 := byte_to_Z c1 in
              if (b1 <? fst accept) || (snd accept <? b1) then (RuneError, 1%nat)
              else if (sz <=? 2)%nat then
                (Z.lor (Z.shiftl (Z.land b0 mask2) 6) (Z.land b1 maskx), 2%nat)
              else
                match r1 with
                | EmptyString => (RuneError, 1%nat)
                | String c2 r2 =>
                    let b2 := byte_to_Z c2 in
                    if (b2 <? locb) || (hicb <? b2) then (RuneError, 1%nat)
                    else if (sz <=? 3)%nat then
                      (Z.lor (Z.lor (Z.shiftl (Z.land b0 mask3) 12)
                                    (Z.shiftl (Z.land b1 maskx) 6))
                             (Z.land b2 maskx), 3%nat)
                    else
                      match r2 with
                      | EmptyString => (RuneError, 1%nat)
                      | String c3 _ =>
                          let b3 := byte_to_Z c3 in
                          if (b3 <? locb) || (hicb <? b3) then (RuneError, 1%nat)
                          else
                            (Z.lor (Z.lor (Z.lor (Z.shiftl (Z.land b0 mask4) 18)
                                                 (Z.shiftl (Z.land b1 maskx) 12))
                                          (Z.shiftl (Z.land b2 maskx) 6))
                                   (Z.land b3 maskx), 4%nat)
                      end
                end
          end
  end.

Definition encode3 (r : Z) : string :=
  String (Z_to_byte (Z.lor t3 (Z.shiftr r 12)))
 (String (Z_to_byte (Z.lor tx (Z.land (Z.shiftr r 6) maskx)))
 (String (Z_to_byte (Z.lor tx (Z.land r maskx))) EmptyString)).

(** [EncodeRune], returning the bytes written. *)
Definition EncodeRune (r : Z) : string :=
  let i := r mod 2 ^ 32 in
  if i <=? rune1Max then String (Z_to_byte r) EmptyString
  else if i <=? rune2Max then
    String (Z_to_byte (Z.lor t2 (Z.shiftr r 6)))
   (String (Z_to_byte (Z.lor tx (Z.land r maskx))) EmptyString)
  else if (MaxRune <? i) || ((surrogateMin <=? i) && (i <=? surrogateMax)) then
    encode3 RuneError
  else if i <=? rune3Max then encode3 r
  else
    String (Z_to_byte (Z.lor t4 (Z.shiftr r 18)))
   (String (Z_to_byte (Z.lor tx (Z.land (Z.shiftr r 12) maskx)))
   (String (Z_to_byte (Z.lor tx (Z.land (Z.shiftr r 6) maskx)))
   (String (Z_to_byte (Z.lor tx (Z.land r maskx))) EmptyString))).

End utf8.

(** ** unicode/utf16 *)

Module utf16.

Definition replacementChar : Z := 0xFFFD.
Definition surr1 : Z := 0xd800.
Definition surr2 : Z := 0xdc00.
Definition surr3 : Z := 0xe000.
Definition surrSelf : Z := 0x10000.

Definition IsSurrogate (r : Z) : bool := (surr1 <=? r) && (r <? surr3).

Definition DecodeRune (r1 r2 : Z) : Z :=
  if (surr1 <=? r1) && (r1 <? surr2) && (surr2 <=? r2) && (r2 <? surr3)
  then Z.lor (Z.shiftl (r1 - surr1) 10) (r2 - surr2) + surrSelf
  else replacementChar.

End utf16.

(** ** Values of type [interface{}] as [encoding/json] produces them *)

(** A JSON number decodes to a [float64]; the mapper never looks at
    one, and the model keeps the literal it was read from. *)
Inductive value : Type :=
  | VNil
  | VBool (b : bool)
  | VFloat64 (lit : string)
  | VString (s : string)
  | VSlice (l : list value)
  | VMap (m : gmap string value).

(** The quotation mark and the backslash, by their codes. *)
Definition dq : ascii := "034"%char.
Definition bs : ascii := "092"%char.

(** ** encoding/json: the encoder *)

Module json_enc.

Definition hex : string := "0123456789abcdef".

(** [hex[i]] *)
Definition hex_at (i : Z) : ascii :=
  match String.get (Z.to_nat i) hex with
  | Some c => c
  | None => "0"%char
  end.

(** What [encodeState.string] writes for a byte below [utf8.RuneSelf],
    with HTML escaping on as [Marshal] has it.  (Go releases from 1.22
    on write the short forms of backspace and form feed where this one
    writes their [u00] forms; a decoder reads both the same.) *)
Definition escape_byte (b : ascii) : string :=
  let v := byte_to_Z b in
  if (0x20 <=? v) && negb (v =? 0x5C) && negb (v =? 0x22)
     && negb (v =? 0x3C) && negb (v =? 0x3E) && negb (v =? 0x26)
  then String b EmptyString
  else if (v =? 0x5C) || (v =? 0x22) then String bs (String b EmptyString)
  else if v =? 0x0A then String bs "n"
  else if v =? 0x0D then String bs "r"
  else if v =? 0x09 then String bs "t"
  else (String bs "u00") +:+ String (hex_at (Z.shiftr v 4))
                 (String (hex_at (Z.land v 0xF)) EmptyString).

(** The loop of [encodeState.string] over [s[i:]]; the spans the Go
    code copies in one piece are written here byte by byte.  One unit
    of [fuel] per iteration, and every iteration advances [i]. *)
Fixpoint string_loop (fuel : nat) (s : string) : string :=
  match fuel, s with
  | _, EmptyString => EmptyString
  | O, _ => EmptyString
  | S fuel', String b rest =>
      if byte_to_Z b <? utf8.RuneSelf then
        escape_byte b +:+ string_loop fuel' rest
      else
        let '(c, size) := utf8.DecodeRuneInString s in
        if (c =? utf8.RuneError) && (size =? 1)%nat then
          (String bs "ufffd") +:+ string_loop fuel' (drop_bytes size s)
        else if (c =? 0x2028) || (c =? 0x2029) then
          (String bs "u202") +:+ String (hex_at (Z.land c 0xF))
                        (string_loop fuel' (drop_bytes size s))
        else
          take_bytes size s +:+ string_loop fuel' (drop_bytes size s)
  end.

Definition encode_string (s : string) : string :=
  String dq (string_loop (String.length s) s +:+ String dq EmptyString).

End json_enc.

(** ** strconv: when a number is out of the float64 range *)

Module strconv.

(** The digits and the point of a number as [decimal.set] reads them,
    after the sign: zeros before the first other digit move the point
    and are not kept, at most 800 digits are kept, and the point is
    where the kept digits stand when it is met.  [mant] is the value of
    the digits kept so far, [nd] their number, [dp] the point. *)
Fixpoint set_digits (s : string) (sawdot : bool) (mant nd dp : Z)
  : Z * Z * Z * bool * string :=
  match s with
  | String c r =>
      let v := byte_to_Z c in
      if v =? 0x2E then
        if sawdot then (mant, nd, dp, sawdot, s) else set_digits r true mant nd nd
      else if (0x30 <=? v) && (v <=? 0x39) then
        if (v =? 0x30) && (nd =? 0) then set_digits r sawdot mant nd (dp - 1)
        else if nd <? 800 then set_digits r sawdot (mant * 10 + (v - 0x30)) (nd + 1) dp
        else set_digits r sawdot mant nd dp
      else (mant, nd, dp, sawdot, s)
  | EmptyString => (mant, nd, dp, sawdot, s)
  end.

(** The digits of the exponent: one is taken in only while the value
    is below 10000. *)
Fixpoint exponent (s : string) (e : Z) : Z :=
  match s with
  | String c r =>
      let v := byte_to_Z c in
      if (0x30 <=? v) && (v <=? 0x39)
      then exponent r (if e <? 10000 then e * 10 + (v - 0x30) else e)
      else e
  | EmptyString => e
  end.

(** What an exponent part adds to the point. *)
Definition signed_exponent (s : string) : Z :=
  match s with
  | String c r =>
      if (byte_to_Z c =? 0x65) || (byte_to_Z c =? 0x45) then
        match r with
        | String c' r' =>
            if byte_to_Z c' =? 0x2D then - exponent r' 0
            else if byte_to_Z c' =? 0x2B then exponent r' 0
            else exponent r 0
        | EmptyString => 0
        end
      else 0
  | EmptyString => 0
  end.

(** The least magnitude that rounds to infinity: half an ulp above the
    largest [float64]. *)
Definition overflow_threshold : Z := 2 ^ 1024 - 2 ^ 970.

(** [ParseFloat(s, 64)] returns [ErrRange] on the number [s]: the
    decimal [0.d1 d2 ... * 10^dp] that [decimal.set] reads rounds to
    infinity.  As in [floatBits], a point above 310 is an overflow and
    one below -330 is zero, which is no error; between them the decimal
    is compared with the threshold.  (The paths [ParseFloat] tries
    first return finite results only.) *)
Definition overflows (s : string) : bool :=
  let s0 :=
    match s with
    | String c r => if byte_to_Z c =? 0x2D then r else s
    | EmptyString => s
    end in
  let '(mant, nd, dp0, sawdot, s1) := set_digits s0 false 0 0 0 in
  let dp := (if sawdot then dp0 else nd) + signed_exponent s1 in
  if nd =? 0 then false
  else if 310 <? dp then true
  else if dp <? -330 then false
  else if nd <=? dp then overflow_threshold <=? mant * 10 ^ (dp - nd)
  else overflow_threshold * 10 ^ (nd - dp) <=? mant.

End strconv.

(** ** encoding/json: the decoder *)

Module json_dec.

Definition isSpace (c : ascii) : bool :=
  let v := byte_to_Z c in
  (v =? 0x20) || (v =? 0x09) || (v =? 0x0D) || (v =? 0x0A).

Fixpoint skip_space (s : string) : string :=
  match s with
  | String c r => if isSpace c then skip_space r else s
  | EmptyString => EmptyString
  end.

Definition hexval (c : ascii) : option Z :=
  let v := byte_to_Z c in
  if (0x30 <=? v) && (v <=? 0x39) then Some (v - 0x30)
  else if (0x61 <=? v) && (v <=? 0x66) then Some (v - 0x61 + 10)
  else if (0x41 <=? v) && (v <=? 0x46) then Some (v - 0x41 + 10)
  else None.

(** [getu4]: the rune of the escape [s] starts with (a backslash, [u]
    and four hexadecimal digits), or [-1]. *)
Definition getu4 (s : string) : Z :=
  match s with
  | String c0 (String c1 (String h0 (String h1 (String h2 (String h3 _))))) =>
      if (byte_to_Z c0 =? 0x5C) && (byte_to_Z c1 =? 0x75) then
        match hexval h0, hexval h1, hexval h2, hexval h3 with
        | Some a, Some b, Some c, Some d => ((a * 16 + b) * 16 + c) * 16 + d
        | _, _, _, _ => -1
        end
      else -1
  | _ => -1
  end.

(** A string literal from just after its opening quotation mark: the
    scanner's check of the literal and [unquote] in one pass.  Returns
    the decoded bytes and the input after the closing quotation mark. *)
Fixpoint unquote_loop (fuel : nat) (s : string) : option (string * string) :=
  match fuel with
  | O => None
  | S fuel' =>
      let continue_with (out rest : string) :=
        match unquote_loop fuel' rest with
        | Some (t, rest') => Some (out +:+ t, rest')
        | None => None
        end in
      match s with
      | EmptyString => None
      | String c r =>
          let v := byte_to_Z c in
          if v =? 0x22 then Some (EmptyString, r)
          else if v =? 0x5C then
            match r with
            | EmptyString => None
            | String e r' =>
                let ev := byte_to_Z e in
                if (ev =? 0x22) || (ev =? 0x5C) || (ev =? 0x2F) then
                  continue_with (String e EmptyString) r'
                else if ev =? 0x62 then continue_with (String "008"%char EmptyString) r'
                else if ev =? 0x66 then continue_with (String "012"%char EmptyString) r'
                else if ev =? 0x6E then continue_with (String "010"%char EmptyString) r'
                else if ev =? 0x72 then continue_with (String "013"%char EmptyString) r'
                else if ev =? 0x74 then continue_with (String "009"%char EmptyString) r'
                else if ev =? 0x75 then
                  let rr := getu4 s in
                  if rr <? 0 then None
                  else
                    let r6 := drop_bytes 6 s in
                    if utf16.IsSurrogate rr then
                      let rr1 := getu4 r6 in
                      let dec := utf16.DecodeRune rr rr1 in
                      if negb (dec =? utf16.replacementChar) then
                        continue_with (utf8.EncodeRune dec) (drop_bytes 6 r6)
                      else
                        continue_with (utf8.EncodeRune utf16.replacementChar) r6
                    else continue_with (utf8.EncodeRune rr) r6
                else None
            end
          else if v <? 0x20 then None
          else if v <? utf8.RuneSelf then continue_with (String c EmptyString) r
          else
            let '(rr, size) := utf8.DecodeRuneInString s in
            continue_with (utf8.EncodeRune rr) (drop_bytes size s)
      end
  end.

Definition unquote (s : string) : option (string * string) :=
  unquote_loop (String.length s) s.

Definition isDigit (c : ascii) : bool :=
  let v := byte_to_Z c in (0x30 <=? v) && (v <=? 0x39).

Fixpoint span_digits (s : string) : string * string :=
  match s with
  | String c r =>
      if isDigit c then let '(d, rest) := span_digits r in (String c d, rest)
      else (EmptyString, s)
  | EmptyString => (EmptyString, EmptyString)
  end.

Definition strip_prefix (p s : string) : option string :=
  if String.prefix p s then Some (drop_bytes (String.length p) s) else None.

(** The scanner's number states: an optional minus sign, [0] or a
    digit sequence not starting with [0], an optional fraction, an
    optional exponent. *)
Definition scan_number (s : string) : option (string * string) :=
  let '(sign, s1) :=
    match s with
    | String c r => if byte_to_Z c =? 0x2D then ("-", r) else (EmptyString, s)
    | EmptyString => (EmptyString, s)
    end in
  let int_part :=
    match s1 with
    | String c r =>
        if byte_to_Z c =? 0x30 then Some ("0", r)
        else if isDigit c then Some (span_digits s1)
        else None
    | EmptyString => None
    end in
  match int_part with
  | None => None
  | Some (i, s2) =>
      let frac_part :=
        match s2 with
        | String c r =>
            if byte_to_Z c =? 0x2E then
              match span_digits r with
              | (EmptyString, _) => None
              | (d, s3) => Some (String c d, s3)
              end
            else Some (EmptyString, s2)
        | EmptyString => Some (EmptyString, s2)
        end in
      match frac_part with
      | None => None
      | Some (f, s3) =>
          let exp_part :=
            match s3 with
            | String c r =>
                if (byte_to_Z c =? 0x65) || (byte_to_Z c =? 0x45) then
                  let '(esign, r1) :=
                    match r with
                    | String c' r' =>
                        if (byte_to_Z c' =? 0x2B) || (byte_to_Z c' =? 0x2D)
                        then (String c' EmptyString, r')
                        else (EmptyString, r)
                    | EmptyString => (EmptyString, r)
                    end in
                  match span_digits r1 with
                  | (EmptyString, _) => None
                  | (d, s4) => Some (String c (esign +:+ d), s4)
                  end
                else Some (EmptyString, s3)
            | EmptyString => Some (EmptyString, s3)
            end in
          match exp_part with
          | None => None
          | Some (e, s4) => Some (sign +:+ i +:+ f +:+ e, s4)
          end
      end
  end.

(** The limit on the nesting of arrays and objects (Go 1.15 and
    later; earlier releases have none). *)
Definition maxNestingDepth : N := 10000.

(** A number literal into an [interface{}]: [convertNumber] turns it
    into a [float64] and fails when it is out of range.  [conv] is off
    where the target is no [interface{}] and the literal is skipped. *)
Definition convertNumber (conv : bool) (lit : string) : option value :=
  if conv && strconv.overflows lit then None else Some (VFloat64 lit).

(** One JSON value: objects become maps (a repeated key keeps its last
    value), arrays slices.  [depth] is the number of arrays and objects
    that are open; [conv] says that numbers are converted ([interface{}]
    as target).  [None] is the decoder's error: the input is no JSON
    value, nests deeper than the limit, or holds a number that is out
    of range.  Each call takes one unit of [fuel]. *)
Fixpoint parse_value (conv : bool) (fuel : nat) (depth : N) (s : string)
  : option (value * string) :=
  match fuel with
  | O => None
  | S fuel' =>
      match skip_space s with
      | EmptyString => None
      | String c r =>
          let v := byte_to_Z c in
          if v =? 0x7B then
            if (depth <? maxNestingDepth)%N then
              match skip_space r with
              | EmptyString => None
              | String c' r' =>
                  if byte_to_Z c' =? 0x7D then Some (VMap ∅, r')
                  else parse_members conv fuel' (N.succ depth) r ∅
              end
            else None
          else if v =? 0x5B then
            if (depth <? maxNestingDepth)%N then
              match skip_space r with
              | EmptyString => None
              | String c' r' =>
                  if byte_to_Z c' =? 0x5D then Some (VSlice [], r')
                  else parse_elements conv fuel' (N.succ depth) r []
              end
            else None
          else if v =? 0x22 then
            match unquote r with
            | Some (t, rest) => Some (VString t, rest)
            | None => None
            end
          else if v =? 0x74 then
            match strip_prefix "rue" r with
            | Some rest => Some (VBool true, rest)
            | None => None
            end
          else if v =? 0x66 then
            match strip_prefix "alse" r with
            | Some rest => Some (VBool false, rest)
            | None => None
            end
          else if v =? 0x6E then
            match strip_prefix "ull" r with
            | Some rest => Some (VNil, rest)
            | None => None
            end
          else
            match scan_number (String c r) with
            | Some (lit, rest) =>
                match convertNumber conv lit with
                | Some x => Some (x, rest)
                | None => None
                end
            | None => None
            end
      end
  end
with parse_elements (conv : bool) (fuel : nat) (depth : N) (s : string) (acc : list value)
  : option (value * string) :=
  match fuel with
  | O => None
  | S fuel' =>
      match parse_value conv fuel' depth s with
      | None => None
      | Some (x, rest) =>
          match skip_space rest with
          | EmptyString => None
          | String c r =>
              if byte_to_Z c =? 0x2C then parse_elements conv fuel' depth r (acc ++ [x])
              else if byte_to_Z c =? 0x5D then Some (VSlice (acc ++ [x]), r)
              else None
          end
      end
  end
with parse_members (conv : bool) (fuel : nat) (depth : N) (s : string)
    (acc : gmap string value) : option (value * string) :=
  match fuel with
  | O => None
  | S fuel' =>
      match skip_space s with
      | EmptyString => None
      | String c r =>
          if byte_to_Z c =? 0x22 then
            match unquote r with
            | None => None
            | Some (key, rest) =>
                match skip_space rest with
                | EmptyString => None
                | String c2 r2 =>
                    if byte_to_Z c2 =? 0x3A then
                      match parse_value conv fuel' depth r2 with
                      | None => None
                      | Some (x, rest2) =>
                          match skip_space rest2 with
                          | EmptyString => None
                          | String c3 r3 =>
                              if byte_to_Z c3 =? 0x2C
                              then parse_members conv fuel' depth r3 (<[key:=x]> acc)
                              else if byte_to_Z c3 =? 0x7D
                              then Some (VMap (<[key:=x]> acc), r3)
                              else None
                          end
                      end
                    else None
                end
            end
          else None
      end
  end.

(** Enough fuel for every input: a value takes at least one byte, and
    the two list parsers spend one unit per value they read. *)
Definition fuel_for (data : string) : nat := S (S (2 * String.length data)).

(** The decoder's errors.  The program tests them against nil and reads
    nothing of them; [InvalidInput] stands for the error of an input
    on which [parse_value] fails (a [*SyntaxError] or, for a number out
    of range, an [*UnmarshalTypeError]). *)
Inductive error : Type :=
  | InvalidInput
  | UnmarshalTypeError (got : string).

Definition type_name (v : value) : string :=
  match v with
  | VNil => "null"
  | VBool _ => "bool"
  | VFloat64 _ => "number"
  | VString _ => "string"
  | VSlice _ => "array"
  | VMap _ => "object"
  end.

(** Storing a decoded value into a [map[string]interface{}] variable
    that is nil before: an object allocates the map, [null] leaves it
    nil (rendered [∅]: indexing a nil map yields the zero value). *)
Definition into_map (v : value) : error + gmap string value :=
  match v with
  | VMap m => inr m
  | VNil => inr ∅
  | other => inl (UnmarshalTypeError (type_name other))
  end.

(** [json.Unmarshal(data, &x)]: the whole of [data] must be one value. *)
Definition Unmarshal_value (conv : bool) (data : string) : error + value :=
  match parse_value conv (fuel_for data) 0 data with
  | Some (v, rest) =>
      match skip_space rest with
      | EmptyString => inr v
      | String _ _ => inl InvalidInput
      end
  | None => inl InvalidInput
  end.

(** Into a [map[string]interface{}]: the members are [interface{}]
    values, so every number is converted. *)
Definition Unmarshal_map (data : string) : error + gmap string value :=
  match Unmarshal_value true data with
  | inr v => into_map v
  | inl e => inl e
  end.

(** [json.NewDecoder(r).Decode(&m)] on a reader holding [data]: the
    first value of the stream is decoded, what follows it is left
    unread. *)
Definition Decoder_Decode_map (data : string) : error + gmap string value :=
  match parse_value true (fuel_for data) 0 data with
  | Some (v, _) => into_map v
  | None => inl InvalidInput
  end.

End json_dec.

(** ** path/filepath and strings *)

Module filepath.

(** [os.IsPathSeparator] on the Unix targets the service runs on. *)
Definition IsPathSeparator (c : ascii) : bool := byte_to_Z c =? 0x2F.

(** The loop of [Ext]: [n] is [i + 1], the indices [n-1, ..., 0] are
    still to be looked at. *)
Fixpoint Ext_loop (path : string) (n : nat) : string :=
  match n with
  | O => EmptyString
  | S i =>
      match String.get i path with
      | None => EmptyString
      | Some c =>
          if IsPathSeparator c then EmptyString
          else if byte_to_Z c =? 0x2E then drop_bytes i path
          else Ext_loop path i
      end
  end.

Definition Ext (path : string) : string := Ext_loop path (String.length path).

End filepath.

Module gostrings.

Definition HasPrefix (s prefix : string) : bool := String.prefix prefix s.

Definition TrimPrefix (s prefix : string) : string :=
  if HasPrefix s prefix then drop_bytes (String.length prefix) s else s.

End gostrings.

(** ** The data model of video-mapper.go *)

Definition videoContentUriBase : string := "http://video-mapper-iw-uk-p.svc.ft.com/video/model/".
Definition brigthcoveAuthority : string := "http://api.ft.com/system/BRIGHTCOVE".
Definition viodeMediaTypeBase : string := "video/".
Definition brightcoveOrigin : string := "http://cmdb.ft.com/systems/brightcove".

Module event.
Record publicationEvent : Type := {
  ContentUri : string;
  Payload : string;
  LastModified : string
}.
End event.
Abbreviation publicationEvent := event.publicationEvent.

Record identifier : Type := {
  Authority : string;
  IdentifierValue : string
}.

(** [Identifiers] is a slice; the mapper only ever builds a non-nil one. *)
Record payload : Type := {
  UUID : string;
  Identifiers : list identifier;
  PublishedDate : string;
  MediaType : string;
  PublishReference : string;
  LastModified : string
}.

Module consumer.
Record Message : Type := { Headers : gmap string string; Body : string }.
Record QueueConfig : Type := {
  Addrs : list string;
  Group : string;
  Topic : string;
  Queue : string;
  ConcurrentProcessing : bool;
  AuthorizationKey : string
}.
Definition Consumer : Type := QueueConfig.
End consumer.

Module producer.
Record Message : Type := { Headers : gmap string string; Body : string }.
Record MessageProducerConfig : Type := {
  Addr : string;
  Topic : string;
  Queue : string;
  Authorization : string
}.
Definition MessageProducer : Type := MessageProducerConfig.
End producer.

(** The two fields are pointers; [None] is nil. *)
Record videoMapper : Type := {
  messageConsumer : option consumer.Consumer;
  messageProducer : option producer.MessageProducer
}.

(** Go's [error] values as the file makes them: by [errors.New], or by
    its own [New] around its own [errorString]. *)
Inductive error : Type :=
  | errors_errorString (s : string)
  | errorString (s : string).

Definition Error (e : error) : string :=
  match e with
  | errors_errorString s => s
  | errorString s => s
  end.

Definition New (text : string) : error := errorString text.

Module errors.
Definition New (text : string) : error := errors_errorString text.
End errors.

(** A Go result pair [(x, err)] of which exactly one side is non-nil. *)
Inductive result (A : Type) : Type :=
  | Ok (a : A)
  | Err (e : error).
Arguments Ok {A} a.
Arguments Err {A} e.

(** ** Effects: log lines, broker sends, panics *)

Inductive logger : Type := infoLogger | warnLogger | errorLogger.

Inductive fmt_arg : Type :=
  | AString (s : string)
  | ABytes (b : string)
  | APayload (p : payload)
  | AEvent (e : publicationEvent).

Inductive effect : Type :=
  | Printf (l : logger) (format : string) (args : list fmt_arg)
  | SendMessage (to : producer.MessageProducer) (uuid : string) (m : producer.Message).

(** The dynamic type of an interface value, as the run-time error of a
    failed type assertion names it; [None] for the nil interface. *)
Definition dynamic_type (v : value) : option string :=
  match v with
  | VNil => None
  | VBool _ => Some "bool"
  | VFloat64 _ => Some "float64"
  | VString _ => Some "string"
  | VSlice _ => Some "[]interface {}"
  | VMap _ => Some "map[string]interface {}"
  end.

(** A run-time panic.  The only one this code can raise is the failure
    of an unchecked type assertion [x.(T)]. *)
Inductive panic : Type :=
  | TypeAssertionError (concrete : option string) (asserted : string).

Inductive outcome (A : Type) : Type :=
  | Returns (a : A)
  | Panics (p : panic).
Arguments Returns {A} a.
Arguments Panics {A} p.

(** A computation writes effects in order and returns or panics; after
    a panic nothing more of it runs. *)
Definition M (A : Type) : Type := (list effect * outcome A)%type.

#[global] Instance M_ret : MRet M := λ A a, ([], Returns a).

#[global] Instance M_bind : MBind M := λ A B f m,
  match m with
  | (t, Returns a) => let '(t', o) := f a in ((t ++ t')%list, o)
  | (t, Panics p) => (t, Panics p)
  end.

Definition emit (e : effect) : M unit := ([e], Returns tt).

Definition raise {A : Type} (p : panic) : M A := ([], Panics p).

Definition trace {A : Type} (m : M A) : list effect := fst m.
Definition result_of {A : Type} (m : M A) : outcome A := snd m.

Definition logger_Printf (l : logger) (format : string) (args : list fmt_arg) : M unit :=
  emit (Printf l format args).

(** [m[k]] on a [map[string]interface{}]: the nil interface when [k]
    is not a key (or the map is nil). *)
Definition index (m : gmap string value) (k : string) : value :=
  default VNil (m !! k).

(** [m[k]] on a [map[string]string]. *)
Definition header (m : gmap string string) (k : string) : string :=
  default EmptyString (m !! k).

(** The unchecked assertion [x.(string)]. *)
Definition assert_string (x : value) : M string :=
  match x with
  | VString s => mret s
  | other => raise (TypeAssertionError (dynamic_type other) "string")
  end.

(** ** json.Marshal on the mapper's types *)

(** The encoder of a type: what [json.Marshal] writes for its values.
    Struct members come in declaration order under their tag names. *)
Class Marshaler (A : Type) : Type := encode : A → string.

Definition key (name : string) : string :=
  String dq (name +:+ String dq ":").

Fixpoint encode_elements {A : Type} `{Marshaler A} (l : list A) : string :=
  match l with
  | [] => EmptyString
  | [x] => encode x
  | x :: rest => encode x +:+ "," +:+ encode_elements rest
  end.

#[global] Instance string_Marshaler : Marshaler string := json_enc.encode_string.

#[global] Instance slice_Marshaler {A : Type} `{Marshaler A} : Marshaler (list A) :=
  λ l, "[" +:+ encode_elements l +:+ "]".

#[global] Instance identifier_Marshaler : Marshaler identifier := λ i,
  "{" +:+ key "authority" +:+ encode (Authority i)
  +:+ "," +:+ key "identifierValue" +:+ encode (IdentifierValue i)
  +:+ "}".

#[global] Instance payload_Marshaler : Marshaler payload := λ p,
  "{" +:+ key "uuid" +:+ encode (UUID p)
  +:+ "," +:+ key "identifiers" +:+ encode (Identifiers p)
  +:+ "," +:+ key "publishedDate" +:+ encode (PublishedDate p)
  +:+ "," +:+ key "mediaType" +:+ encode (MediaType p)
  +:+ "," +:+ key "publishReference" +:+ encode (PublishReference p)
  +:+ "," +:+ key "lastModified" +:+ encode (LastModified p)
  +:+ "}".

#[global] Instance publicationEvent_Marshaler : Marshaler publicationEvent := λ e,
  "{" +:+ key "contentUri" +:+ encode (event.ContentUri e)
  +:+ "," +:+ key "payload" +:+ encode (event.Payload e)
  +:+ "," +:+ key "lastModified" +:+ encode (event.LastModified e)
  +:+ "}".

Module json.

(** [json.Marshal] fails on unsupported types, cycles and failing
    [Marshaler] methods only; on structs of strings it returns the
    encoding. *)
Definition Marshal {A : Type} `{Marshaler A} (v : A) : result string :=
  Ok (encode v).

End json.

(** ** json.Unmarshal into the mapper's types

    What a consumer of the output does to read it back.  A member whose
    name is no field is skipped, an absent or [null] member leaves the
    zero value, a member of another type is an error. *)

Definition field_string (m : gmap string value) (k : string) : option string :=
  match m !! k with
  | None | Some VNil => Some EmptyString
  | Some (VString s) => Some s
  | Some _ => None
  end.

Definition identifier_of_value (v : value) : option identifier :=
  match v with
  | VNil => Some {| Authority := EmptyString; IdentifierValue := EmptyString |}
  | VMap m =>
      a ← field_string m "authority";
      i ← field_string m "identifierValue";
      Some {| Authority := a; IdentifierValue := i |}
  | _ => None
  end.

Definition field_identifiers (m : gmap string value) (k : string)
  : option (list identifier) :=
  match m !! k with
  | None | Some VNil => Some []
  | Some (VSlice l) => mapM identifier_of_value l
  | Some _ => None
  end.

Definition payload_of_value (v : value) : option payload :=
  match v with
  | VMap m =>
      u ← field_string m "uuid";
      ids ← field_identifiers m "identifiers";
      d ← field_string m "publishedDate";
      t ← field_string m "mediaType";
      r ← field_string m "publishReference";
      l ← field_string m "lastModified";
      Some {| UUID := u; Identifiers := ids; PublishedDate := d;
              MediaType := t; PublishReference := r; LastModified := l |}
  | _ => None
  end.

Definition publicationEvent_of_value (v : value) : option publicationEvent :=
  match v with
  | VMap m =>
      c ← field_string m "contentUri";
      p ← field_string m "payload";
      l ← field_string m "lastModified";
      Some {| event.ContentUri := c; event.Payload := p; event.LastModified := l |}
  | _ => None
  end.

Definition Unmarshal_payload (data : string) : option payload :=
  match json_dec.Unmarshal_value false data with
  | inr v => payload_of_value v
  | inl _ => None
  end.

Definition Unmarshal_publicationEvent (data : string) : option publicationEvent :=
  match json_dec.Unmarshal_value false data with
  | inr v => publicationEvent_of_value v
  | inl _ => None
  end.

(** ** net/http, as far as the handler uses it *)

Module http.

Definition StatusOK : Z := 200.
Definition StatusBadRequest : Z := 400.

(** The server stores header names in canonical form; both names the
    handler asks for are canonical already. *)
Record Request : Type := {
  Header : gmap string (list string);
  Body : string
}.

Definition Header_Get (h : gmap string (list string)) (k : string) : string :=
  match h !! k with
  | Some (v :: _) => v
  | _ => EmptyString
  end.

(** What has been written to a [ResponseWriter]. *)
Record ResponseWriter : Type := {
  status : option Z;
  written : string
}.

Definition fresh : ResponseWriter := {| status := None; written := EmptyString |}.

Definition WriteHeader (code : Z) (w : ResponseWriter) : ResponseWriter :=
  match status w with
  | None => {| status := Some code; written := written w |}
  | Some _ => w
  end.

(** [Write] sends [StatusOK] first when no header was written. *)
Definition Write (b : string) (w : ResponseWriter) : ResponseWriter :=
  let w' := WriteHeader StatusOK w in
  {| status := status w'; written := written w' +:+ b |}.

(** What the client receives once the handler is done: the status
    (200 when the handler never set one) and the body; nothing when
    the handler panicked, as the server then aborts the connection. *)
Definition response (h : M ResponseWriter) : option (Z * string) :=
  match result_of h with
  | Returns w => Some (default StatusOK (status w), written w)
  | Panics _ => None
  end.

End http.

(** ** The mapper *)

Definition mapBrightcoveVideo (v : videoMapper) (brightcoveVideo : gmap string value)
    (publishReference lastModified : string) : M (result string) :=
  uuid ← assert_string (index brightcoveVideo "uuid");
  let contentUri := videoContentUriBase +:+ uuid in
  if decide (uuid = EmptyString) then
    mret (Err (errors.New "uuid field of native brightcove video JSON is null. Skipping message."))
  else
  id ← assert_string (index brightcoveVideo "id");
  if decide (id = EmptyString) then
    mret (Err (errors.New "id field of native brightcove video JSON is null. Skipping message."))
  else
  publishedDate ← assert_string (index brightcoveVideo "updated_at");
  if decide (publishedDate = EmptyString) then
    mret (Err (errors.New "updated_at field of native brightcove video JSON is null. Skipping message."))
  else
  fileName ← assert_string (index brightcoveVideo "name");
  _ ← (if decide (fileName = EmptyString) then
         logger_Printf warnLogger
           "filename field of native brightcove video JSON is null, type will be video/." []
       else mret tt);
  let extension := gostrings.TrimPrefix (filepath.Ext fileName) "." in
  let mediaType := viodeMediaTypeBase +:+ extension in
  let i := {| Authority := brigthcoveAuthority; IdentifierValue := id |} in
  let p := {| UUID := uuid;
              Identifiers := [i];
              PublishedDate := publishedDate;
              MediaType := mediaType;
              PublishReference := publishReference;
              LastModified := lastModified |} in
  match json.Marshal p with
  | Err err =>
      _ ← logger_Printf warnLogger "Couldn't marshall payload %v, skipping message." [APayload p];
      mret (Err err)
  | Ok marshalledPayload =>
      let e := {| event.ContentUri := contentUri;
                  event.Payload := marshalledPayload;
                  event.LastModified := lastModified |} in
      match json.Marshal e with
      | Err err =>
          _ ← logger_Printf warnLogger "Couldn't marshall event %v, skipping message." [AEvent e];
          mret (Err err)
      | Ok marshalledEvent => mret (Ok marshalledEvent)
      end
  end.

Definition mapMessage (v : videoMapper) (m : consumer.Message) : M (result string) :=
  match json_dec.Unmarshal_map (consumer.Body m) with
  | inl _ =>
      mret (Err (errors.New
        ("Video JSON from Brightcove couldn't be unmarshalled. Skipping invalid JSON: "
         +:+ consumer.Body m)))
  | inr brightcoveVideo =>
      let publishReference := header (consumer.Headers m) "X-Request-Id" in
      if decide (publishReference = EmptyString) then
        mret (Err (errors.New "X-Request-Id not found in kafka message headers. Skipping message."))
      else
      let lastModified := header (consumer.Headers m) "Message-Timestamp" in
      if decide (lastModified = EmptyString) then
        mret (Err (errors.New "Message-Timestamp not found in kafka message headers. Skipping message."))
      else
      mapBrightcoveVideo v brightcoveVideo publishReference lastModified
  end.

(** The call of the producer's [SendMessage] is commented out in the
    source: [consume] logs the event and returns. *)
Definition consume (v : videoMapper) (m : consumer.Message) : M unit :=
  if decide (header (consumer.Headers m) "Origin-System-Id" ≠ brightcoveOrigin) then
    mret tt
  else
  r ← mapMessage v m;
  match r with
  | Err err => logger_Printf warnLogger "Mapping error: [%v]" [AString (Error err)]
  | Ok marshalledEvent => logger_Printf infoLogger "Sending %v" [ABytes marshalledEvent]
  end.

Definition mapHandler (v : videoMapper) (w : http.ResponseWriter) (r : http.Request)
  : M http.ResponseWriter :=
  match json_dec.Decoder_Decode_map (http.Body r) with
  | inl _ => mret (http.WriteHeader http.StatusBadRequest w)
  | inr brightcoveVideo =>
      let publishReference := http.Header_Get (http.Header r) "X-Request-Id" in
      if decide (publishReference = EmptyString) then
        _ ← logger_Printf warnLogger
              "X-Request-Id not found in kafka message headers. Skipping message." [];
        mret w
      else
      let lastModified := http.Header_Get (http.Header r) "Message-Timestamp" in
      if decide (lastModified = EmptyString) then
        _ ← logger_Printf warnLogger
              "Message-Timestamp not found in kafka message headers. Skipping message." [];
        mret w
      else
      res ← mapBrightcoveVideo v brightcoveVideo publishReference lastModified;
      match res with
      | Err _ => mret (http.WriteHeader http.StatusBadRequest w)
      | Ok mappedVideoBytes => mret (http.Write mappedVideoBytes w)
      end
  end.

(** ** Test data *)

(** Writes a JSON text with apostrophes for quotation marks. *)
Fixpoint json_text (s : string) : string :=
  match s with
  | EmptyString => EmptyString
  | String c r => String (if Ascii.eqb c "'"%char then dq else c) (json_text r)
  end.

Definition v0 : videoMapper := {| messageConsumer := None; messageProducer := None |}.

Definition record1 : gmap string value :=
  <["uuid" := VString "abc-1"]>
  (<["id" := VString "999"]>
  (<["updated_at" := VString "2020-01-01T00:00:00Z"]>
  (<["name" := VString "clip.mp4"]> ∅))).


(** The scenario's record, as the broker or the HTTP client sends it. *)
Definition body1 : string :=
  json_text "{'uuid':'abc-1','id':'999','updated_at':'2020-01-01T00:00:00Z','name':'clip.mp4'}".

Definition payload1 : payload :=
  {| UUID := "abc-1";
     Identifiers := [ {| Authority := "http://api.ft.com/system/BRIGHTCOVE";
                         IdentifierValue := "999" |} ];
     PublishedDate := "2020-01-01T00:00:00Z";
     MediaType := "video/mp4";
     PublishReference := "req-1";
     LastModified := "ts-1" |}.

Definition event1 : publicationEvent :=
  {| event.ContentUri := "http://video-mapper-iw-uk-p.svc.ft.com/video/model/abc-1";
     event.Payload := encode payload1;
     event.LastModified := "ts-1" |}.

(** The scenario's event with another media type in its payload. *)
Definition event_with_mediaType (t : string) : publicationEvent :=
  {| event.ContentUri := videoContentUriBase +:+ "abc-1";
     event.Payload := encode
       {| UUID := "abc-1";
          Identifiers := [ {| Authority := brigthcoveAuthority; IdentifierValue := "999" |} ];
          PublishedDate := "2020-01-01T00:00:00Z";
          MediaType := t;
          PublishReference := "req-1";
          LastModified := "ts-1" |};
     event.LastModified := "ts-1" |}.

(** The same record without one of its members, with a number for its
    uuid, and with a name whose last dot lies in a directory part. *)
Definition record_without (k : string) : gmap string value := delete k record1.

Definition record_numeric_uuid : gmap string value := <["uuid" := VFloat64 "5"]> record1.

Definition record_dotted_dir : gmap string value := <["name" := VString "a.b/c"]> record1.

(** A uuid of one byte that is no UTF-8, and U+FFFD in UTF-8. *)
Definition record_ill_formed_uuid : gmap string value :=
  <["uuid" := VString (String "255"%char EmptyString)]> record1.

Definition replacement_bytes : string :=
  String "239"%char (String "191"%char (String "189"%char EmptyString)).

Definition headers1 : gmap string string :=
  <["Origin-System-Id" := brightcoveOrigin]>
  (<["X-Request-Id" := "req-1"]>
  (<["Message-Timestamp" := "ts-1"]> ∅)).

Definition message1 : consumer.Message :=
  {| consumer.Headers := headers1; consumer.Body := body1 |}.

Definition foreign_message : consumer.Message :=
  {| consumer.Headers := <["Origin-System-Id" := "http://cmdb.ft.com/systems/methode-web-pub"]> headers1;
     consumer.Body := "{}" |}.

Definition request_headers1 : gmap string (list string) :=
  <["X-Request-Id" := ["req-1"]]> (<["Message-Timestamp" := ["ts-1"]]> ∅).

Definition request1 : http.Request :=
  {| http.Header := request_headers1; http.Body := body1 |}.

Definition request_without_uuid : http.Request :=
  {| http.Header := request_headers1;
     http.Body := json_text "{'id':'999','updated_at':'2020-01-01T00:00:00Z','name':'clip.mp4'}" |}.

(** [c] occurs in [s]. *)
Fixpoint contains (c : ascii) (s : string) : bool :=
  match s with
  | EmptyString => false
  | String x r => Ascii.eqb x c || contains c r
  end.

(** The three validation errors of the mapper. *)
Definition uuid_error : error :=
  errors.New "uuid field of native brightcove video JSON is null. Skipping message.".
Definition id_error : error :=
  errors.New "id field of native brightcove video JSON is null. Skipping message.".
Definition updated_at_error : error :=
  errors.New "updated_at field of native brightcove video JSON is null. Skipping message.".

(** ** Well-formed UTF-8, for the statements about round trips *)

(** The runes of two-, three- and four-byte sequences. *)
Definition rune2 (b0 b1 : Z) : Z :=
  Z.lor (Z.shiftl (Z.land b0 utf8.mask2) 6) (Z.land b1 utf8.maskx).

Definition rune3 (b0 b1 b2 : Z) : Z :=
  Z.lor (Z.lor (Z.shiftl (Z.land b0 utf8.mask3) 12) (Z.shiftl (Z.land b1 utf8.maskx) 6))
        (Z.land b2 utf8.maskx).

Definition rune4 (b0 b1 b2 b3 : Z) : Z :=
  Z.lor (Z.lor (Z.lor (Z.shiftl (Z.land b0 utf8.mask4) 18)
                      (Z.shiftl (Z.land b1 utf8.maskx) 12))
               (Z.shiftl (Z.land b2 utf8.maskx) 6))
        (Z.land b3 utf8.maskx).

(** The length a lead byte announces; [0] for a byte that leads nothing. *)
Definition seq_len (b0 : Z) : nat :=
  if (0xC2 <=? b0) && (b0 <=? 0xDF) then 2
  else if (0xE0 <=? b0) && (b0 <=? 0xEF) then 3
  else if (0xF0 <=? b0) && (b0 <=? 0xF4) then 4
  else 0.

(** The bounds of the second byte, which exclude overlong forms,
    surrogates and runes above U+10FFFF. *)
Definition second_lo (b0 : Z) : Z :=
  if b0 =? 0xE0 then 0xA0 else if b0 =? 0xF0 then 0x90 else 0x80.

Definition second_hi (b0 : Z) : Z :=
  if b0 =? 0xED then 0x9F else if b0 =? 0xF4 then 0x8F else 0xBF.

Definition continuation (b : Z) : bool := (0x80 <=? b) && (b <=? 0xBF).

(** The rune and length of the well-formed multi-byte sequence [s]
    starts with, if it starts with one. *)
Definition wf_seq (s : string) : option (Z * nat) :=
  match s with
  | String c0 (String c1 r1) =>
      let b0 := byte_to_Z c0 in
      let b1 := byte_to_Z c1 in
      if (second_lo b0 <=? b1) && (b1 <=? second_hi b0) then
        match seq_len b0 with
        | 2%nat => Some (rune2 b0 b1, 2%nat)
        | 3%nat =>
            match r1 with
            | String c2 _ =>
                if continuation (byte_to_Z c2)
                then Some (rune3 b0 b1 (byte_to_Z c2), 3%nat) else None
            | EmptyString => None
            end
        | 4%nat =>
            match r1 with
            | String c2 (String c3 _) =>
                if continuation (byte_to_Z c2) && continuation (byte_to_Z c3)
                then Some (rune4 b0 b1 (byte_to_Z c2) (byte_to_Z c3), 4%nat) else None
            | _ => None
            end
        | _ => None
        end
      else None
  | _ => None
  end.

(** What a JSON round trip makes of a Go string: well-formed UTF-8 is
    kept, every other byte becomes U+FFFD. *)
Fixpoint coerce_loop (fuel : nat) (s : string) : string :=
  match fuel, s with
  | S fuel', String b rest =>
      if byte_to_Z b <? utf8.RuneSelf then String b (coerce_loop fuel' rest)
      else
        let '(c, size) := utf8.DecodeRuneInString s in
        utf8.EncodeRune c +:+ coerce_loop fuel' (drop_bytes size s)
  | _, _ => EmptyString
  end.

Definition coerce_utf8 (s : string) : string := coerce_loop (String.length s) s.

(** What the decoder's loop does with the bytes [out] of one step. *)
Definition prepend (out : string) (x : option (string * string)) : option (string * string) :=
  match x with
  | Some (t, rest) => Some (out +:+ t, rest)
  | None => None
  end.

(** [V] is read as the value [x], with [d] units of fuel or more,
    under at least [n] levels of nesting short of the limit, and
    whatever follows it. *)
Definition parses_as (d : nat) (n : N) (V : string) (x : value) : Prop :=
  ∀ (conv : bool) (f : nat) (depth : N) (rest : string),
    (d <= f)%nat → (depth + n <= json_dec.maxNestingDepth)%N →
    json_dec.parse_value conv f depth (V +:+ rest) = Some (x, rest).

(** A member name that the encoder writes as it is and the decoder
    reads as it is. *)
Definition plain (k : string) : Prop :=
  json_enc.string_loop (String.length k) k = k ∧ coerce_utf8 k = k.

(** What a JSON round trip makes of the mapper's types. *)
Definition coerce_identifier (i : identifier) : identifier :=
  {| Authority := coerce_utf8 (Authority i);
     IdentifierValue := coerce_utf8 (IdentifierValue i) |}.

Definition coerce_payload (p : payload) : payload :=
  {| UUID := coerce_utf8 (UUID p);
     Identifiers := map coerce_identifier (Identifiers p);
     PublishedDate := coerce_utf8 (PublishedDate p);
     MediaType := coerce_utf8 (MediaType p);
     PublishReference := coerce_utf8 (PublishReference p);
     LastModified := coerce_utf8 (LastModified p) |}.

Definition coerce_event (e : publicationEvent) : publicationEvent :=
  {| event.ContentUri := coerce_utf8 (event.ContentUri e);
     event.Payload := coerce_utf8 (event.Payload e);
     event.LastModified := coerce_utf8 (event.LastModified e) |}.

(** [s] is well-formed UTF-8 that stays as it is in front of any text. *)
Definition utf8_stable (s : string) : Prop :=
  ∀ X : string, coerce_utf8 (s +:+ X) = s +:+ coerce_utf8 X.

Fixpoint is_ascii (s : string) : bool :=
  match s with
  | EmptyString => true
  | String b r => (byte_to_Z b <? utf8.RuneSelf) && is_ascii r
  end.

(** What the decoder makes of an encoded identifier and payload. *)
Definition value_of_identifier (i : identifier) : value :=
  VMap (<["identifierValue" := VString (coerce_utf8 (IdentifierValue i))]>
       (<["authority" := VString (coerce_utf8 (Authority i))]> ∅)).

Definition value_of_payload (p : payload) : value :=
  VMap (<["lastModified" := VString (coerce_utf8 (LastModified p))]>
       (<["publishReference" := VString (coerce_utf8 (PublishReference p))]>
       (<["mediaType" := VString (coerce_utf8 (MediaType p))]>
       (<["publishedDate" := VString (coerce_utf8 (PublishedDate p))]>
       (<["identifiers" := VSlice (map value_of_identifier (Identifiers p))]>
       (<["uuid" := VString (coerce_utf8 (UUID p))]> ∅)))))).

Definition value_of_event (e : publicationEvent) : value :=
  VMap (<["lastModified" := VString (coerce_utf8 (event.LastModified e))]>
       (<["payload" := VString (coerce_utf8 (event.Payload e))]>
       (<["contentUri" := VString (coerce_utf8 (event.ContentUri e))]> ∅))).

(** ** The outcomes of the mapper *)

(** [x] holds a string; [x] holds a string that is not empty. *)
Definition is_string (x : value) : Prop := ∃ s, x = VString s.
Definition nonempty_string (x : value) : Prop := ∃ s, x = VString s ∧ s ≠ EmptyString.

(** The unchecked assertion on the member [k] is reached and fails:
    [m[k]] holds no string, and the members asserted before it hold
    strings that are not empty. *)
Definition failing_assertion (m : gmap string value) (k : string) : Prop :=
  ¬ is_string (index m k)
  ∧ (k = "uuid"
     ∨ (k = "id" ∧ nonempty_string (index m "uuid"))
     ∨ (k = "updated_at" ∧ nonempty_string (index m "uuid")
        ∧ nonempty_string (index m "id"))
     ∨ (k = "name" ∧ nonempty_string (index m "uuid")
        ∧ nonempty_string (index m "id")
        ∧ nonempty_string (index m "updated_at"))).

(** The one log line of the mapper. *)
Definition name_warning : effect :=
  Printf warnLogger
    "filename field of native brightcove video JSON is null, type will be video/." [].

(** The scenario's record under another name. *)
Definition record_named (name : string) : gmap string value :=
  <["name" := VString name]> record1.

(** Every string the record binds is well-formed UTF-8. *)
Definition wf_strings (m : gmap string value) : Prop :=
  ∀ k s, m !! k = Some (VString s) → utf8_stable s.

(** The scenario's record under another file name, as a body. *)
Definition body_renamed : string :=
  json_text "{'uuid':'abc-1','id':'999','updated_at':'2020-01-01T00:00:00Z','name':'other.mp4'}".

(** ** The bytes of an encoding *)

(** Every byte of [s] satisfies [P]. *)
Fixpoint all_bytes (P : ascii → bool) (s : string) : bool :=
  match s with
  | EmptyString => true
  | String b r => P b && all_bytes P r
  end.

(** A byte that is not below 0x20 and none of the three characters
    [Marshal] escapes for HTML.  (DEL and the bytes from 0x80 on are
    among them.) *)
Definition emitted_byte (b : ascii) : bool :=
  let v := byte_to_Z b in
  (0x20 <=? v) && negb (v =? 0x3C) && negb (v =? 0x3E) && negb (v =? 0x26).

(** ** The parts of a number *)

(** The integer part, the fraction and the exponent as [scan_number]
    reads them, each with what follows it. *)
Definition int_part (s1 : string) : option (string * string) :=
  match s1 with
  | String c r =>
      if byte_to_Z c =? 0x30 then Some ("0", r)
      else if json_dec.isDigit c then Some (json_dec.span_digits s1)
      else None
  | EmptyString => None
  end.

Definition frac_part (s2 : string) : option (string * string) :=
  match s2 with
  | String c r =>
      if byte_to_Z c =? 0x2E then
        match json_dec.span_digits r with
        | (EmptyString, _) => None
        | (d, s3) => Some (String c d, s3)
        end
      else Some (EmptyString, s2)
  | EmptyString => Some (EmptyString, s2)
  end.

Definition exp_part (s3 : string) : option (string * string) :=
  match s3 with
  | String c r =>
      if (byte_to_Z c =? 0x65) || (byte_to_Z c =? 0x45) then
        let '(esign, r1) :=
          match r with
          | String c' r' =>
              if (byte_to_Z c' =? 0x2B) || (byte_to_Z c' =? 0x2D)
              then (String c' EmptyString, r')
              else (EmptyString, r)
          | EmptyString => (EmptyString, r)
          end in
        match json_dec.span_digits r1 with
        | (EmptyString, _) => None
        | (d, s4) => Some (String c (esign +:+ d), s4)
        end
      else Some (EmptyString, s3)
  | EmptyString => Some (EmptyString, s3)
  end.

(** A byte of [0x80] or above. *)
Definition high_byte (b : ascii) : bool := utf8.RuneSelf <=? byte_to_Z b.

(** ** Bodies at the limits of the decoder *)

(** A record whose only member is a number above the largest
    [float64]. *)
Definition body_out_of_range : string := json_text "{'uuid':1e999}".

(** The scenario's record with one more member, a number above the
    largest [float64]. *)
Definition body_extra_out_of_range : string :=
  json_text "{'uuid':'abc-1','id':'999','updated_at':'2020-01-01T00:00:00Z','name':'clip.mp4','views':1e999}".

(** The scenario's record with the largest [float64] as one more
    member. *)
Definition body_extra_largest : string :=
  json_text "{'uuid':'abc-1','id':'999','updated_at':'2020-01-01T00:00:00Z','name':'clip.mp4','views':1.7976931348623157e308}".

Fixpoint repeat_byte (n : nat) (b : ascii) (s : string) : string :=
  match n with
  | O => s
  | S n' => String b (repeat_byte n' b s)
  end.

(** [n] arrays, one in the other. *)
Definition nested_arrays (n : nat) : string :=
  repeat_byte n "["%char (repeat_byte n "]"%char EmptyString).

(** A record with [n] arrays, one in the other, as the member [k]. *)
Definition body_nested (n : nat) : string :=
  json_text "{'k':" +:+ nested_arrays n +:+ "}".

(** * Properties *)

(** ** Strings *)

#[local] Arguments String.append !_ _ / : simpl nomatch.

Lemma append_assoc (a b c : string) : (a +:+ b) +:+ c = a +:+ (b +:+ c).
Proof. induction a as [|x a IH]; simpl; [reflexivity | now f_equal]. Qed.

Lemma append_nil_r (a : string) : a +:+ EmptyString = a.
Proof. induction a as [|x a IH]; simpl; [reflexivity | now f_equal]. Qed.

Lemma length_append (a b : string) :
  String.length (a +:+ b) = (String.length a + String.length b)%nat.
Proof. induction a as [|x a IH]; simpl; [reflexivity | now f_equal]. Qed.

Lemma drop_bytes_append (a b : string) : drop_bytes (String.length a) (a +:+ b) = b.
Proof. induction a as [|x a IH]; simpl; [reflexivity | exact IH]. Qed.

Lemma take_bytes_append (a b : string) : take_bytes (String.length a) (a +:+ b) = a.
Proof. induction a as [|x a IH]; simpl; [reflexivity | now f_equal]. Qed.

Lemma length_drop_bytes (n : nat) (s : string) :
  String.length (drop_bytes n s) = (String.length s - n)%nat.
Proof.
  revert s. induction n as [|n IH]; intros [|x s]; simpl; try reflexivity.
  apply IH.
Qed.

Lemma take_drop_bytes (n : nat) (s : string) : take_bytes n s +:+ drop_bytes n s = s.
Proof.
  revert s. induction n as [|n IH]; intros [|x s]; simpl; try reflexivity.
  now f_equal.
Qed.

Lemma get_append_r (a b : string) (k : nat) :
  String.get (String.length a + k) (a +:+ b) = String.get k b.
Proof. induction a as [|x a IH]; simpl; [reflexivity | exact IH]. Qed.

Lemma get_some (s : string) (k : nat) :
  (k < String.length s)%nat → ∃ x, String.get k s = Some x.
Proof.
  revert k. induction s as [|y s IH]; intros k Hk; simpl in *; [lia |].
  destruct k as [|k]; [eauto | apply IH; lia].
Qed.

Lemma get_contains (c x : ascii) (s : string) (k : nat) :
  contains c s = false → String.get k s = Some x → x ≠ c.
Proof.
  revert k. induction s as [|y s IH]; intros k Hc Hg; simpl in *; [discriminate |].
  apply orb_false_iff in Hc as [Hy Hs].
  destruct k as [|k].
  - injection Hg as ->. now apply Ascii.eqb_neq.
  - eauto.
Qed.

Lemma byte_to_Z_inj (a b : ascii) : byte_to_Z a = byte_to_Z b → a = b.
Proof.
  unfold byte_to_Z. intros H. apply N2Z.inj in H.
  rewrite <- (ascii_N_embedding a), <- (ascii_N_embedding b). now rewrite H.
Qed.

(** ** filepath.Ext *)

Lemma byte_neq (x c : ascii) (n : Z) : byte_to_Z c = n → x ≠ c → (byte_to_Z x =? n) = false.
Proof.
  intros <- Hx. apply Z.eqb_neq. intros E. now apply Hx, byte_to_Z_inj.
Qed.

(** The scan from the end passes over bytes that are neither a dot nor
    a path separator. *)
Lemma Ext_loop_skip (base tail : string) (k : nat) :
  contains "."%char tail = false →
  contains "/"%char tail = false →
  (k <= String.length tail)%nat →
  filepath.Ext_loop (base +:+ tail) (String.length base + k)
  = filepath.Ext_loop (base +:+ tail) (String.length base).
Proof.
  intros Hdot Hsep. induction k as [|k IH]; intros Hk.
  - now rewrite Nat.add_0_r.
  - rewrite Nat.add_succ_r. cbn [filepath.Ext_loop].
    rewrite get_append_r.
    destruct (get_some tail k) as [x Hx]; [lia |]. rewrite Hx.
    unfold filepath.IsPathSeparator.
    rewrite (byte_neq x "/"%char 0x2F), (byte_neq x "."%char 0x2E)
      by (reflexivity || eapply get_contains; eassumption).
    apply IH. lia.
Qed.

(** The extension is found from the end: everything from the last dot
    on, when no path separator follows that dot. *)
Lemma Ext_suffix (base ext : string) :
  contains "."%char ext = false →
  contains "/"%char ext = false →
  filepath.Ext (base +:+ "." +:+ ext) = "." +:+ ext.
Proof.
  intros Hdot Hsep. unfold filepath.Ext.
  rewrite <- append_assoc, length_append.
  rewrite Ext_loop_skip by (assumption || lia).
  rewrite length_append. cbn [String.length]. rewrite Nat.add_1_r.
  cbn [filepath.Ext_loop].
  rewrite append_assoc.
  rewrite <- (Nat.add_0_r (String.length base)) at 1. rewrite get_append_r.
  cbn. apply drop_bytes_append.
Qed.

(** A path separator after the last dot hides it: no extension. *)
Lemma Ext_after_separator (base tail : string) :
  contains "."%char tail = false →
  contains "/"%char tail = false →
  filepath.Ext (base +:+ "/" +:+ tail) = EmptyString.
Proof.
  intros Hdot Hsep. unfold filepath.Ext.
  rewrite <- append_assoc, length_append.
  rewrite Ext_loop_skip by (assumption || lia).
  rewrite length_append. cbn [String.length]. rewrite Nat.add_1_r.
  cbn [filepath.Ext_loop].
  rewrite append_assoc.
  rewrite <- (Nat.add_0_r (String.length base)) at 1. rewrite get_append_r.
  reflexivity.
Qed.

(** No dot, no extension. *)
Lemma Ext_loop_no_dot (s : string) (k : nat) :
  contains "."%char s = false → filepath.Ext_loop s k = EmptyString.
Proof.
  intros Hdot. induction k as [|k IH]; [reflexivity |].
  cbn [filepath.Ext_loop].
  destruct (String.get k s) as [x|] eqn:Hx; [|reflexivity].
  destruct (filepath.IsPathSeparator x); [reflexivity |].
  rewrite (byte_neq x "."%char 0x2E) by (reflexivity || eapply get_contains; eassumption).
  exact IH.
Qed.

Lemma Ext_no_dot (s : string) : contains "."%char s = false → filepath.Ext s = EmptyString.
Proof. apply Ext_loop_no_dot. Qed.

Lemma TrimPrefix_dot (ext : string) : gostrings.TrimPrefix ("." +:+ ext) "." = ext.
Proof.
  unfold gostrings.TrimPrefix, gostrings.HasPrefix. simpl.
  destruct ext; reflexivity.
Qed.

(** ** The mapper, case by case *)


(** ** The mapper, case by case

    The sections follow the order of the checks in the source: each
    inner one assumes that the member before it passed. *)

Lemma assert_string_panics (x : value) :
  (∀ s, x ≠ VString s) →
  assert_string x = ([], Panics (TypeAssertionError (dynamic_type x) "string")).
Proof. intros H. destruct x; try reflexivity. now destruct (H s). Qed.

#[local] Ltac run_mapper :=
  unfold mapBrightcoveVideo;
  repeat match goal with
    | H : index _ _ = VString _ |- _ => rewrite H; clear H
    end;
  cbn [assert_string mbind M_bind mret M_ret];
  rewrite ?decide_False by assumption.

Section Mapper.

Context (v : videoMapper) (m : gmap string value) (r l : string).

Lemma rejects_empty_uuid :
  index m "uuid" = VString EmptyString →
  mapBrightcoveVideo v m r l = ([], Returns (Err uuid_error)).
Proof. intros H. now run_mapper. Qed.

(** A member that is absent, [null] or no string makes the unchecked
    assertion on it panic. *)
Lemma panics_on_uuid :
  (∀ s, index m "uuid" ≠ VString s) →
  mapBrightcoveVideo v m r l =
    ([], Panics (TypeAssertionError (dynamic_type (index m "uuid")) "string")).
Proof.
  intros H. unfold mapBrightcoveVideo. now rewrite (assert_string_panics _ H).
Qed.

Section AfterUuid.

Context (uuid : string)
  (Huuid : index m "uuid" = VString uuid) (Huuid_ne : uuid ≠ EmptyString).

Lemma rejects_empty_id :
  index m "id" = VString EmptyString →
  mapBrightcoveVideo v m r l = ([], Returns (Err id_error)).
Proof. intros H. now run_mapper. Qed.

Lemma panics_on_id :
  (∀ s, index m "id" ≠ VString s) →
  mapBrightcoveVideo v m r l =
    ([], Panics (TypeAssertionError (dynamic_type (index m "id")) "string")).
Proof. intros H. run_mapper. now rewrite (assert_string_panics _ H). Qed.

Section AfterId.

Context (id : string)
  (Hid : index m "id" = VString id) (Hid_ne : id ≠ EmptyString).

Lemma rejects_empty_updated_at :
  index m "updated_at" = VString EmptyString →
  mapBrightcoveVideo v m r l = ([], Returns (Err updated_at_error)).
Proof. intros H. now run_mapper. Qed.

Lemma panics_on_updated_at :
  (∀ s, index m "updated_at" ≠ VString s) →
  mapBrightcoveVideo v m r l =
    ([], Panics (TypeAssertionError (dynamic_type (index m "updated_at")) "string")).
Proof. intros H. run_mapper. now rewrite (assert_string_panics _ H). Qed.

Section AfterUpdatedAt.

Context (d : string)
  (Hd : index m "updated_at" = VString d) (Hd_ne : d ≠ EmptyString).

Lemma panics_on_name :
  (∀ s, index m "name" ≠ VString s) →
  mapBrightcoveVideo v m r l =
    ([], Panics (TypeAssertionError (dynamic_type (index m "name")) "string")).
Proof. intros H. run_mapper. now rewrite (assert_string_panics _ H). Qed.

(** All four members are strings, the three required ones not empty:
    the mapper returns the event it builds, and has warned when the
    name is empty. *)
Lemma mapBrightcoveVideo_valid (name : string) :
  index m "name" = VString name →
  mapBrightcoveVideo v m r l =
    (if decide (name = EmptyString)
     then [Printf warnLogger
             "filename field of native brightcove video JSON is null, type will be video/." []]
     else [],
     Returns (Ok (encode
       {| event.ContentUri := videoContentUriBase +:+ uuid;
          event.Payload := encode
            {| UUID := uuid;
               Identifiers := [ {| Authority := brigthcoveAuthority; IdentifierValue := id |} ];
               PublishedDate := d;
               MediaType := viodeMediaTypeBase +:+ gostrings.TrimPrefix (filepath.Ext name) ".";
               PublishReference := r;
               LastModified := l |};
          event.LastModified := l |}))).
Proof.
  intros Hn. run_mapper. destruct (decide (name = EmptyString)); reflexivity.
Qed.

(** An empty name is tolerated: a warning, and the bare prefix. *)
Lemma empty_name_maps_to_prefix :
  index m "name" = VString EmptyString →
  mapBrightcoveVideo v m r l =
    ([Printf warnLogger
        "filename field of native brightcove video JSON is null, type will be video/." []],
     Returns (Ok (encode
       {| event.ContentUri := videoContentUriBase +:+ uuid;
          event.Payload := encode
            {| UUID := uuid;
               Identifiers := [ {| Authority := brigthcoveAuthority; IdentifierValue := id |} ];
               PublishedDate := d;
               MediaType := "video/";
               PublishReference := r;
               LastModified := l |};
          event.LastModified := l |}))).
Proof. intros Hn. now rewrite (mapBrightcoveVideo_valid EmptyString). Qed.

End AfterUpdatedAt.
End AfterId.
End AfterUuid.

(** The three ways the mapper ends: a panic, one of its three errors,
    or the event built from four strings. *)
Lemma mapBrightcoveVideo_cases :
  (∃ p, mapBrightcoveVideo v m r l = ([], Panics p))
  ∨ (∃ err, mapBrightcoveVideo v m r l = ([], Returns (Err err))
            ∧ In err [uuid_error; id_error; updated_at_error])
  ∨ (∃ uuid id d name,
       index m "uuid" = VString uuid ∧ uuid ≠ EmptyString
       ∧ index m "id" = VString id ∧ id ≠ EmptyString
       ∧ index m "updated_at" = VString d ∧ d ≠ EmptyString
       ∧ index m "name" = VString name
       ∧ mapBrightcoveVideo v m r l =
           (if decide (name = EmptyString)
            then [Printf warnLogger
                    "filename field of native brightcove video JSON is null, type will be video/." []]
            else [],
            Returns (Ok (encode
              {| event.ContentUri := videoContentUriBase +:+ uuid;
                 event.Payload := encode
                   {| UUID := uuid;
                      Identifiers :=
                        [ {| Authority := brigthcoveAuthority; IdentifierValue := id |} ];
                      PublishedDate := d;
                      MediaType :=
                        viodeMediaTypeBase +:+ gostrings.TrimPrefix (filepath.Ext name) ".";
                      PublishReference := r;
                      LastModified := l |};
                 event.LastModified := l |})))).
Proof.
  destruct (index m "uuid") as [| | |uuid| |] eqn:Hu;
    try (left; eexists; apply panics_on_uuid; intros ?; rewrite Hu; discriminate).
  destruct (decide (uuid = EmptyString)) as [->|Hu'].
  { right; left. eexists. split; [now apply rejects_empty_uuid | cbn; tauto]. }
  destruct (index m "id") as [| | |id| |] eqn:Hi;
    try (left; eexists; apply (panics_on_id uuid Hu Hu'); intros ?; rewrite Hi; discriminate).
  destruct (decide (id = EmptyString)) as [->|Hi'].
  { right; left. eexists. split; [now apply (rejects_empty_id uuid) | cbn; tauto]. }
  destruct (index m "updated_at") as [| | |d| |] eqn:Hd;
    try (left; eexists; apply (panics_on_updated_at uuid Hu Hu' id Hi Hi');
         intros ?; rewrite Hd; discriminate).
  destruct (decide (d = EmptyString)) as [->|Hd'].
  { right; left. eexists. split; [now apply (rejects_empty_updated_at uuid Hu Hu' id) | cbn; tauto]. }
  destruct (index m "name") as [| | |name| |] eqn:Hn;
    try (left; eexists; apply (panics_on_name uuid Hu Hu' id Hi Hi' d Hd Hd');
         intros ?; rewrite Hn; discriminate).
  right; right. exists uuid, id, d, name. repeat split; try assumption.
  now apply mapBrightcoveVideo_valid.
Qed.

(** The mapper writes nothing but its one warning. *)
Lemma mapBrightcoveVideo_trace (e : effect) :
  In e (trace (mapBrightcoveVideo v m r l)) →
  e = Printf warnLogger
        "filename field of native brightcove video JSON is null, type will be video/." [].
Proof.
  destruct mapBrightcoveVideo_cases
    as [[p ->] | [(err & -> & _) | (uuid & id & d & name & _ & _ & _ & _ & _ & _ & _ & ->)]];
    cbn [trace fst In]; try tauto.
  destruct (decide (name = EmptyString)); cbn [In]; [|tauto].
  intros [<-|[]]. reflexivity.
Qed.

(** When the mapper returns bytes, the record held four strings, the
    required ones not empty, and the bytes are the event built from them. *)
Lemma mapBrightcoveVideo_Ok_inv (out : string) :
  result_of (mapBrightcoveVideo v m r l) = Returns (Ok out) →
  ∃ uuid id d name,
    index m "uuid" = VString uuid ∧ uuid ≠ EmptyString
    ∧ index m "id" = VString id ∧ id ≠ EmptyString
    ∧ index m "updated_at" = VString d ∧ d ≠ EmptyString
    ∧ index m "name" = VString name
    ∧ out = encode
        {| event.ContentUri := videoContentUriBase +:+ uuid;
           event.Payload := encode
             {| UUID := uuid;
                Identifiers := [ {| Authority := brigthcoveAuthority; IdentifierValue := id |} ];
                PublishedDate := d;
                MediaType := viodeMediaTypeBase +:+ gostrings.TrimPrefix (filepath.Ext name) ".";
                PublishReference := r;
                LastModified := l |};
           event.LastModified := l |}.
Proof.
  destruct mapBrightcoveVideo_cases
    as [[p ->] | [(err & -> & _) | (uuid & id & d & name & Hu & Hu' & Hi & Hi' & Hd & Hd' & Hn & ->)]];
    try discriminate.
  cbn [result_of snd]. intros [= <-].
  exists uuid, id, d, name. repeat split; assumption.
Qed.

End Mapper.

(** ** The broker path *)

Lemma mapMessage_trace v m (e : effect) :
  In e (trace (mapMessage v m)) → ∃ l f a, e = Printf l f a.
Proof.
  unfold mapMessage.
  destruct (json_dec.Unmarshal_map _); [cbn [trace fst mret M_ret In]; tauto |].
  repeat (case_decide; [cbn [trace fst mret M_ret In]; tauto |]).
  intros He%mapBrightcoveVideo_trace. eauto.
Qed.

(** [consume] never hands anything to the producer. *)
Lemma consume_never_sends v m to uuid msg :
  ¬ In (SendMessage to uuid msg) (trace (consume v m)).
Proof.
  unfold consume. case_decide; [cbn [trace fst mret M_ret In]; tauto |].
  pose proof (mapMessage_trace v m) as Ht.
  destruct (mapMessage v m) as [t [[b|err]|p]];
    cbn [trace fst mbind M_bind logger_Printf emit] in *.
  - rewrite in_app_iff. intros [Hin|[Hin|[]]]; [|discriminate].
    destruct (Ht _ Hin) as (? & ? & ? & ?). discriminate.
  - rewrite in_app_iff. intros [Hin|[Hin|[]]]; [|discriminate].
    destruct (Ht _ Hin) as (? & ? & ? & ?). discriminate.
  - intros Hin. destruct (Ht _ Hin) as (? & ? & ? & ?). discriminate.
Qed.

(** A rejected or undecodable message is logged as a warning and
    dropped; a mapped one is logged. *)
Lemma consume_logs v m t res :
  header (consumer.Headers m) "Origin-System-Id" = brightcoveOrigin →
  mapMessage v m = (t, Returns res) →
  consume v m =
    ((t ++ [match res with
            | Err err => Printf warnLogger "Mapping error: [%v]" [AString (Error err)]
            | Ok b => Printf infoLogger "Sending %v" [ABytes b]
            end])%list,
     Returns tt).
Proof.
  intros Ho Hm. unfold consume. rewrite decide_False by (intros H; now apply H).
  rewrite Hm. cbn [mbind M_bind]. now destruct res.
Qed.

(** ** The HTTP handler, case by case *)

Lemma mapHandler_undecodable_body v w r e :
  json_dec.Decoder_Decode_map (http.Body r) = inl e →
  mapHandler v w r = ([], Returns (http.WriteHeader http.StatusBadRequest w)).
Proof. intros H. unfold mapHandler. now rewrite H. Qed.

(** A body that does not decode: 400 and nothing else. *)
Lemma response_undecodable_body v r e :
  json_dec.Decoder_Decode_map (http.Body r) = inl e →
  http.response (mapHandler v http.fresh r) = Some (http.StatusBadRequest, EmptyString).
Proof. intros H. now rewrite (mapHandler_undecodable_body v _ r e H). Qed.

Section Handler.

Context (v : videoMapper) (r : http.Request) (m : gmap string value)
  (Hbody : json_dec.Decoder_Decode_map (http.Body r) = inr m)
  (Hreference : http.Header_Get (http.Header r) "X-Request-Id" ≠ EmptyString)
  (Htimestamp : http.Header_Get (http.Header r) "Message-Timestamp" ≠ EmptyString).

Let mapped : M (result string) :=
  mapBrightcoveVideo v m (http.Header_Get (http.Header r) "X-Request-Id")
    (http.Header_Get (http.Header r) "Message-Timestamp").

Lemma mapHandler_mapped w t res :
  mapped = (t, Returns res) →
  mapHandler v w r =
    (t, Returns match res with
                | Err _ => http.WriteHeader http.StatusBadRequest w
                | Ok b => http.Write b w
                end).
Proof.
  subst mapped. intros Hres. unfold mapHandler. rewrite Hbody.
  rewrite !decide_False by assumption. rewrite Hres.
  cbn [mbind M_bind]. destruct res; cbn [mret M_ret]; now rewrite app_nil_r.
Qed.

Lemma mapHandler_panics w t p :
  mapped = (t, Panics p) → mapHandler v w r = (t, Panics p).
Proof.
  subst mapped. intros Hres. unfold mapHandler. rewrite Hbody.
  rewrite !decide_False by assumption. now rewrite Hres.
Qed.

(** What the client gets: 400 and nothing else for a rejected record,
    200 and the event for a mapped one, no response after a panic. *)
Lemma response_rejected t err :
  mapped = (t, Returns (Err err)) →
  http.response (mapHandler v http.fresh r) = Some (http.StatusBadRequest, EmptyString).
Proof. intros H. now rewrite (mapHandler_mapped _ t _ H). Qed.

Lemma response_mapped t b :
  mapped = (t, Returns (Ok b)) →
  http.response (mapHandler v http.fresh r) = Some (http.StatusOK, b).
Proof. intros H. now rewrite (mapHandler_mapped _ t _ H). Qed.

Lemma response_panicked w t p :
  mapped = (t, Panics p) → http.response (mapHandler v w r) = None.
Proof. intros H. now rewrite (mapHandler_panics w t p H). Qed.

End Handler.

(** ** UTF-8: encoding what was decoded *)

Lemma lor_add_disjoint (a b n : Z) :
  0 ≤ n → 0 ≤ b < 2 ^ n → a mod 2 ^ n = 0 → Z.lor a b = a + b.
Proof.
  intros Hn Hb Ha. symmetry. apply Z.add_nocarry_lor.
  apply Z.bits_inj'. intros i Hi. rewrite Z.land_spec, Z.bits_0.
  destruct (Z_lt_dec i n) as [Hlt|Hge].
  - rewrite <- (Z.mod_pow2_bits_low a n i) by lia. rewrite Ha, Z.bits_0. reflexivity.
  - rewrite <- (Z.mod_small b (2 ^ n)) by lia.
    rewrite Z.mod_pow2_bits_high by lia. apply andb_false_r.
Qed.

Lemma land_low_bits (a m n : Z) : 0 ≤ n → m = Z.ones n → Z.land a m = a mod 2 ^ n.
Proof. intros Hn ->. now apply Z.land_ones. Qed.

#[local] Ltac arith := Z.div_mod_to_equations; lia.

Lemma rune2_value b0 b1 :
  0xC0 ≤ b0 ≤ 0xDF → 0x80 ≤ b1 ≤ 0xBF →
  rune2 b0 b1 = (b0 - 0xC0) * 64 + (b1 - 0x80).
Proof.
  intros H0 H1. unfold rune2, utf8.mask2, utf8.maskx.
  rewrite (land_low_bits b0 _ 5), (land_low_bits b1 _ 6) by (lia || reflexivity).
  rewrite Z.shiftl_mul_pow2 by lia.
  rewrite (lor_add_disjoint _ _ 6) by arith. arith.
Qed.

Lemma rune3_value b0 b1 b2 :
  0xE0 ≤ b0 ≤ 0xEF → 0x80 ≤ b1 ≤ 0xBF → 0x80 ≤ b2 ≤ 0xBF →
  rune3 b0 b1 b2 = (b0 - 0xE0) * 4096 + (b1 - 0x80) * 64 + (b2 - 0x80).
Proof.
  intros H0 H1 H2. unfold rune3, utf8.mask3, utf8.maskx.
  rewrite (land_low_bits b0 _ 4), (land_low_bits b1 _ 6), (land_low_bits b2 _ 6)
    by (lia || reflexivity).
  rewrite !Z.shiftl_mul_pow2 by lia.
  rewrite (lor_add_disjoint (_ * 2 ^ 12) _ 12) by arith.
  rewrite (lor_add_disjoint _ _ 6) by arith. arith.
Qed.

Lemma rune4_value b0 b1 b2 b3 :
  0xF0 ≤ b0 ≤ 0xF7 → 0x80 ≤ b1 ≤ 0xBF → 0x80 ≤ b2 ≤ 0xBF → 0x80 ≤ b3 ≤ 0xBF →
  rune4 b0 b1 b2 b3
  = (b0 - 0xF0) * 262144 + (b1 - 0x80) * 4096 + (b2 - 0x80) * 64 + (b3 - 0x80).
Proof.
  intros H0 H1 H2 H3. unfold rune4, utf8.mask4, utf8.maskx.
  rewrite (land_low_bits b0 _ 3), (land_low_bits b1 _ 6), (land_low_bits b2 _ 6),
    (land_low_bits b3 _ 6) by (lia || reflexivity).
  rewrite !Z.shiftl_mul_pow2 by lia.
  rewrite (lor_add_disjoint (_ * 2 ^ 18) _ 18) by arith.
  rewrite (lor_add_disjoint (_ + _ * 2 ^ 12) _ 12) by arith.
  rewrite (lor_add_disjoint _ _ 6) by arith. arith.
Qed.

(** The bytes [EncodeRune] writes, for a rune given by its parts. *)
Lemma lead_byte (t x n : Z) :
  0 ≤ n → t mod 2 ^ n = 0 → 0 ≤ x < 2 ^ n → Z.lor t x = t + x.
Proof. intros. now apply (lor_add_disjoint t x n). Qed.

Lemma cont_byte (r k : Z) :
  0 ≤ k → Z.lor utf8.tx (Z.land (Z.shiftr r k) utf8.maskx) = 0x80 + (r / 2 ^ k) mod 64.
Proof.
  intros Hk. unfold utf8.tx, utf8.maskx.
  rewrite (land_low_bits _ _ 6), Z.shiftr_div_pow2 by (lia || reflexivity).
  rewrite (lor_add_disjoint _ _ 6) by arith. reflexivity.
Qed.

Lemma cont_byte0 (r : Z) :
  Z.lor utf8.tx (Z.land r utf8.maskx) = 0x80 + r mod 64.
Proof.
  unfold utf8.tx, utf8.maskx.
  rewrite (land_low_bits _ _ 6) by (lia || reflexivity).
  rewrite (lor_add_disjoint _ _ 6) by arith. reflexivity.
Qed.

Lemma EncodeRune_2 b0 b1 :
  0xC2 ≤ b0 ≤ 0xDF → 0x80 ≤ b1 ≤ 0xBF →
  utf8.EncodeRune (rune2 b0 b1)
  = String (Z_to_byte b0) (String (Z_to_byte b1) EmptyString).
Proof.
  intros H0 H1. rewrite rune2_value by lia.
  set (r := (b0 - 0xC0) * 64 + (b1 - 0x80)).
  assert (Hr : 0x80 ≤ r ≤ 0x7FF) by (subst r; lia).
  unfold utf8.EncodeRune.
  rewrite (Z.mod_small r) by lia.
  unfold utf8.rune1Max, utf8.rune2Max.
  destruct (Z.leb_spec r 0x7F); [lia |].
  destruct (Z.leb_spec r 0x7FF); [|lia].
  rewrite cont_byte0. unfold utf8.t2.
  rewrite Z.shiftr_div_pow2 by lia.
  rewrite (lead_byte 0xC0 _ 5) by (subst r; arith).
  f_equal; [|f_equal]; f_equal; subst r; arith.
Qed.

Lemma EncodeRune_3 b0 b1 b2 :
  0xE0 ≤ b0 ≤ 0xEF → 0x80 ≤ b1 ≤ 0xBF → 0x80 ≤ b2 ≤ 0xBF →
  (b0 = 0xE0 → 0xA0 ≤ b1) → (b0 = 0xED → b1 ≤ 0x9F) →
  utf8.EncodeRune (rune3 b0 b1 b2)
  = String (Z_to_byte b0) (String (Z_to_byte b1) (String (Z_to_byte b2) EmptyString)).
Proof.
  intros H0 H1 H2 Hlo Hhi. rewrite rune3_value by lia.
  set (r := (b0 - 0xE0) * 4096 + (b1 - 0x80) * 64 + (b2 - 0x80)).
  assert (Hr : 0x800 ≤ r ≤ 0xFFFF ∧ ¬ (0xD800 ≤ r ≤ 0xDFFF)) by (subst r; lia).
  unfold utf8.EncodeRune.
  rewrite (Z.mod_small r) by lia.
  unfold utf8.rune1Max, utf8.rune2Max, utf8.rune3Max, utf8.MaxRune,
    utf8.surrogateMin, utf8.surrogateMax.
  destruct (Z.leb_spec r 0x7F); [lia |].
  destruct (Z.leb_spec r 0x7FF); [lia |].
  destruct (Z.ltb_spec 0x10FFFF r); [lia |].
  replace ((0xD800 <=? r) && (r <=? 0xDFFF)) with false
    by (symmetry; apply andb_false_iff; rewrite Z.leb_gt, Z.leb_gt; lia).
  cbn [orb].
  destruct (Z.leb_spec r 0xFFFF); [|lia].
  unfold utf8.encode3. rewrite !cont_byte by lia. rewrite cont_byte0. unfold utf8.t3.
  rewrite Z.shiftr_div_pow2 by lia.
  rewrite (lead_byte 0xE0 _ 4) by (subst r; arith).
  f_equal; [|f_equal; [|f_equal]]; f_equal; subst r; arith.
Qed.

Lemma EncodeRune_4 b0 b1 b2 b3 :
  0xF0 ≤ b0 ≤ 0xF4 → 0x80 ≤ b1 ≤ 0xBF → 0x80 ≤ b2 ≤ 0xBF → 0x80 ≤ b3 ≤ 0xBF →
  (b0 = 0xF0 → 0x90 ≤ b1) → (b0 = 0xF4 → b1 ≤ 0x8F) →
  utf8.EncodeRune (rune4 b0 b1 b2 b3)
  = String (Z_to_byte b0) (String (Z_to_byte b1)
      (String (Z_to_byte b2) (String (Z_to_byte b3) EmptyString))).
Proof.
  intros H0 H1 H2 H3 Hlo Hhi. rewrite rune4_value by lia.
  set (r := (b0 - 0xF0) * 262144 + (b1 - 0x80) * 4096 + (b2 - 0x80) * 64 + (b3 - 0x80)).
  assert (Hr : 0x10000 ≤ r ≤ 0x10FFFF) by (subst r; lia).
  unfold utf8.EncodeRune.
  rewrite (Z.mod_small r) by lia.
  unfold utf8.rune1Max, utf8.rune2Max, utf8.rune3Max, utf8.MaxRune,
    utf8.surrogateMin, utf8.surrogateMax.
  destruct (Z.leb_spec r 0x7F); [lia |].
  destruct (Z.leb_spec r 0x7FF); [lia |].
  destruct (Z.ltb_spec 0x10FFFF r); [lia |].
  replace ((0xD800 <=? r) && (r <=? 0xDFFF)) with false
    by (symmetry; apply andb_false_iff; rewrite Z.leb_gt, Z.leb_gt; lia).
  cbn [orb].
  destruct (Z.leb_spec r 0xFFFF); [lia |].
  rewrite !cont_byte by lia. rewrite cont_byte0. unfold utf8.t4.
  rewrite Z.shiftr_div_pow2 by lia.
  rewrite (lead_byte 0xF0 _ 3) by (subst r; arith).
  f_equal; [|f_equal; [|f_equal; [|f_equal]]]; f_equal; subst r; arith.
Qed.

(** ** UTF-8: what [DecodeRuneInString] accepts *)

Lemma byte_range (c : ascii) : 0 ≤ byte_to_Z c < 256.
Proof.
  unfold byte_to_Z. pose proof (N_ascii_bounded c). lia.
Qed.

Lemma Z_to_byte_to_Z (c : ascii) : Z_to_byte (byte_to_Z c) = c.
Proof.
  unfold Z_to_byte. rewrite Z.mod_small by apply byte_range.
  unfold byte_to_Z. rewrite N2Z.id. apply ascii_N_embedding.
Qed.

#[local] Ltac split_cmp :=
  repeat match goal with
    | |- context [Z.ltb ?a ?b] => destruct (Z.ltb_spec a b); try lia
    | |- context [Z.leb ?a ?b] => destruct (Z.leb_spec a b); try lia
    | |- context [Z.eqb ?a ?b] => destruct (Z.eqb_spec a b); try lia
    end.

(** What the table [first] says about a lead byte. *)
Lemma first_lead (b0 : Z) :
  0x80 ≤ b0 < 256 →
  match seq_len b0 with
  | O => utf8.first b0 = utf8.xx
  | k => (utf8.as_ <=? utf8.first b0) = false
         ∧ Z.to_nat (Z.land (utf8.first b0) 7) = k
         ∧ utf8.acceptRanges (Z.shiftr (utf8.first b0) 4) = (second_lo b0, second_hi b0)
  end.
Proof.
  intros Hb. unfold seq_len, utf8.first, second_lo, second_hi.
  unfold utf8.as_, utf8.xx, utf8.s1, utf8.s2, utf8.s3, utf8.s4, utf8.s5, utf8.s6, utf8.s7.
  split_cmp; cbn [andb]; repeat split; reflexivity.
Qed.

Lemma DecodeRune_multibyte (c0 : ascii) (r : string) :
  utf8.RuneSelf ≤ byte_to_Z c0 →
  utf8.DecodeRuneInString (String c0 r)
  = match wf_seq (String c0 r) with
    | Some x => x
    | None => (utf8.RuneError, 1%nat)
    end.
Proof.
  unfold utf8.RuneSelf. intros Hb. pose proof (byte_range c0) as Hr.
  pose proof (first_lead (byte_to_Z c0) ltac:(lia)) as Hf.
  unfold utf8.DecodeRuneInString, wf_seq. cbv zeta.
  destruct (seq_len (byte_to_Z c0)) as [|[|[|[|[|k]]]]] eqn:Hk.
  - rewrite Hf. change (utf8.as_ <=? utf8.xx) with true. cbv iota.
    change (Z.odd utf8.xx) with true. cbv iota.
    change (Z.lnot (-1)) with 0. rewrite Z.land_0_r.
    destruct r as [|c1 r1]; [reflexivity |].
    destruct (_ && _); reflexivity.
  - exfalso. revert Hk. unfold seq_len. repeat case_match; discriminate.
  - destruct Hf as (-> & -> & ->). cbn [len_lt fst snd Nat.leb].
    destruct r as [|c1 r1]; [reflexivity |]. cbn [len_lt].
    destruct (Z.leb_spec (second_lo (byte_to_Z c0)) (byte_to_Z c1));
    destruct (Z.leb_spec (byte_to_Z c1) (second_hi (byte_to_Z c0)));
    split_cmp; reflexivity.
  - destruct Hf as (-> & -> & ->). cbn [len_lt fst snd Nat.leb].
    destruct r as [|c1 [|c2 r2]]; cbn [len_lt]; try reflexivity.
    { destruct (_ && _); reflexivity. }
    unfold continuation, utf8.locb, utf8.hicb.
    destruct (Z.leb_spec (second_lo (byte_to_Z c0)) (byte_to_Z c1));
    destruct (Z.leb_spec (byte_to_Z c1) (second_hi (byte_to_Z c0)));
    split_cmp; reflexivity.
  - destruct Hf as (-> & -> & ->). cbn [len_lt fst snd Nat.leb].
    destruct r as [|c1 [|c2 [|c3 r3]]]; cbn [len_lt]; try reflexivity.
    { destruct (_ && _); reflexivity. }
    { destruct (_ && _); reflexivity. }
    unfold continuation, utf8.locb, utf8.hicb.
    destruct (Z.leb_spec (second_lo (byte_to_Z c0)) (byte_to_Z c1));
    destruct (Z.leb_spec (byte_to_Z c1) (second_hi (byte_to_Z c0)));
    split_cmp; reflexivity.
  - exfalso. revert Hk. unfold seq_len. repeat case_match; discriminate.
Qed.

Lemma seq_len_bounds (b0 : Z) :
  match seq_len b0 with
  | 2%nat => 0xC2 ≤ b0 ≤ 0xDF
  | 3%nat => 0xE0 ≤ b0 ≤ 0xEF
  | 4%nat => 0xF0 ≤ b0 ≤ 0xF4
  | _ => True
  end.
Proof. unfold seq_len. split_cmp; cbn [andb]; try exact I; lia. Qed.

Lemma second_bounds (b0 b1 : Z) :
  (second_lo b0 <=? b1) && (b1 <=? second_hi b0) = true →
  0x80 ≤ b1 ≤ 0xBF
  ∧ (b0 = 0xE0 → 0xA0 ≤ b1) ∧ (b0 = 0xED → b1 ≤ 0x9F)
  ∧ (b0 = 0xF0 → 0x90 ≤ b1) ∧ (b0 = 0xF4 → b1 ≤ 0x8F).
Proof.
  intros [H1 H2]%andb_true_iff. apply Z.leb_le in H1, H2.
  revert H1 H2. unfold second_lo, second_hi. split_cmp; lia.
Qed.

Lemma continuation_bounds (b : Z) : continuation b = true → 0x80 ≤ b ≤ 0xBF.
Proof. unfold continuation. intros [H1 H2]%andb_true_iff. lia. Qed.

(** A well-formed sequence is a prefix of its string that decodes the
    same whatever follows it, and that [EncodeRune] writes back. *)
Lemma wf_seq_chunk (c0 : ascii) (r : string) (c : Z) (k : nat) :
  wf_seq (String c0 r) = Some (c, k) →
  ∃ chunk t,
    r = chunk +:+ t
    ∧ S (String.length chunk) = k
    ∧ (2 <= k)%nat
    ∧ utf8.EncodeRune c = String c0 chunk
    ∧ ∀ t', wf_seq (String c0 (chunk +:+ t')) = Some (c, k).
Proof.
  unfold wf_seq. destruct r as [|c1 r1]; [discriminate |]. cbv zeta.
  destruct (_ && _) eqn:H2; [|discriminate].
  pose proof (second_bounds _ _ H2) as (Hb1 & HE0 & HED & HF0 & HF4).
  pose proof (seq_len_bounds (byte_to_Z c0)) as Hb0.
  destruct (seq_len (byte_to_Z c0)) as [|[|[|[|[|n]]]]]; try discriminate.
  - intros [= <- <-]. exists (String c1 EmptyString), r1.
    repeat split; [cbn; lia | |].
    + rewrite EncodeRune_2 by lia. now rewrite !Z_to_byte_to_Z.
    + intros t'. cbn [append]. now rewrite H2.
  - destruct r1 as [|c2 r2]; [discriminate |].
    destruct (continuation (byte_to_Z c2)) eqn:H3; [|discriminate].
    pose proof (continuation_bounds _ H3).
    intros [= <- <-]. exists (String c1 (String c2 EmptyString)), r2.
    repeat split; [cbn; lia | |].
    + rewrite EncodeRune_3 by lia. now rewrite !Z_to_byte_to_Z.
    + intros t'. cbn [append]. now rewrite H2, H3.
  - destruct r1 as [|c2 [|c3 r3]]; try discriminate.
    destruct (continuation (byte_to_Z c2)) eqn:H3; [|discriminate].
    destruct (continuation (byte_to_Z c3)) eqn:H4; [|discriminate].
    pose proof (continuation_bounds _ H3). pose proof (continuation_bounds _ H4).
    intros [= <- <-]. exists (String c1 (String c2 (String c3 EmptyString))), r3.
    repeat split; [cbn; lia | |].
    + rewrite EncodeRune_4 by lia. now rewrite !Z_to_byte_to_Z.
    + intros t'. cbn [append]. now rewrite H2, H3, H4.
Qed.

(** ** What survives a round trip *)

(** The two ways a byte of [0x80] and above is read. *)
Lemma DecodeRune_cases (c0 : ascii) (r : string) :
  utf8.RuneSelf ≤ byte_to_Z c0 →
  utf8.DecodeRuneInString (String c0 r) = (utf8.RuneError, 1%nat)
  ∨ ∃ c k chunk t,
      utf8.DecodeRuneInString (String c0 r) = (c, k)
      ∧ r = chunk +:+ t
      ∧ S (String.length chunk) = k
      ∧ (2 <= k)%nat
      ∧ utf8.EncodeRune c = String c0 chunk
      ∧ ∀ t', utf8.DecodeRuneInString (String c0 (chunk +:+ t')) = (c, k).
Proof.
  intros Hb. rewrite DecodeRune_multibyte by assumption.
  destruct (wf_seq (String c0 r)) as [[c k]|] eqn:Hwf; [right | now left].
  destruct (wf_seq_chunk _ _ _ _ Hwf) as (chunk & t & -> & Hk & Hk2 & Henc & Hst).
  exists c, k, chunk, t. repeat split; try assumption.
  intros t'. rewrite DecodeRune_multibyte by assumption. now rewrite Hst.
Qed.

Lemma DecodeRune_size (c0 : ascii) (r : string) :
  utf8.RuneSelf ≤ byte_to_Z c0 →
  (1 <= snd (utf8.DecodeRuneInString (String c0 r)))%nat.
Proof.
  intros Hb. destruct (DecodeRune_cases c0 r Hb) as [->|(c & k & ? & ? & -> & _ & _ & Hk & _)];
    cbn [snd]; lia.
Qed.

Lemma coerce_loop_fuel (n : nat) : ∀ (s : string) (f1 f2 : nat),
  (String.length s <= n)%nat → (String.length s <= f1)%nat → (String.length s <= f2)%nat →
  coerce_loop f1 s = coerce_loop f2 s.
Proof.
  induction n as [|n IH]; intros [|b r] f1 f2 Hn H1 H2; cbn [String.length] in *;
    try lia; destruct f1 as [|f1], f2 as [|f2]; try lia; try reflexivity.
  cbn [coerce_loop].
  destruct (Z.ltb_spec (byte_to_Z b) utf8.RuneSelf) as [Hlt|Hge].
  - f_equal. apply IH; lia.
  - pose proof (DecodeRune_size b r Hge) as Hsz.
    destruct (utf8.DecodeRuneInString (String b r)) as [c size]. cbn [snd] in Hsz.
    f_equal.
    apply IH; rewrite length_drop_bytes; cbn [String.length]; lia.
Qed.

Lemma coerce_loop_enough (s : string) (f : nat) :
  (String.length s <= f)%nat → coerce_loop f s = coerce_utf8 s.
Proof. intros H. unfold coerce_utf8. now apply (coerce_loop_fuel (String.length s)). Qed.

Lemma coerce_utf8_nil : coerce_utf8 EmptyString = EmptyString.
Proof. reflexivity. Qed.

Lemma coerce_utf8_ascii (b : ascii) (r : string) :
  byte_to_Z b < utf8.RuneSelf →
  coerce_utf8 (String b r) = String b (coerce_utf8 r).
Proof.
  intros Hb. unfold coerce_utf8. cbn [String.length coerce_loop].
  destruct (Z.ltb_spec (byte_to_Z b) utf8.RuneSelf); [reflexivity | lia].
Qed.

Lemma coerce_utf8_rune (b : ascii) (chunk t : string) (c : Z) :
  utf8.RuneSelf ≤ byte_to_Z b →
  utf8.DecodeRuneInString (String b (chunk +:+ t)) = (c, S (String.length chunk)) →
  coerce_utf8 (String b (chunk +:+ t)) = utf8.EncodeRune c +:+ coerce_utf8 t.
Proof.
  intros Hb Hd. unfold coerce_utf8 at 1. cbn [String.length coerce_loop].
  destruct (Z.ltb_spec (byte_to_Z b) utf8.RuneSelf); [lia |].
  rewrite Hd. cbn [drop_bytes]. rewrite drop_bytes_append.
  rewrite coerce_loop_enough; [reflexivity |]. rewrite length_append. lia.
Qed.

Lemma coerce_utf8_invalid (b : ascii) (r : string) :
  utf8.RuneSelf ≤ byte_to_Z b →
  utf8.DecodeRuneInString (String b r) = (utf8.RuneError, 1%nat) →
  coerce_utf8 (String b r) = utf8.EncodeRune utf8.RuneError +:+ coerce_utf8 r.
Proof.
  intros Hb Hd. unfold coerce_utf8 at 1. cbn [String.length coerce_loop].
  destruct (Z.ltb_spec (byte_to_Z b) utf8.RuneSelf); [lia |].
  rewrite Hd. reflexivity.
Qed.

(** ** Decoding what the encoder wrote: strings *)

Lemma unquote_escape_byte (b : ascii) (f : nat) (X : string) :
  byte_to_Z b < utf8.RuneSelf →
  json_dec.unquote_loop (S f) (json_enc.escape_byte b +:+ X)
  = prepend (String b EmptyString) (json_dec.unquote_loop f X).
Proof.
  destruct b as [[] [] [] [] [] [] [] []]; intros H;
    try (vm_compute in H; discriminate H); clear H.
  all: reflexivity.
Qed.

Lemma unquote_replacement (f : nat) (X : string) :
  json_dec.unquote_loop (S f) (String bs "ufffd" +:+ X)
  = prepend (utf8.EncodeRune utf8.RuneError) (json_dec.unquote_loop f X).
Proof. reflexivity. Qed.

Lemma unquote_separator (c : Z) (f : nat) (X : string) :
  c = 0x2028 ∨ c = 0x2029 →
  json_dec.unquote_loop (S f)
    (String bs (String "u" (String "2" (String "0" (String "2"
       (String (json_enc.hex_at (Z.land c 0xF)) X))))))
  = prepend (utf8.EncodeRune c) (json_dec.unquote_loop f X).
Proof. intros [-> | ->]; reflexivity. Qed.

Lemma unquote_rune (b : ascii) (chunk X : string) (c : Z) (f : nat) :
  utf8.RuneSelf ≤ byte_to_Z b →
  utf8.DecodeRuneInString (String b (chunk +:+ X)) = (c, S (String.length chunk)) →
  json_dec.unquote_loop (S f) (String b (chunk +:+ X))
  = prepend (utf8.EncodeRune c) (json_dec.unquote_loop f X).
Proof.
  unfold utf8.RuneSelf. intros Hb Hd. cbn [json_dec.unquote_loop].
  destruct (Z.eqb_spec (byte_to_Z b) 0x22); [lia |].
  destruct (Z.eqb_spec (byte_to_Z b) 0x5C); [lia |].
  destruct (Z.ltb_spec (byte_to_Z b) 0x20); [lia |].
  destruct (Z.ltb_spec (byte_to_Z b) utf8.RuneSelf); [unfold utf8.RuneSelf in *; lia |].
  rewrite Hd. cbn [drop_bytes]. rewrite drop_bytes_append. reflexivity.
Qed.

(** The decoder reads a string the encoder wrote, up to its closing
    quotation mark, as the string with its ill-formed bytes replaced. *)
Lemma unquote_string_loop (n : nat) : ∀ (s : string) (f1 f2 : nat) (rest : string),
  (String.length s <= n)%nat → (String.length s <= f1)%nat → (String.length s < f2)%nat →
  json_dec.unquote_loop f2 (json_enc.string_loop f1 s +:+ String dq rest)
  = Some (coerce_utf8 s, rest).
Proof.
  induction n as [|n IH]; intros [|b r] f1 f2 rest Hn H1 H2; cbn [String.length] in *;
    try lia; destruct f1 as [|f1], f2 as [|f2]; try lia; try reflexivity.
  cbn [json_enc.string_loop].
  destruct (Z.ltb_spec (byte_to_Z b) utf8.RuneSelf) as [Hlt|Hge].
  - rewrite append_assoc, unquote_escape_byte by assumption.
    rewrite IH by lia. now rewrite coerce_utf8_ascii.
  - destruct (DecodeRune_cases b r Hge)
      as [Hd | (c & k & chunk & t & Hd & -> & Hk & Hk2 & Henc & Hst)].
    + rewrite Hd. cbn [andb Z.eqb Nat.eqb utf8.RuneError Pos.eqb drop_bytes].
      rewrite append_assoc, unquote_replacement.
      rewrite IH by lia. now rewrite coerce_utf8_invalid.
    + rewrite Hd. subst k.
      rewrite length_append in *.
      replace ((c =? utf8.RuneError) && (S (String.length chunk) =? 1)%nat) with false
        by (symmetry; apply andb_false_iff; right; apply Nat.eqb_neq; lia).
      cbn [take_bytes drop_bytes]. rewrite take_bytes_append, drop_bytes_append.
      rewrite (coerce_utf8_rune b chunk t c Hge (Hst t)).
      destruct ((c =? 0x2028) || (c =? 0x2029)) eqn:Hsep.
      * rewrite append_assoc. cbn [append].
        rewrite unquote_separator by (apply orb_true_iff in Hsep; lia).
        rewrite IH by lia. reflexivity.
      * rewrite append_assoc. cbn [append].
        rewrite (unquote_rune b chunk _ c f2 Hge) by apply Hst.
        rewrite IH by lia. reflexivity.
Qed.


(** ** Decoding what the encoder wrote: values *)

Lemma escape_byte_length (b : ascii) : (1 <= String.length (json_enc.escape_byte b))%nat.
Proof. unfold json_enc.escape_byte. repeat case_match; cbn; lia. Qed.

Lemma string_loop_length (n : nat) : ∀ (s : string) (f : nat),
  (String.length s <= n)%nat → (String.length s <= f)%nat →
  (String.length s <= String.length (json_enc.string_loop f s))%nat.
Proof.
  induction n as [|n IH]; intros [|b r] f Hn Hf; cbn [String.length] in *;
    try lia; destruct f as [|f]; try lia.
  cbn [json_enc.string_loop].
  destruct (Z.ltb_spec (byte_to_Z b) utf8.RuneSelf) as [Hlt|Hge].
  - rewrite length_append. pose proof (escape_byte_length b).
    specialize (IH r f). lia.
  - destruct (DecodeRune_cases b r Hge)
      as [Hd | (c & k & chunk & t & Hd & -> & Hk & Hk2 & Henc & Hst)].
    + rewrite Hd. cbn [andb Z.eqb Nat.eqb utf8.RuneError Pos.eqb drop_bytes].
      rewrite length_append. cbn [String.length]. specialize (IH r f). lia.
    + rewrite Hd. subst k. rewrite length_append in *.
      replace ((c =? utf8.RuneError) && (S (String.length chunk) =? 1)%nat) with false
        by (symmetry; apply andb_false_iff; right; apply Nat.eqb_neq; lia).
      cbn [take_bytes drop_bytes]. rewrite take_bytes_append, drop_bytes_append.
      specialize (IH t f).
      destruct ((c =? 0x2028) || (c =? 0x2029)) eqn:Hsep.
      * assert (String.length chunk = 2%nat) as Hc.
        { apply orb_true_iff in Hsep as [->%Z.eqb_eq | ->%Z.eqb_eq];
            vm_compute in Henc; injection Henc as _ <-; reflexivity. }
        rewrite length_append. cbn [String.length]. lia.
      * rewrite length_append. cbn [String.length]. lia.
Qed.

Lemma unquote_encode_string (s rest : string) :
  json_dec.unquote (json_enc.string_loop (String.length s) s +:+ String dq rest)
  = Some (coerce_utf8 s, rest).
Proof.
  unfold json_dec.unquote. apply (unquote_string_loop (String.length s)); try lia.
  rewrite length_append. cbn [String.length].
  pose proof (string_loop_length (String.length s) s (String.length s)). lia.
Qed.

Lemma unquote_plain (k rest : string) :
  plain k → json_dec.unquote (k +:+ String dq rest) = Some (k, rest).
Proof.
  intros [Hq Hc]. rewrite <- Hq at 1. rewrite unquote_encode_string. now rewrite Hc.
Qed.

Lemma encode_string_append (s rest : string) :
  encode s +:+ rest
  = String dq (json_enc.string_loop (String.length s) s +:+ String dq rest).
Proof.
  unfold encode, string_Marshaler, json_enc.encode_string. cbn [append].
  now rewrite append_assoc.
Qed.

Lemma key_append (k rest : string) :
  key k +:+ rest = String dq (k +:+ String dq (String ":" rest)).
Proof. unfold key. cbn [append]. now rewrite append_assoc. Qed.

(** The two list parsers, one step unfolded. *)
Lemma parse_elements_unfold (conv : bool) (f : nat) (d : N) (s : string) (acc : list value) :
  json_dec.parse_elements conv (S f) d s acc
  = match json_dec.parse_value conv f d s with
    | None => None
    | Some (x, rest) =>
        match json_dec.skip_space rest with
        | EmptyString => None
        | String c r =>
            if byte_to_Z c =? 0x2C then json_dec.parse_elements conv f d r (acc ++ [x])
            else if byte_to_Z c =? 0x5D then Some (VSlice (acc ++ [x]), r)
            else None
        end
    end.
Proof. reflexivity. Qed.

Lemma parse_members_unfold (conv : bool) (f : nat) (d : N) (s : string)
    (acc : gmap string value) :
  json_dec.parse_members conv (S f) d s acc
  = match json_dec.skip_space s with
    | EmptyString => None
    | String c r =>
        if byte_to_Z c =? 0x22 then
          match json_dec.unquote r with
          | None => None
          | Some (key, rest) =>
              match json_dec.skip_space rest with
              | EmptyString => None
              | String c2 r2 =>
                  if byte_to_Z c2 =? 0x3A then
                    match json_dec.parse_value conv f d r2 with
                    | None => None
                    | Some (x, rest2) =>
                        match json_dec.skip_space rest2 with
                        | EmptyString => None
                        | String c3 r3 =>
                            if byte_to_Z c3 =? 0x2C
                            then json_dec.parse_members conv f d r3 (<[key:=x]> acc)
                            else if byte_to_Z c3 =? 0x7D
                            then Some (VMap (<[key:=x]> acc), r3)
                            else None
                        end
                    end
                  else None
              end
          end
        else None
    end.
Proof. reflexivity. Qed.

Lemma skip_space_cons (c : ascii) (r : string) :
  json_dec.isSpace c = false → json_dec.skip_space (String c r) = String c r.
Proof. intros H. cbn [json_dec.skip_space]. now rewrite H. Qed.

#[local] Ltac decide_bytes :=
  repeat match goal with
    | |- context [Z.eqb (byte_to_Z ?c) ?n] =>
        first [ change (Z.eqb (byte_to_Z c) n) with true
              | change (Z.eqb (byte_to_Z c) n) with false ]
    end;
  cbv iota.

#[local] Ltac next_byte := rewrite skip_space_cons by reflexivity; cbv iota; decide_bytes.

Lemma parses_as_string (s : string) : parses_as 1 0 (encode s) (VString (coerce_utf8 s)).
Proof.
  intros conv [|f] depth rest Hf _; [lia |]. rewrite encode_string_append.
  cbn [json_dec.parse_value]. next_byte.
  now rewrite unquote_encode_string.
Qed.

(** One member of an object, followed by another or by the closing brace. *)
Lemma parse_members_more (conv : bool) (d f : nat) (n depth : N) (k V : string) (x : value)
    (rest : string) (acc : gmap string value) :
  plain k → parses_as d n V x → (d <= f)%nat → (depth + n <= json_dec.maxNestingDepth)%N →
  json_dec.parse_members conv (S f) depth (key k +:+ V +:+ "," +:+ rest) acc
  = json_dec.parse_members conv f depth rest (<[k:=x]> acc).
Proof.
  intros Hk HV Hf Hn. rewrite key_append.
  cbn [json_dec.parse_members]. next_byte.
  rewrite (unquote_plain k _ Hk). next_byte.
  rewrite (HV conv f depth _ Hf Hn). cbn [append]. next_byte. reflexivity.
Qed.

Lemma parse_members_last (conv : bool) (d f : nat) (n depth : N) (k V : string) (x : value)
    (rest : string) (acc : gmap string value) :
  plain k → parses_as d n V x → (d <= f)%nat → (depth + n <= json_dec.maxNestingDepth)%N →
  json_dec.parse_members conv (S f) depth (key k +:+ V +:+ "}" +:+ rest) acc
  = Some (VMap (<[k:=x]> acc), rest).
Proof.
  intros Hk HV Hf Hn. rewrite key_append.
  cbn [json_dec.parse_members]. next_byte.
  rewrite (unquote_plain k _ Hk). next_byte.
  rewrite (HV conv f depth _ Hf Hn). cbn [append]. next_byte. reflexivity.
Qed.

(** An object whose first member follows the opening brace directly. *)
Lemma parse_object (conv : bool) (f : nat) (depth : N) (k Ms : string) :
  (depth < json_dec.maxNestingDepth)%N →
  json_dec.parse_value conv (S f) depth ("{" +:+ key k +:+ Ms)
  = json_dec.parse_members conv f (N.succ depth) (key k +:+ Ms) ∅.
Proof.
  intros Hd. cbn [append]. cbn [json_dec.parse_value]. next_byte.
  rewrite (proj2 (N.ltb_lt _ _) Hd).
  rewrite key_append. next_byte. reflexivity.
Qed.

(** ** The encoder writes well-formed UTF-8 *)

Lemma stable_nil : utf8_stable EmptyString.
Proof. intros X. reflexivity. Qed.

Lemma stable_app (a b : string) : utf8_stable a → utf8_stable b → utf8_stable (a +:+ b).
Proof. intros Ha Hb X. now rewrite append_assoc, Ha, Hb, append_assoc. Qed.

Lemma stable_ascii (a : string) : is_ascii a = true → utf8_stable a.
Proof.
  induction a as [|b a IH]; intros H X; [reflexivity |].
  cbn [is_ascii] in H. apply andb_true_iff in H as [Hb Ha]. apply Z.ltb_lt in Hb.
  cbn [append]. rewrite coerce_utf8_ascii by assumption. now rewrite IH.
Qed.

Lemma escape_byte_ascii (b : ascii) :
  byte_to_Z b < utf8.RuneSelf → is_ascii (json_enc.escape_byte b) = true.
Proof.
  destruct b as [[] [] [] [] [] [] [] []]; intros H;
    try (vm_compute in H; discriminate H); reflexivity.
Qed.

Lemma stable_string_loop (n : nat) : ∀ (s : string) (f : nat),
  (String.length s <= n)%nat → (String.length s <= f)%nat →
  utf8_stable (json_enc.string_loop f s).
Proof.
  induction n as [|n IH]; intros [|b r] f Hn Hf; cbn [String.length] in *;
    try lia; destruct f as [|f]; try lia; try apply stable_nil.
  cbn [json_enc.string_loop].
  destruct (Z.ltb_spec (byte_to_Z b) utf8.RuneSelf) as [Hlt|Hge].
  - apply stable_app; [apply stable_ascii, escape_byte_ascii; assumption | apply IH; lia].
  - destruct (DecodeRune_cases b r Hge)
      as [Hd | (c & k & chunk & t & Hd & -> & Hk & Hk2 & Henc & Hst)].
    + rewrite Hd. cbn [andb Z.eqb Nat.eqb utf8.RuneError Pos.eqb drop_bytes].
      apply stable_app; [now apply stable_ascii | apply IH; lia].
    + rewrite Hd. subst k. rewrite length_append in *.
      replace ((c =? utf8.RuneError) && (S (String.length chunk) =? 1)%nat) with false
        by (symmetry; apply andb_false_iff; right; apply Nat.eqb_neq; lia).
      cbn [take_bytes drop_bytes]. rewrite take_bytes_append, drop_bytes_append.
      destruct ((c =? 0x2028) || (c =? 0x2029)) eqn:Hsep.
      * apply stable_app; [now apply stable_ascii |].
        change (utf8_stable (String (json_enc.hex_at (Z.land c 0xF)) EmptyString
                             +:+ json_enc.string_loop f t)).
        apply stable_app; [|apply IH; lia].
        apply stable_ascii.
        apply orb_true_iff in Hsep as [->%Z.eqb_eq | ->%Z.eqb_eq]; reflexivity.
      * apply stable_app; [|apply IH; lia].
        intros X. cbn [append].
        rewrite (coerce_utf8_rune b chunk X c Hge (Hst X)). now rewrite Henc.
Qed.

Lemma stable_encode_string (s : string) : utf8_stable (encode s).
Proof.
  unfold encode, string_Marshaler, json_enc.encode_string.
  change (utf8_stable (String dq EmptyString
            +:+ json_enc.string_loop (String.length s) s +:+ String dq EmptyString)).
  apply stable_app; [now apply stable_ascii |].
  apply stable_app; [|now apply stable_ascii].
  apply (stable_string_loop (String.length s)); lia.
Qed.

Lemma stable_key (k : string) : is_ascii k = true → utf8_stable (key k).
Proof.
  intros Hk. unfold key.
  change (utf8_stable (String dq EmptyString +:+ k +:+ String dq ":")).
  apply stable_app; [now apply stable_ascii |].
  apply stable_app; now apply stable_ascii.
Qed.

Create HintDb stable discriminated.

#[local] Hint Resolve stable_nil stable_encode_string : stable.
#[local] Hint Extern 1 (utf8_stable (key _)) => apply stable_key; reflexivity : stable.
#[local] Hint Extern 2 (utf8_stable (String _ _)) => apply stable_ascii; reflexivity : stable.

(** Splits an encoding into its pieces and closes each from the hints. *)
#[local] Ltac stable_pieces :=
  repeat (apply stable_app; [solve [auto with stable] |]); auto with stable.

Lemma stable_encode_identifier (i : identifier) : utf8_stable (encode i).
Proof. unfold encode at 1, identifier_Marshaler. stable_pieces. Qed.

#[local] Hint Resolve stable_encode_identifier : stable.

Lemma stable_encode_elements (l : list identifier) : utf8_stable (encode_elements l).
Proof.
  induction l as [|i [|j l] IH].
  - apply stable_nil.
  - apply stable_encode_identifier.
  - change (utf8_stable (encode i +:+ "," +:+ encode_elements (j :: l))).
    stable_pieces.
Qed.

#[local] Hint Resolve stable_encode_elements : stable.

Lemma stable_encode_slice (l : list identifier) : utf8_stable (encode l).
Proof. unfold encode at 1, slice_Marshaler. stable_pieces. Qed.

#[local] Hint Resolve stable_encode_slice : stable.

Lemma stable_encode_payload (p : payload) : utf8_stable (encode p).
Proof. unfold encode at 1, payload_Marshaler. stable_pieces. Qed.

(** The encoding of a payload is well-formed UTF-8: a round trip
    leaves it as it is. *)
Lemma coerce_encode_payload (p : payload) : coerce_utf8 (encode p) = encode p.
Proof.
  rewrite <- (append_nil_r (encode p)) at 1.
  rewrite stable_encode_payload. rewrite coerce_utf8_nil. apply append_nil_r.
Qed.

(** ** Decoding what the encoder wrote: the mapper's types *)

#[local] Ltac plain_key := split; vm_compute; reflexivity.

(** Closes a bound on the fuel or on the nesting. *)
#[local] Ltac within := unfold json_dec.maxNestingDepth in *; lia.

#[local] Ltac open_ok := rewrite (proj2 (N.ltb_lt _ _)) by within.

Lemma parses_as_identifier (i : identifier) :
  parses_as 4 1 (encode i) (value_of_identifier i).
Proof.
  intros conv [|[|[|[|f]]]] depth rest Hf Hn; try lia.
  unfold encode at 1, identifier_Marshaler. rewrite !append_assoc.
  rewrite parse_object by within.
  rewrite (parse_members_more conv 1 _ 0 _ "authority" _ _ _ _
             ltac:(plain_key) (parses_as_string _)) by within.
  rewrite (parse_members_last conv 1 _ 0 _ "identifierValue" _ _ _ _
             ltac:(plain_key) (parses_as_string _)) by within.
  reflexivity.
Qed.

(** The elements of a slice, one unit of fuel each on top of what an
    element takes. *)
Lemma parse_elements_encoded (l : list identifier) :
  ∀ (conv : bool) (x : identifier) (f : nat) (depth : N) (rest : string) (acc : list value),
    (length l + 5 <= f)%nat → (depth + 1 <= json_dec.maxNestingDepth)%N →
    json_dec.parse_elements conv f depth (encode_elements (x :: l) +:+ "]" +:+ rest) acc
    = Some (VSlice (acc ++ map value_of_identifier (x :: l)), rest).
Proof.
  induction l as [|y l IH]; intros conv x [|f] depth rest acc Hf Hn; cbn [length] in Hf;
    try lia.
  - cbn [encode_elements]. rewrite parse_elements_unfold.
    rewrite (parses_as_identifier x conv f depth) by within.
    cbn [append]. next_byte. reflexivity.
  - change (encode_elements (x :: y :: l))
      with (encode x +:+ "," +:+ encode_elements (y :: l)).
    rewrite parse_elements_unfold. rewrite !append_assoc.
    rewrite (parses_as_identifier x conv f depth) by within.
    cbn [append]. next_byte.
    change (String "]" rest) with ("]" +:+ rest).
    rewrite IH by within. cbn [map]. now rewrite <- app_assoc.
Qed.

Lemma parses_as_identifiers (l : list identifier) :
  parses_as (length l + 6) 2 (encode l) (VSlice (map value_of_identifier l)).
Proof.
  intros conv [|f] depth rest Hf Hn; [lia |].
  unfold encode at 1, slice_Marshaler. rewrite !append_assoc.
  destruct l as [|x l].
  - cbn [append encode_elements]. cbn [json_dec.parse_value]. next_byte. open_ok.
    next_byte. reflexivity.
  - cbn [length] in Hf.
    pose proof (parse_elements_encoded l conv x f (N.succ depth) rest []
                  ltac:(lia) ltac:(within)) as H.
    assert (Hopen : ∃ X, encode_elements (x :: l) +:+ "]" +:+ rest = String "{" X).
    { destruct l; cbn [encode_elements]; unfold encode at 1, identifier_Marshaler;
        cbn [append]; eauto. }
    destruct Hopen as [X HX].
    change ("[" +:+ encode_elements (x :: l) +:+ "]" +:+ rest)
      with (String "[" (encode_elements (x :: l) +:+ "]" +:+ rest)).
    rewrite HX in *.
    cbn [json_dec.parse_value]. next_byte. open_ok. next_byte. exact H.
Qed.

Lemma parses_as_payload (p : payload) :
  parses_as (length (Identifiers p) + 13) 3 (encode p) (value_of_payload p).
Proof.
  intros conv f depth rest Hf Hn. do 7 (destruct f as [|f]; [lia |]).
  unfold encode at 1, payload_Marshaler.
  rewrite !append_assoc. rewrite parse_object by within.
  rewrite (parse_members_more conv 1 _ 0 _ "uuid" _ _ _ _
             ltac:(plain_key) (parses_as_string _)) by within.
  rewrite (parse_members_more conv _ _ 2 _ "identifiers" _ _ _ _
             ltac:(plain_key) (parses_as_identifiers _)) by within.
  rewrite (parse_members_more conv 1 _ 0 _ "publishedDate" _ _ _ _
             ltac:(plain_key) (parses_as_string _)) by within.
  rewrite (parse_members_more conv 1 _ 0 _ "mediaType" _ _ _ _
             ltac:(plain_key) (parses_as_string _)) by within.
  rewrite (parse_members_more conv 1 _ 0 _ "publishReference" _ _ _ _
             ltac:(plain_key) (parses_as_string _)) by within.
  rewrite (parse_members_last conv 1 _ 0 _ "lastModified" _ _ _ _
             ltac:(plain_key) (parses_as_string _)) by within.
  reflexivity.
Qed.

Lemma parses_as_event (e : publicationEvent) : parses_as 5 1 (encode e) (value_of_event e).
Proof.
  intros conv f depth rest Hf Hn. do 5 (destruct f as [|f]; [lia |]).
  unfold encode at 1, publicationEvent_Marshaler.
  rewrite !append_assoc. rewrite parse_object by within.
  rewrite (parse_members_more conv 1 _ 0 _ "contentUri" _ _ _ _
             ltac:(plain_key) (parses_as_string _)) by within.
  rewrite (parse_members_more conv 1 _ 0 _ "payload" _ _ _ _
             ltac:(plain_key) (parses_as_string _)) by within.
  rewrite (parse_members_last conv 1 _ 0 _ "lastModified" _ _ _ _
             ltac:(plain_key) (parses_as_string _)) by within.
  reflexivity.
Qed.

(** A whole document: the value, then nothing. *)
Lemma Unmarshal_value_parses (conv : bool) (d : nat) (n : N) (V : string) (x : value) :
  parses_as d n V x → (d <= json_dec.fuel_for V)%nat → (n <= json_dec.maxNestingDepth)%N →
  json_dec.Unmarshal_value conv V = inr x.
Proof.
  intros HV Hd Hn. unfold json_dec.Unmarshal_value.
  pose proof (HV conv (json_dec.fuel_for V) 0%N EmptyString Hd Hn) as H.
  rewrite append_nil_r in H. now rewrite H.
Qed.

Lemma fuel_for_prefix (a b : string) :
  (2 + 2 * String.length a <= json_dec.fuel_for (a +:+ b))%nat.
Proof. unfold json_dec.fuel_for. rewrite length_append. lia. Qed.

Lemma encode_elements_length (l : list identifier) :
  (length l <= String.length (encode_elements l))%nat.
Proof.
  induction l as [|x [|y l] IH]; [cbn; lia | cbn; lia |].
  change (encode_elements (x :: y :: l))
    with (encode x +:+ "," +:+ encode_elements (y :: l)).
  rewrite !length_append. cbn [length String.length] in *. lia.
Qed.

Lemma encode_slice_length (l : list identifier) :
  (length l <= String.length (encode l))%nat.
Proof.
  unfold encode at 1, slice_Marshaler. rewrite !length_append.
  pose proof (encode_elements_length l). lia.
Qed.

Lemma identifiers_of_values (l : list identifier) :
  mapM identifier_of_value (map value_of_identifier l) = Some (map coerce_identifier l).
Proof.
  induction l as [|x l IH]; [reflexivity |].
  cbn [map mapM]. rewrite IH. reflexivity.
Qed.

#[local] Ltac read_members :=
  repeat (rewrite ?lookup_insert_eq; rewrite ?lookup_insert_ne by done;
          cbn [mbind option_bind mret option_ret]).

(** Reading back a serialized event gives the event, up to ill-formed
    bytes in its strings. *)
Lemma Unmarshal_encode_event (e : publicationEvent) :
  Unmarshal_publicationEvent (encode e) = Some (coerce_event e).
Proof.
  unfold Unmarshal_publicationEvent.
  rewrite (Unmarshal_value_parses false 5 1 _ _ (parses_as_event e)).
  - unfold value_of_event, publicationEvent_of_value, field_string. now read_members.
  - unfold encode, publicationEvent_Marshaler.
    etransitivity; [|apply (fuel_for_prefix ("{" +:+ key "contentUri"))].
    cbn. lia.
  - within.
Qed.

(** And so for a payload. *)
Lemma Unmarshal_encode_payload (p : payload) :
  Unmarshal_payload (encode p) = Some (coerce_payload p).
Proof.
  unfold Unmarshal_payload.
  rewrite (Unmarshal_value_parses false _ 3 _ _ (parses_as_payload p)).
  - unfold value_of_payload, payload_of_value, field_string, field_identifiers.
    read_members. rewrite identifiers_of_values. now read_members.
  - unfold json_dec.fuel_for, encode at 1, payload_Marshaler.
    rewrite !length_append.
    pose proof (encode_slice_length (Identifiers p)).
    change (String.length "{") with 1%nat.
    change (String.length (key "uuid")) with 7%nat.
    change (String.length (key "identifiers")) with 14%nat.
    lia.
  - within.
Qed.

(** ** The round trip of the mapper's output *)

Lemma prefix_append (a X : string) : String.prefix a (a +:+ X) = true.
Proof.
  induction a as [|c a IH]; cbn [append String.prefix]; [now destruct X |].
  destruct (ascii_dec c c); [exact IH | congruence].
Qed.

Lemma TrimPrefix_append (a X : string) : gostrings.TrimPrefix (a +:+ X) a = X.
Proof.
  unfold gostrings.TrimPrefix, gostrings.HasPrefix.
  rewrite prefix_append. apply drop_bytes_append.
Qed.


(** ** The loops never run out of fuel *)

Lemma string_loop_fuel (n : nat) : ∀ (s : string) (f1 f2 : nat),
  (String.length s <= n)%nat → (String.length s <= f1)%nat → (String.length s <= f2)%nat →
  json_enc.string_loop f1 s = json_enc.string_loop f2 s.
Proof.
  induction n as [|n IH]; intros [|b r] f1 f2 Hn H1 H2; cbn [String.length] in *;
    try lia; destruct f1 as [|f1], f2 as [|f2]; try lia; try reflexivity.
  cbn [json_enc.string_loop].
  destruct (Z.ltb_spec (byte_to_Z b) utf8.RuneSelf) as [Hlt|Hge].
  - f_equal. apply IH; lia.
  - pose proof (DecodeRune_size b r Hge) as Hsz.
    destruct (utf8.DecodeRuneInString (String b r)) as [c size]. cbn [snd] in Hsz.
    assert (Hd : json_enc.string_loop f1 (drop_bytes size (String b r))
                 = json_enc.string_loop f2 (drop_bytes size (String b r)))
      by (apply IH; rewrite length_drop_bytes; cbn [String.length]; lia).
    now rewrite Hd.
Qed.

Lemma unquote_loop_fuel (n : nat) : ∀ (s : string) (f1 f2 : nat),
  (String.length s <= n)%nat → (String.length s <= f1)%nat → (String.length s <= f2)%nat →
  json_dec.unquote_loop f1 s = json_dec.unquote_loop f2 s.
Proof.
  induction n as [|n IH]; intros [|b r] f1 f2 Hn H1 H2; cbn [String.length] in *;
    try lia; destruct f1 as [|f1], f2 as [|f2]; try lia; try reflexivity.
  assert (Hstep : ∀ rest, (String.length rest <= String.length r)%nat →
            json_dec.unquote_loop f1 rest = json_dec.unquote_loop f2 rest)
    by (intros rest Hrest; apply IH; lia).
  assert (Hdrop : ∀ k, (String.length (drop_bytes (S k) (String b r)) <= String.length r)%nat)
    by (intros k; rewrite length_drop_bytes; cbn [String.length]; lia).
  cbn [json_dec.unquote_loop].
  destruct (byte_to_Z b =? 34); [reflexivity |].
  destruct (byte_to_Z b =? 92).
  - destruct r as [|e r']; [reflexivity |].
    assert (Hr' : json_dec.unquote_loop f1 r' = json_dec.unquote_loop f2 r')
      by (apply Hstep; cbn [String.length]; lia).
    repeat (match goal with |- (if ?c then _ else _) = _ => destruct c end;
            [now rewrite Hr' |]).
    destruct (byte_to_Z e =? 117); [|reflexivity].
    destruct (json_dec.getu4 _ <? 0); [reflexivity |].
    assert (H6 : json_dec.unquote_loop f1 (drop_bytes 6 (String b (String e r')))
                 = json_dec.unquote_loop f2 (drop_bytes 6 (String b (String e r'))))
      by (apply Hstep, Hdrop).
    assert (H12 : json_dec.unquote_loop f1
                    (drop_bytes 6 (drop_bytes 6 (String b (String e r'))))
                  = json_dec.unquote_loop f2
                      (drop_bytes 6 (drop_bytes 6 (String b (String e r'))))).
    { apply Hstep. rewrite length_drop_bytes. pose proof (Hdrop 5%nat). lia. }
    rewrite H6, H12. reflexivity.
  - destruct (byte_to_Z b <? 32); [reflexivity |].
    destruct (Z.ltb_spec (byte_to_Z b) utf8.RuneSelf) as [Hlt|Hge].
    + now rewrite (Hstep r).
    + pose proof (DecodeRune_size b r Hge) as Hsz.
      destruct (utf8.DecodeRuneInString (String b r)) as [c [|size]]; cbn [snd] in Hsz;
        [lia |].
      now rewrite (Hstep _ (Hdrop size)).
Qed.

(** ** The parser never runs out of fuel *)

Lemma skip_space_length (s : string) :
  (String.length (json_dec.skip_space s) <= String.length s)%nat.
Proof.
  induction s as [|c s IH]; cbn [json_dec.skip_space String.length]; [lia |].
  destruct (json_dec.isSpace c); cbn [String.length]; lia.
Qed.

Lemma skip_space_cons_length (s : string) (c : ascii) (r : string) :
  json_dec.skip_space s = String c r → (S (String.length r) <= String.length s)%nat.
Proof.
  intros H. pose proof (skip_space_length s) as Hl. rewrite H in Hl. exact Hl.
Qed.

Lemma length_drop_bytes_le (k : nat) (s : string) :
  (String.length (drop_bytes k s) <= String.length s)%nat.
Proof. rewrite length_drop_bytes. lia. Qed.

Lemma unquote_loop_consumes (f : nat) : ∀ (s t rest : string),
  json_dec.unquote_loop f s = Some (t, rest) → (String.length rest < String.length s)%nat.
Proof.
  induction f as [|f IH]; intros s t rest; [discriminate |].
  assert (Hstep : ∀ out rest0,
            (String.length rest0 <= String.length s)%nat →
            match json_dec.unquote_loop f rest0 with
            | Some (t0, rest') => Some (out +:+ t0, rest')
            | None => None
            end = Some (t, rest) → (String.length rest < String.length s)%nat).
  { intros out rest0 Hle H.
    destruct (json_dec.unquote_loop f rest0) as [[t0 rest']|] eqn:E; [|discriminate].
    injection H as _ <-. apply IH in E. lia. }
  destruct s as [|b r]; [discriminate |].
  assert (Hr : (String.length r <= String.length (String b r))%nat)
    by (cbn [String.length]; lia).
  cbn [json_dec.unquote_loop].
  destruct (byte_to_Z b =? 34).
  { intros [= _ <-]. cbn [String.length]. lia. }
  destruct (byte_to_Z b =? 92).
  - destruct r as [|e r']; [discriminate |].
    assert (Hr' : (String.length r' <= String.length (String b (String e r')))%nat)
      by (cbn [String.length]; lia).
    repeat (match goal with |- (if ?c then _ else _) = _ → _ => destruct c end;
            [now apply Hstep |]).
    destruct (byte_to_Z e =? 117); [|discriminate].
    destruct (json_dec.getu4 _ <? 0); [discriminate |].
    destruct (utf16.IsSurrogate _); [destruct (negb _) |]; apply Hstep;
      repeat (etransitivity; [apply length_drop_bytes_le |]); lia.
  - destruct (byte_to_Z b <? 32); [discriminate |].
    destruct (byte_to_Z b <? utf8.RuneSelf); [now apply Hstep |].
    destruct (utf8.DecodeRuneInString (String b r)) as [c size].
    apply Hstep, length_drop_bytes_le.
Qed.

Lemma unquote_consumes (s t rest : string) :
  json_dec.unquote s = Some (t, rest) → (String.length rest < String.length s)%nat.
Proof. apply unquote_loop_consumes. Qed.

Lemma strip_prefix_length (p s rest : string) :
  json_dec.strip_prefix p s = Some rest → (String.length rest <= String.length s)%nat.
Proof.
  unfold json_dec.strip_prefix. destruct (String.prefix p s); [|discriminate].
  intros [= <-]. apply length_drop_bytes_le.
Qed.

Lemma span_digits_length (s : string) :
  (String.length (snd (json_dec.span_digits s)) <= String.length s)%nat.
Proof.
  induction s as [|c s IH]; cbn [json_dec.span_digits]; [cbn; lia |].
  destruct (json_dec.isDigit c); [|cbn; lia].
  destruct (json_dec.span_digits s) as [d rest]. cbn [snd String.length] in *. lia.
Qed.

Lemma scan_number_consumes (s lit rest : string) :
  json_dec.scan_number s = Some (lit, rest) → (String.length rest < String.length s)%nat.
Proof.
  unfold json_dec.scan_number.
  set (signed := match s with
                 | EmptyString => (EmptyString, s)
                 | String c r => if byte_to_Z c =? 45 then ("-", r) else (EmptyString, s)
                 end).
  assert (Hs1 : (String.length (snd signed) <= String.length s)%nat).
  { subst signed. destruct s as [|c r]; [cbn; lia |].
    destruct (byte_to_Z c =? 45); cbn [snd String.length]; lia. }
  destruct signed as [sign s1]. cbn [snd] in Hs1.
  set (int_part := match s1 with
                   | EmptyString => None
                   | String c r =>
                       if byte_to_Z c =? 48 then Some ("0", r)
                       else if json_dec.isDigit c then Some (json_dec.span_digits s1)
                       else None
                   end).
  assert (Hi : ∀ i s2, int_part = Some (i, s2) → (String.length s2 < String.length s1)%nat).
  { subst int_part. intros i s2. destruct s1 as [|c r]; [discriminate |].
    destruct (byte_to_Z c =? 48); [intros [= _ <-]; cbn; lia |].
    destruct (json_dec.isDigit c) eqn:Hc; [|discriminate].
    cbn [json_dec.span_digits]. rewrite Hc.
    pose proof (span_digits_length r) as Hr.
    destruct (json_dec.span_digits r) as [d rest']. cbn [snd] in Hr.
    intros [= _ <-]. cbn [String.length]. lia. }
  destruct int_part as [[i s2]|]; [|discriminate].
  specialize (Hi i s2 eq_refl).
  set (frac_part := match s2 with
                    | EmptyString => Some (EmptyString, s2)
                    | String c r =>
                        if byte_to_Z c =? 46 then
                          match json_dec.span_digits r with
                          | (EmptyString, _) => None
                          | (d, s3) => Some (String c d, s3)
                          end
                        else Some (EmptyString, s2)
                    end).
  assert (Hf : ∀ f s3, frac_part = Some (f, s3) → (String.length s3 <= String.length s2)%nat).
  { subst frac_part. intros f s3. destruct s2 as [|c r]; [intros [= _ <-]; lia |].
    destruct (byte_to_Z c =? 46); [|intros [= _ <-]; lia].
    pose proof (span_digits_length r) as Hr.
    destruct (json_dec.span_digits r) as [[|x d] rest']; [discriminate |].
    cbn [snd] in Hr. intros [= _ <-]. cbn [String.length]. lia. }
  destruct frac_part as [[f s3]|]; [|discriminate].
  specialize (Hf f s3 eq_refl).
  match goal with
  | |- match ?e with _ => _ end = _ → _ => set (exp_part := e)
  end.
  assert (He : ∀ e s4, exp_part = Some (e, s4) → (String.length s4 <= String.length s3)%nat).
  { subst exp_part. intros e s4. destruct s3 as [|c r]; [intros [= _ <-]; lia |].
    destruct ((byte_to_Z c =? 101) || (byte_to_Z c =? 69)); [|intros [= _ <-]; lia].
    match goal with
    | |- (let '(_, _) := ?x in _) = _ → _ => set (signed_exp := x)
    end.
    assert (Hr1 : (String.length (snd signed_exp) <= String.length r)%nat).
    { subst signed_exp. destruct r as [|c' r']; [cbn; lia |].
      destruct (_ || _); cbn [snd String.length]; lia. }
    destruct signed_exp as [esign r1]. cbn [snd] in Hr1.
    pose proof (span_digits_length r1) as Hd.
    destruct (json_dec.span_digits r1) as [[|x d] rest']; [discriminate |].
    cbn [snd] in Hd. intros [= _ <-]. cbn [String.length]. lia. }
  destruct exp_part as [[e s4]|]; [|discriminate].
  specialize (He e s4 eq_refl).
  intros [= _ <-]. lia.
Qed.

(** Every value, list of elements and list of members takes bytes. *)
Lemma parse_consumes (conv : bool) (f : nat) :
  (∀ depth s x rest, json_dec.parse_value conv f depth s = Some (x, rest) →
     (String.length rest < String.length s)%nat)
  ∧ (∀ depth s acc x rest, json_dec.parse_elements conv f depth s acc = Some (x, rest) →
     (String.length rest < String.length s)%nat)
  ∧ (∀ depth s acc x rest, json_dec.parse_members conv f depth s acc = Some (x, rest) →
     (String.length rest < String.length s)%nat).
Proof.
  induction f as [|f (IHv & IHe & IHm)]; [repeat split; intros; discriminate |].
  repeat split.
  - intros depth s x rest. cbn [json_dec.parse_value].
    destruct (json_dec.skip_space s) as [|c r] eqn:Hs; [discriminate |].
    apply skip_space_cons_length in Hs.
    destruct (byte_to_Z c =? 123).
    { destruct (depth <? json_dec.maxNestingDepth)%N; [|discriminate].
      destruct (json_dec.skip_space r) as [|c' r'] eqn:Hr; [discriminate |].
      apply skip_space_cons_length in Hr.
      destruct (byte_to_Z c' =? 125); [intros [= _ <-]; lia |].
      intros H%IHm. lia. }
    destruct (byte_to_Z c =? 91).
    { destruct (depth <? json_dec.maxNestingDepth)%N; [|discriminate].
      destruct (json_dec.skip_space r) as [|c' r'] eqn:Hr; [discriminate |].
      apply skip_space_cons_length in Hr.
      destruct (byte_to_Z c' =? 93); [intros [= _ <-]; lia |].
      intros H%IHe. lia. }
    destruct (byte_to_Z c =? 34).
    { destruct (json_dec.unquote r) as [[t rest0]|] eqn:Hu; [|discriminate].
      apply unquote_consumes in Hu. intros [= _ <-]. lia. }
    repeat (match goal with |- (if ?b then _ else _) = _ → _ => destruct b end;
            [match goal with
             | |- match json_dec.strip_prefix ?p ?r with _ => _ end = _ → _ =>
                 destruct (json_dec.strip_prefix p r) as [rest0|] eqn:Hp; [|discriminate];
                 apply strip_prefix_length in Hp; intros [= _ <-]; lia
             end |]).
    destruct (json_dec.scan_number (String c r)) as [[lit rest0]|] eqn:Hn; [|discriminate].
    apply scan_number_consumes in Hn. cbn [String.length] in Hn.
    destruct (json_dec.convertNumber conv lit); [|discriminate].
    intros [= _ <-]. lia.
  - intros depth s acc x rest. cbn [json_dec.parse_elements].
    destruct (json_dec.parse_value conv f depth s) as [[y rest0]|] eqn:Hv; [|discriminate].
    apply IHv in Hv.
    destruct (json_dec.skip_space rest0) as [|c r] eqn:Hs; [discriminate |].
    apply skip_space_cons_length in Hs.
    destruct (byte_to_Z c =? 44); [intros H%IHe; lia |].
    destruct (byte_to_Z c =? 93); [|discriminate].
    intros [= _ <-]. lia.
  - intros depth s acc x rest. cbn [json_dec.parse_members].
    destruct (json_dec.skip_space s) as [|c r] eqn:Hs; [discriminate |].
    apply skip_space_cons_length in Hs.
    destruct (byte_to_Z c =? 34); [|discriminate].
    destruct (json_dec.unquote r) as [[k rest0]|] eqn:Hu; [|discriminate].
    apply unquote_consumes in Hu.
    destruct (json_dec.skip_space rest0) as [|c2 r2] eqn:Hs2; [discriminate |].
    apply skip_space_cons_length in Hs2.
    destruct (byte_to_Z c2 =? 58); [|discriminate].
    destruct (json_dec.parse_value conv f depth r2) as [[y rest2]|] eqn:Hv; [|discriminate].
    apply IHv in Hv.
    destruct (json_dec.skip_space rest2) as [|c3 r3] eqn:Hs3; [discriminate |].
    apply skip_space_cons_length in Hs3.
    destruct (byte_to_Z c3 =? 44); [intros H%IHm; lia |].
    destruct (byte_to_Z c3 =? 125); [|discriminate].
    intros [= _ <-]. lia.
Qed.

(** With twice the length of the input and two more, one more unit of
    fuel changes nothing. *)
Lemma parse_fuel_step (conv : bool) (f : nat) :
  (∀ depth s, (2 * String.length s + 1 <= f)%nat →
     json_dec.parse_value conv (S f) depth s = json_dec.parse_value conv f depth s)
  ∧ (∀ depth s acc, (2 * String.length s + 2 <= f)%nat →
     json_dec.parse_elements conv (S f) depth s acc = json_dec.parse_elements conv f depth s acc)
  ∧ (∀ depth s acc, (2 * String.length s + 2 <= f)%nat →
     json_dec.parse_members conv (S f) depth s acc = json_dec.parse_members conv f depth s acc).
Proof.
  induction f as [|f (IHv & IHe & IHm)]; [repeat split; intros; lia |].
  repeat split.
  - intros depth s Hf. cbn [json_dec.parse_value].
    destruct (json_dec.skip_space s) as [|c r] eqn:Hs; [reflexivity |].
    apply skip_space_cons_length in Hs.
    rewrite (IHm (N.succ depth) r ∅), (IHe (N.succ depth) r []) by lia. reflexivity.
  - intros depth s acc Hf.
    rewrite (parse_elements_unfold conv (S f)), (parse_elements_unfold conv f).
    rewrite IHv by lia.
    destruct (json_dec.parse_value conv f depth s) as [[x rest]|] eqn:Hv; [|reflexivity].
    apply (proj1 (parse_consumes conv f)) in Hv.
    destruct (json_dec.skip_space rest) as [|c r] eqn:Hs; [reflexivity |].
    apply skip_space_cons_length in Hs.
    rewrite IHe by lia. reflexivity.
  - intros depth s acc Hf.
    rewrite (parse_members_unfold conv (S f)), (parse_members_unfold conv f).
    destruct (json_dec.skip_space s) as [|c r] eqn:Hs; [reflexivity |].
    apply skip_space_cons_length in Hs.
    destruct (byte_to_Z c =? 34); [|reflexivity].
    destruct (json_dec.unquote r) as [[k rest0]|] eqn:Hu; [|reflexivity].
    apply unquote_consumes in Hu.
    destruct (json_dec.skip_space rest0) as [|c2 r2] eqn:Hs2; [reflexivity |].
    apply skip_space_cons_length in Hs2.
    destruct (byte_to_Z c2 =? 58); [|reflexivity].
    rewrite IHv by lia.
    destruct (json_dec.parse_value conv f depth r2) as [[y rest2]|] eqn:Hv; [|reflexivity].
    apply (proj1 (parse_consumes conv f)) in Hv.
    destruct (json_dec.skip_space rest2) as [|c3 r3] eqn:Hs3; [reflexivity |].
    apply skip_space_cons_length in Hs3.
    rewrite IHm by lia. reflexivity.
Qed.

(** The fuel [Unmarshal] and [Decode] give the parser is enough: more
    of it gives the same result. *)
Lemma parse_value_enough (conv : bool) (depth : N) (data : string) (f : nat) :
  (json_dec.fuel_for data <= f)%nat →
  json_dec.parse_value conv f depth data
  = json_dec.parse_value conv (json_dec.fuel_for data) depth data.
Proof.
  unfold json_dec.fuel_for. induction 1 as [|f Hf IH]; [reflexivity |].
  rewrite <- IH. apply (proj1 (parse_fuel_step conv f)). lia.
Qed.

(** ** The scenario of the specification *)

(** C1: the record with uuid abc-1, id 999, updated_at
    2020-01-01T00:00:00Z and name clip.mp4, mapped with publish
    reference req-1 and timestamp ts-1, gives the serialized event whose
    contentUri is the base URI followed by abc-1, whose lastModified is
    ts-1 and whose payload string decodes to the payload of the
    scenario (media type video/mp4, the one Brightcove identifier 999). *)
Theorem scenario_abc1 (v : videoMapper) :
  json_dec.Unmarshal_map body1 = inr record1
  ∧ mapBrightcoveVideo v record1 "req-1" "ts-1" = ([], Returns (Ok (encode event1)))
  ∧ Unmarshal_publicationEvent (encode event1) = Some event1
  ∧ event.ContentUri event1 = "http://video-mapper-iw-uk-p.svc.ft.com/video/model/abc-1"
  ∧ event.LastModified event1 = "ts-1"
  ∧ Unmarshal_payload (event.Payload event1) = Some payload1.
Proof. repeat split; vm_compute; reflexivity. Qed.

(** ** Missing and ill-typed members *)

(** C2 (the code departs from it): a record without uuid, id or
    updated_at is not rejected with an error naming the member; the
    unchecked assertion on the absent member panics. *)
Theorem absent_required_member_panics (v : videoMapper) :
  mapBrightcoveVideo v (record_without "uuid") "req-1" "ts-1"
    = ([], Panics (TypeAssertionError None "string"))
  ∧ mapBrightcoveVideo v (record_without "id") "req-1" "ts-1"
    = ([], Panics (TypeAssertionError None "string"))
  ∧ mapBrightcoveVideo v (record_without "updated_at") "req-1" "ts-1"
    = ([], Panics (TypeAssertionError None "string")).
Proof. repeat split; vm_compute; reflexivity. Qed.

(** The part of C2 the code keeps: an empty uuid is rejected with the
    error that names it, whatever the other members are. *)
Example empty_uuid_is_rejected (v : videoMapper) :
  mapBrightcoveVideo v (<["uuid" := VString EmptyString]> record1) "req-1" "ts-1"
  = ([], Returns (Err uuid_error))
  ∧ Error uuid_error = "uuid field of native brightcove video JSON is null. Skipping message.".
Proof. split; [apply rejects_empty_uuid |]; reflexivity. Qed.

(** C3 (the code departs from it): a uuid bound to a number, or to
    [null], does not give a validation error; the assertion panics. *)
Theorem non_string_uuid_panics (v : videoMapper) :
  mapBrightcoveVideo v record_numeric_uuid "req-1" "ts-1"
    = ([], Panics (TypeAssertionError (Some "float64") "string"))
  ∧ mapBrightcoveVideo v (<["uuid" := VNil]> record1) "req-1" "ts-1"
    = ([], Panics (TypeAssertionError None "string")).
Proof. repeat split; vm_compute; reflexivity. Qed.

(** C4 (the code departs from it): with the name absent the mapping
    does not succeed with the bare prefix; the assertion on the name
    panics. *)
Theorem absent_name_panics (v : videoMapper) :
  mapBrightcoveVideo v (record_without "name") "req-1" "ts-1"
    = ([], Panics (TypeAssertionError None "string")).
Proof. vm_compute; reflexivity. Qed.

(** ** The media type *)

(** C5, as amended: when the name is [base.ext] and [ext] holds neither
    a dot nor a path separator, the payload's media type is the prefix
    followed by [ext], as given. *)
Theorem mediaType_of_extension v m r l uuid id d base ext :
  index m "uuid" = VString uuid → uuid ≠ EmptyString →
  index m "id" = VString id → id ≠ EmptyString →
  index m "updated_at" = VString d → d ≠ EmptyString →
  index m "name" = VString (base +:+ "." +:+ ext) →
  contains "."%char ext = false →
  contains "/"%char ext = false →
  mapBrightcoveVideo v m r l =
    ([], Returns (Ok (encode
       {| event.ContentUri := videoContentUriBase +:+ uuid;
          event.Payload := encode
            {| UUID := uuid;
               Identifiers := [ {| Authority := brigthcoveAuthority; IdentifierValue := id |} ];
               PublishedDate := d;
               MediaType := "video/" +:+ ext;
               PublishReference := r;
               LastModified := l |};
          event.LastModified := l |}))).
Proof.
  intros Hu Hu' Hi Hi' Hd Hd' Hn Hdot Hsep.
  rewrite (mapBrightcoveVideo_valid v m r l uuid Hu Hu' id Hi Hi' d Hd Hd' _ Hn).
  rewrite Ext_suffix, TrimPrefix_dot by assumption.
  rewrite decide_False; [reflexivity |].
  destruct base; discriminate.
Qed.

Lemma mediaType_of_extension_witness :
  mapBrightcoveVideo v0 record1 "req-1" "ts-1" =
    ([], Returns (Ok (encode
       {| event.ContentUri := videoContentUriBase +:+ "abc-1";
          event.Payload := encode
            {| UUID := "abc-1";
               Identifiers := [ {| Authority := brigthcoveAuthority; IdentifierValue := "999" |} ];
               PublishedDate := "2020-01-01T00:00:00Z";
               MediaType := "video/" +:+ "mp4";
               PublishReference := "req-1";
               LastModified := "ts-1" |};
          event.LastModified := "ts-1" |}))).
Proof.
  apply (mediaType_of_extension v0 record1 "req-1" "ts-1"
           "abc-1" "999" "2020-01-01T00:00:00Z" "clip" "mp4");
    solve [ reflexivity | discriminate ].
Defined.

(** C5 as stated fails: in a.b/c the text after the last dot is b/c,
    but a path separator follows that dot, [filepath.Ext] finds no
    extension, and the media type is the bare prefix, not video/b/c. *)
Lemma mediaType_dot_in_directory :
  index record_dotted_dir "name" = VString ("a" +:+ "." +:+ "b/c")
  ∧ contains "."%char "b/c" = false
  ∧ mapBrightcoveVideo v0 record_dotted_dir "req-1" "ts-1"
    = ([], Returns (Ok (encode (event_with_mediaType "video/"))))
  ∧ mapBrightcoveVideo v0 record_dotted_dir "req-1" "ts-1"
    ≠ ([], Returns (Ok (encode (event_with_mediaType ("video/" +:+ "b/c"))))).
Proof.
  split; [vm_compute; reflexivity |].
  split; [reflexivity |].
  split; [vm_compute; reflexivity |].
  vm_compute. discriminate.
Qed.

(** ** The round trip *)

(** C6: when the mapper succeeds, its bytes decode to an event, the
    payload string of that event decodes to a payload, and the uuid of
    that payload is what is left of the event's contentUri once the
    base URI is stripped from it. *)
Theorem payload_uuid_matches_contentUri v m r l out :
  result_of (mapBrightcoveVideo v m r l) = Returns (Ok out) →
  ∃ (e : publicationEvent) (p : payload),
    Unmarshal_publicationEvent out = Some e
    ∧ Unmarshal_payload (event.Payload e) = Some p
    ∧ gostrings.HasPrefix (event.ContentUri e) videoContentUriBase = true
    ∧ UUID p = gostrings.TrimPrefix (event.ContentUri e) videoContentUriBase.
Proof.
  intros (uuid & id & d & name & _ & _ & _ & _ & _ & _ & _ & ->)%mapBrightcoveVideo_Ok_inv.
  eexists _, _. split; [apply Unmarshal_encode_event |].
  cbn [coerce_event event.Payload event.ContentUri].
  rewrite coerce_encode_payload, Unmarshal_encode_payload.
  assert (Hbase : coerce_utf8 (videoContentUriBase +:+ uuid)
                  = videoContentUriBase +:+ coerce_utf8 uuid)
    by (apply stable_ascii; reflexivity).
  rewrite Hbase. split; [reflexivity |]. split.
  - apply prefix_append.
  - now rewrite TrimPrefix_append.
Qed.

Lemma payload_uuid_matches_contentUri_witness :
  ∃ (e : publicationEvent) (p : payload),
    Unmarshal_publicationEvent (encode event1) = Some e
    ∧ Unmarshal_payload (event.Payload e) = Some p
    ∧ gostrings.HasPrefix (event.ContentUri e) videoContentUriBase = true
    ∧ UUID p = gostrings.TrimPrefix (event.ContentUri e) videoContentUriBase.
Proof.
  apply (payload_uuid_matches_contentUri v0 record1 "req-1" "ts-1" (encode event1)).
  vm_compute. reflexivity.
Defined.

(** The round trip is up to ill-formed bytes: a uuid that is no UTF-8
    leaves the mapper as U+FFFD, in the contentUri and in the payload
    alike. *)
Example ill_formed_uuid_is_replaced :
  ∃ out e p,
    mapBrightcoveVideo v0 record_ill_formed_uuid "req-1" "ts-1" = ([], Returns (Ok out))
    ∧ Unmarshal_publicationEvent out = Some e
    ∧ Unmarshal_payload (event.Payload e) = Some p
    ∧ event.ContentUri e = videoContentUriBase +:+ replacement_bytes
    ∧ UUID p = replacement_bytes.
Proof.
  eexists _, _, _. split; [vm_compute; reflexivity |].
  split; [vm_compute; reflexivity |].
  split; [vm_compute; reflexivity |].
  split; reflexivity.
Qed.

(** ** The broker path *)

(** C7: a message whose Origin-System-Id header is not the Brightcove
    origin is dropped: [consume] returns at once, having written no log
    line and sent nothing, whatever the body is. *)
Theorem consume_drops_foreign_origin (v : videoMapper) (m : consumer.Message) :
  header (consumer.Headers m) "Origin-System-Id" ≠ brightcoveOrigin →
  consume v m = ([], Returns tt).
Proof. intros H. unfold consume. now rewrite decide_True by assumption. Qed.

Lemma consume_drops_foreign_origin_witness :
  header (consumer.Headers foreign_message) "Origin-System-Id" ≠ brightcoveOrigin
  ∧ consume v0 foreign_message = ([], Returns tt).
Proof.
  assert (H : header (consumer.Headers foreign_message) "Origin-System-Id" ≠ brightcoveOrigin)
    by (vm_compute; discriminate).
  split; [exact H |].
  exact (consume_drops_foreign_origin v0 foreign_message H).
Defined.

(** The mapping is not attempted: on this message it would panic, its
    body being an object without members. *)
Example foreign_message_is_not_mapped :
  mapMessage v0 foreign_message = ([], Panics (TypeAssertionError None "string"))
  ∧ consume v0 foreign_message = ([], Returns tt).
Proof. split; vm_compute; reflexivity. Qed.

(** C8 (the code departs from it): the scenario's message passes the
    origin filter and maps to the event, yet [consume] only logs it;
    the trace holds no send to the producer. *)
Theorem mapped_event_is_not_sent (v : videoMapper) :
  header (consumer.Headers message1) "Origin-System-Id" = brightcoveOrigin
  ∧ mapMessage v message1 = ([], Returns (Ok (encode event1)))
  ∧ consume v message1
    = ([Printf infoLogger "Sending %v" [ABytes (encode event1)]], Returns tt)
  ∧ ∀ to uuid msg, ¬ In (SendMessage to uuid msg) (trace (consume v message1)).
Proof.
  split; [vm_compute; reflexivity |].
  split; [vm_compute; reflexivity |].
  split; [vm_compute; reflexivity |].
  intros to uuid msg. apply consume_never_sends.
Qed.

(** ** The HTTP path *)

(** C9 (the code departs from it): a POST with both headers whose body
    is a well-formed object without uuid is not answered with 400; the
    handler panics and the client gets no response. *)
Theorem request_without_uuid_gets_no_response (v : videoMapper) :
  http.Header_Get (http.Header request_without_uuid) "X-Request-Id" = "req-1"
  ∧ http.Header_Get (http.Header request_without_uuid) "Message-Timestamp" = "ts-1"
  ∧ json_dec.Unmarshal_map (http.Body request_without_uuid) = inr (record_without "uuid")
  ∧ mapHandler v http.fresh request_without_uuid
    = ([], Panics (TypeAssertionError None "string"))
  ∧ http.response (mapHandler v http.fresh request_without_uuid) = None.
Proof. repeat split; vm_compute; reflexivity. Qed.

(** The parts of C9 the code keeps: 400 and an empty body for a body
    that is no JSON, 200 and the event for the scenario's request. *)
Example undecodable_request_gets_400 (v : videoMapper) :
  http.response (mapHandler v http.fresh
                   {| http.Header := request_headers1; http.Body := "not json" |})
  = Some (400, EmptyString).
Proof. now apply (response_undecodable_body v _ json_dec.InvalidInput). Qed.

Example valid_request_gets_event (v : videoMapper) :
  http.response (mapHandler v http.fresh request1) = Some (200, encode event1).
Proof.
  apply (response_mapped v request1 record1) with (t := []);
    vm_compute; congruence.
Qed.

(** ** What the mapper reads *)

(** The mapper reads four members of the record and nothing else of it,
    and nothing of its receiver. *)
Lemma mapBrightcoveVideo_reads_four_members
    (v1 v2 : videoMapper) (m1 m2 : gmap string value) (r l : string) :
  (∀ k, In k ["uuid"; "id"; "updated_at"; "name"] → index m1 k = index m2 k) →
  mapBrightcoveVideo v1 m1 r l = mapBrightcoveVideo v2 m2 r l.
Proof.
  intros H. unfold mapBrightcoveVideo.
  rewrite !(H _) by (cbn; tauto). reflexivity.
Qed.


(** * Further properties *)

(** ** The outcomes of the mapper *)

Lemma not_is_string (x : value) : ¬ is_string x → ∀ s, x ≠ VString s.
Proof. intros H s ->. apply H. now exists s. Qed.

Lemma is_string_dec (x : value) : is_string x ∨ ¬ is_string x.
Proof. destruct x; try (right; now intros [? [=]]). left. now eexists. Qed.

Lemma string_cases (x : value) :
  ¬ is_string x ∨ x = VString EmptyString ∨ nonempty_string x.
Proof.
  destruct x as [| | |s| |]; try (left; now intros [? [=]]).
  right. destruct (decide (s = EmptyString)) as [->|Hs]; [now left | right].
  now exists s.
Qed.

(** The run of the mapper, check by check. *)
Lemma mapBrightcoveVideo_run v m r l :
  let X := mapBrightcoveVideo v m r l in
  (¬ is_string (index m "uuid")
     ∧ X = ([], Panics (TypeAssertionError (dynamic_type (index m "uuid")) "string")))
  ∨ (index m "uuid" = VString EmptyString ∧ X = ([], Returns (Err uuid_error)))
  ∨ nonempty_string (index m "uuid") ∧
    ((¬ is_string (index m "id")
       ∧ X = ([], Panics (TypeAssertionError (dynamic_type (index m "id")) "string")))
     ∨ (index m "id" = VString EmptyString ∧ X = ([], Returns (Err id_error)))
     ∨ nonempty_string (index m "id") ∧
       ((¬ is_string (index m "updated_at")
          ∧ X = ([], Panics (TypeAssertionError (dynamic_type (index m "updated_at")) "string")))
        ∨ (index m "updated_at" = VString EmptyString
           ∧ X = ([], Returns (Err updated_at_error)))
        ∨ nonempty_string (index m "updated_at") ∧
          ((¬ is_string (index m "name")
             ∧ X = ([], Panics (TypeAssertionError (dynamic_type (index m "name")) "string")))
           ∨ (∃ name out,
                index m "name" = VString name
                ∧ X = (if decide (name = EmptyString) then [name_warning] else [],
                       Returns (Ok out)))))).
Proof.
  intros X. subst X.
  destruct (string_cases (index m "uuid")) as [Hu | [Hu | Hu]].
  { left. split; [assumption |]. apply panics_on_uuid. now apply not_is_string. }
  { right; left. split; [assumption |]. now apply rejects_empty_uuid. }
  right; right. split; [assumption |]. destruct Hu as (uuid & Hu & Hu').
  destruct (string_cases (index m "id")) as [Hi | [Hi | Hi]].
  { left. split; [assumption |]. apply (panics_on_id v m r l uuid Hu Hu').
    now apply not_is_string. }
  { right; left. split; [assumption |]. now apply (rejects_empty_id v m r l uuid). }
  right; right. split; [assumption |]. destruct Hi as (id & Hi & Hi').
  destruct (string_cases (index m "updated_at")) as [Hd | [Hd | Hd]].
  { left. split; [assumption |].
    apply (panics_on_updated_at v m r l uuid Hu Hu' id Hi Hi'). now apply not_is_string. }
  { right; left. split; [assumption |].
    now apply (rejects_empty_updated_at v m r l uuid Hu Hu' id). }
  right; right. split; [assumption |]. destruct Hd as (d & Hd & Hd').
  destruct (is_string_dec (index m "name")) as [Hn | Hn].
  - right. destruct Hn as (name & Hn). exists name.
    rewrite (mapBrightcoveVideo_valid v m r l uuid Hu Hu' id Hi Hi' d Hd Hd' name Hn).
    eexists. split; [assumption | reflexivity].
  - left. split; [assumption |].
    apply (panics_on_name v m r l uuid Hu Hu' id Hi Hi' d Hd Hd'). now apply not_is_string.
Qed.

#[local] Ltac mapper_run v m r l :=
  let H := fresh "H" in
  destruct (mapBrightcoveVideo_run v m r l) as [[Hu ->] | [[Hu ->] | [Hu H]]];
    [| | destruct H as [[Hi ->] | [[Hi ->] | [Hi H]]];
         [| | destruct H as [[Hd ->] | [[Hd ->] | [Hd H]]];
              [| | destruct H as [[Hn ->] | (name & out & Hn & ->)]]]].

#[local] Ltac absurd_string :=
  match goal with
  | H : ¬ is_string ?x, H' : ?x = VString _ |- _ => destruct H; rewrite H'; now eexists
  | H : ¬ is_string ?x, H' : nonempty_string ?x |- _ =>
      destruct H; destruct H' as (? & -> & _); now eexists
  | H : ¬ is_string ?x, H' : is_string ?x |- _ => destruct (H H')
  | H : ?x = VString EmptyString, H' : nonempty_string ?x |- _ =>
      destruct H' as (? & H'' & Hne); rewrite H in H''; injection H'' as <-; now destruct Hne
  end.

(** X1: the mapper returns bytes exactly when the record's uuid, id
    and updated_at hold strings that are not empty and its name holds a
    string; nothing else of the record or of the two header values
    matters. *)
Theorem mapBrightcoveVideo_succeeds_iff v m r l :
  (∃ out, result_of (mapBrightcoveVideo v m r l) = Returns (Ok out))
  ↔ nonempty_string (index m "uuid")
    ∧ nonempty_string (index m "id")
    ∧ nonempty_string (index m "updated_at")
    ∧ is_string (index m "name").
Proof.
  split.
  - intros (out & (uuid & id & d & name & Hu & Hu' & Hi & Hi' & Hd & Hd' & Hn & _)
                   %mapBrightcoveVideo_Ok_inv).
    repeat split; eexists; eauto.
  - intros ((uuid & Hu & Hu') & (id & Hi & Hi') & (d & Hd & Hd') & (name & Hn)).
    rewrite (mapBrightcoveVideo_valid v m r l uuid Hu Hu' id Hi Hi' d Hd Hd' name Hn).
    eexists. reflexivity.
Qed.

(** X2: the mapper returns an error exactly when one of uuid, id and
    updated_at holds the empty string while the members checked before
    it hold strings that are not empty; the error is the one that names
    that member, the first that fails. *)
Theorem mapBrightcoveVideo_error_iff v m r l e :
  result_of (mapBrightcoveVideo v m r l) = Returns (Err e)
  ↔ (index m "uuid" = VString EmptyString ∧ e = uuid_error)
    ∨ (nonempty_string (index m "uuid")
       ∧ index m "id" = VString EmptyString ∧ e = id_error)
    ∨ (nonempty_string (index m "uuid") ∧ nonempty_string (index m "id")
       ∧ index m "updated_at" = VString EmptyString ∧ e = updated_at_error).
Proof.
  mapper_run v m r l;
    cbn [result_of snd]; split;
    try (intros [= <-]); try discriminate; try tauto;
    try (intros [[? ?] | [(? & ? & ?) | (? & ? & ? & ?)]]; subst; try reflexivity;
         absurd_string).
Qed.

(** X3: the mapper panics exactly when one of its four unchecked
    assertions is reached on a member that holds no string (absent,
    null, a number, ...): the members asserted before it hold strings
    that are not empty.  The panic is the run-time error of that
    assertion. *)
Theorem mapBrightcoveVideo_panics_iff v m r l p :
  result_of (mapBrightcoveVideo v m r l) = Panics p
  ↔ ∃ k, failing_assertion m k
         ∧ p = TypeAssertionError (dynamic_type (index m k)) "string".
Proof.
  unfold failing_assertion.
  mapper_run v m r l; cbn [result_of snd]; split;
    try (intros [= <-]); try discriminate;
    try (eexists; split; [split; [eassumption | tauto] | reflexivity]);
    try (intros (k & (Hk & [-> | [(-> & ?) | [(-> & ? & ?) | (-> & ? & ? & ?)]]]) & ->);
         try reflexivity; absurd_string).
Qed.

(** X4: the mapper writes at most one log line, its warning about the
    name, and writes it exactly when it returns bytes for a record
    whose name is the empty string; an error or a panic leaves no log
    line. *)
Theorem mapBrightcoveVideo_warns_iff_empty_name v m r l :
  (trace (mapBrightcoveVideo v m r l) = []
   ∨ trace (mapBrightcoveVideo v m r l) = [name_warning])
  ∧ (trace (mapBrightcoveVideo v m r l) = [name_warning]
     ↔ (∃ out, result_of (mapBrightcoveVideo v m r l) = Returns (Ok out))
       ∧ index m "name" = VString EmptyString).
Proof.
  mapper_run v m r l; cbn [trace fst result_of snd];
    try (split; [now left |]; split; [discriminate | intros [[? [=]] _]]).
  destruct (decide (name = EmptyString)) as [->|Hne].
  - split; [now right |]. split; [|reflexivity]. intros _. split; [now eexists | assumption].
  - split; [now left |]. split; [discriminate |]. intros [_ H]. rewrite Hn in H. congruence.
Qed.

(** ** The extension *)

Lemma drop_bytes_get (i : nat) (s : string) (c : ascii) :
  String.get i s = Some c → drop_bytes i s = String c (drop_bytes (S i) s).
Proof.
  revert s. induction i as [|i IH]; intros [|x s] H; simpl in *; try discriminate.
  - now injection H as ->.
  - now apply IH.
Qed.

Lemma contains_drop_bytes (c : ascii) (k : nat) (s : string) :
  (∀ j x, (k <= j)%nat → String.get j s = Some x → x ≠ c) →
  contains c (drop_bytes k s) = false.
Proof.
  revert k. induction s as [|y s IH]; intros k H.
  - now destruct k.
  - destruct k as [|k]; cbn [drop_bytes contains].
    + apply orb_false_iff. split.
      * apply Ascii.eqb_neq. apply (H 0%nat); [lia | reflexivity].
      * apply (IH 0%nat). intros j x _ Hj. apply (H (S j)); [lia | exact Hj].
    + apply IH. intros j x Hk Hj. apply (H (S j)); [lia | exact Hj].
Qed.

Lemma get_lt (s : string) (j : nat) (x : ascii) :
  String.get j s = Some x → (j < String.length s)%nat.
Proof.
  revert j. induction s as [|y s IH]; intros j H; simpl in *; [discriminate |].
  destruct j as [|j]; [lia |]. apply IH in H. lia.
Qed.

(** What the scan from the end returns: nothing, or the text from a
    dot after which neither a dot nor a path separator comes. *)
Lemma Ext_loop_shape (path : string) (n : nat) :
  (∀ j x, (n <= j)%nat → String.get j path = Some x → x ≠ "."%char ∧ x ≠ "/"%char) →
  filepath.Ext_loop path n = EmptyString
  ∨ ∃ i, String.get i path = Some "."%char
         ∧ filepath.Ext_loop path n = drop_bytes i path
         ∧ ∀ j x, (i < j)%nat → String.get j path = Some x → x ≠ "."%char ∧ x ≠ "/"%char.
Proof.
  induction n as [|i IH]; intros H; cbn [filepath.Ext_loop]; [now left |].
  destruct (String.get i path) as [c|] eqn:Hc; [|now left].
  unfold filepath.IsPathSeparator.
  destruct (byte_to_Z c =? 0x2F) eqn:Hsep; [now left |].
  destruct (byte_to_Z c =? 0x2E) eqn:Hdot.
  - right. exists i. apply Z.eqb_eq in Hdot.
    assert (c = "."%char) as -> by now apply byte_to_Z_inj.
    repeat split; try assumption; apply (H j x); assumption || lia.
  - apply IH. intros j x Hj Hx.
    destruct (decide (j = i)) as [->|Hne]; [|apply (H j x); [lia | assumption]].
    rewrite Hc in Hx. injection Hx as <-.
    split; intros ->; discriminate.
Qed.

Lemma Ext_shape (path : string) :
  filepath.Ext path = EmptyString
  ∨ ∃ base ext, path = base +:+ "." +:+ ext
                ∧ filepath.Ext path = "." +:+ ext
                ∧ contains "."%char ext = false ∧ contains "/"%char ext = false.
Proof.
  unfold filepath.Ext.
  destruct (Ext_loop_shape path (String.length path)) as [H | (i & Hi & -> & Hafter)].
  - intros j x Hj Hx%get_lt. lia.
  - now left.
  - right. exists (take_bytes i path), (drop_bytes (S i) path).
    rewrite (drop_bytes_get i path _ Hi).
    split; [| split; [reflexivity |]].
    + rewrite <- (take_drop_bytes i path) at 1. now rewrite (drop_bytes_get i path _ Hi).
    + split; apply contains_drop_bytes; intros j x Hj Hx; apply (Hafter j x); assumption || lia.
Qed.

(** X5: the extension the mapper puts behind video/, namely
    [strings.TrimPrefix(filepath.Ext(fileName), ".")], never holds a
    dot or a path separator, and is either empty or what follows a dot
    of the name: the media type has the one slash of its prefix. *)
Theorem extension_has_no_dot_and_no_separator (fileName : string) :
  let extension := gostrings.TrimPrefix (filepath.Ext fileName) "." in
  contains "."%char extension = false
  ∧ contains "/"%char extension = false
  ∧ (extension = EmptyString ∨ ∃ base, fileName = base +:+ "." +:+ extension).
Proof.
  cbv zeta. destruct (Ext_shape fileName) as [-> | (base & ext & Hn & -> & Hdot & Hsep)].
  - repeat split; try reflexivity. now left.
  - rewrite TrimPrefix_dot. repeat split; try assumption. right. now exists base.
Qed.

(** The scan finds nothing when no dot follows the last path separator. *)
Lemma Ext_loop_last_element (dir tail : string) (k : nat) :
  contains "."%char tail = false →
  (k <= String.length tail)%nat →
  filepath.Ext_loop (dir +:+ "/" +:+ tail) (S (String.length dir) + k) = EmptyString.
Proof.
  intros Hdot. induction k as [|k IH]; intros Hk.
  - rewrite Nat.add_0_r. cbn [filepath.Ext_loop].
    replace (String.length dir) with (String.length dir + 0)%nat at 1 by lia.
    rewrite get_append_r. reflexivity.
  - replace (S (String.length dir) + S k)%nat with (S (S (String.length dir) + k)) by lia.
    cbn [filepath.Ext_loop].
    replace (dir +:+ "/" +:+ tail) with ((dir +:+ "/") +:+ tail) at 1
      by (now rewrite append_assoc).
    replace (S (String.length dir) + k)%nat with (String.length (dir +:+ "/") + k)%nat
      by (rewrite length_append; cbn; lia).
    rewrite get_append_r.
    destruct (get_some tail k) as [x Hx]; [lia |]. rewrite Hx.
    unfold filepath.IsPathSeparator.
    destruct (byte_to_Z x =? 0x2F); [reflexivity |].
    rewrite (byte_neq x "."%char 0x2E) by (reflexivity || now apply (get_contains _ _ tail k)).
    rewrite length_append.
    replace (String.length dir + String.length "/" + k)%nat with (S (String.length dir) + k)%nat
      by (cbn; lia).
    apply IH. lia.
Qed.

Lemma Ext_last_element (dir tail : string) :
  contains "."%char tail = false →
  filepath.Ext (dir +:+ "/" +:+ tail) = EmptyString.
Proof.
  intros Hdot. unfold filepath.Ext.
  replace (String.length (dir +:+ "/" +:+ tail))
    with (S (String.length dir) + String.length tail)%nat
    by (rewrite !length_append; cbn; lia).
  now apply Ext_loop_last_element.
Qed.

(** X6: for a record that passes the checks and whose name has no dot
    in its last path element (no dot at all, or none after some path
    separator), the payload's media type is the bare prefix video/. *)
Theorem name_without_extension_gives_bare_prefix v m r l uuid id d name :
  index m "uuid" = VString uuid → uuid ≠ EmptyString →
  index m "id" = VString id → id ≠ EmptyString →
  index m "updated_at" = VString d → d ≠ EmptyString →
  index m "name" = VString name →
  (contains "."%char name = false
   ∨ ∃ dir tail, name = dir +:+ "/" +:+ tail ∧ contains "."%char tail = false) →
  result_of (mapBrightcoveVideo v m r l) =
    Returns (Ok (encode
       {| event.ContentUri := videoContentUriBase +:+ uuid;
          event.Payload := encode
            {| UUID := uuid;
               Identifiers := [ {| Authority := brigthcoveAuthority; IdentifierValue := id |} ];
               PublishedDate := d;
               MediaType := "video/";
               PublishReference := r;
               LastModified := l |};
          event.LastModified := l |})).
Proof.
  intros Hu Hu' Hi Hi' Hd Hd' Hn Hname.
  rewrite (mapBrightcoveVideo_valid v m r l uuid Hu Hu' id Hi Hi' d Hd Hd' _ Hn).
  assert (filepath.Ext name = EmptyString) as ->.
  { destruct Hname as [H | (dir & tail & -> & H)];
      [now apply Ext_no_dot | now apply Ext_last_element]. }
  reflexivity.
Qed.

Lemma name_without_extension_gives_bare_prefix_witness :
  result_of (mapBrightcoveVideo v0 (record_named "v1.2/clip") "req-1" "ts-1") =
    Returns (Ok (encode
       {| event.ContentUri := videoContentUriBase +:+ "abc-1";
          event.Payload := encode
            {| UUID := "abc-1";
               Identifiers := [ {| Authority := brigthcoveAuthority; IdentifierValue := "999" |} ];
               PublishedDate := "2020-01-01T00:00:00Z";
               MediaType := "video/";
               PublishReference := "req-1";
               LastModified := "ts-1" |};
          event.LastModified := "ts-1" |})).
Proof.
  apply (name_without_extension_gives_bare_prefix v0 (record_named "v1.2/clip")
           "req-1" "ts-1" "abc-1" "999" "2020-01-01T00:00:00Z" "v1.2/clip");
    try reflexivity; try discriminate.
  right. exists "v1.2", "clip". split; reflexivity.
Defined.

(** ** UTF-8: decoding what was encoded *)

Lemma byte_to_Z_to_byte (b : Z) : 0 ≤ b < 256 → byte_to_Z (Z_to_byte b) = b.
Proof.
  intros H. unfold byte_to_Z, Z_to_byte. rewrite Z.mod_small by lia.
  rewrite N_ascii_embedding; [lia |]. lia.
Qed.

Lemma stable_of_wf_seq (c0 : ascii) (chunk : string) (c : Z) :
  utf8.RuneSelf ≤ byte_to_Z c0 →
  (∀ X, wf_seq (String c0 (chunk +:+ X)) = Some (c, S (String.length chunk))) →
  utf8.EncodeRune c = String c0 chunk →
  utf8_stable (String c0 chunk).
Proof.
  intros Hb Hwf Henc X. cbn [append].
  rewrite (coerce_utf8_rune c0 chunk X c Hb).
  - rewrite Henc. reflexivity.
  - rewrite DecodeRune_multibyte by assumption. now rewrite Hwf.
Qed.

#[local] Ltac split_eq :=
  repeat match goal with
    | |- context [Z.eqb ?a ?b] => destruct (Z.eqb_spec a b); try lia
    end.

Lemma stable_seq2 (b0 b1 : Z) :
  0xC2 ≤ b0 ≤ 0xDF → 0x80 ≤ b1 ≤ 0xBF →
  utf8_stable (String (Z_to_byte b0) (String (Z_to_byte b1) EmptyString)).
Proof.
  intros H0 H1.
  apply (stable_of_wf_seq _ (String (Z_to_byte b1) EmptyString) (rune2 b0 b1)).
  - rewrite byte_to_Z_to_byte by lia. unfold utf8.RuneSelf. lia.
  - intros X. cbn [append wf_seq String.length]. rewrite !byte_to_Z_to_byte by lia.
    unfold second_lo, second_hi, seq_len. split_eq; split_cmp; reflexivity.
  - now apply EncodeRune_2.
Qed.

Lemma stable_seq3 (b0 b1 b2 : Z) :
  0xE0 ≤ b0 ≤ 0xEF → 0x80 ≤ b1 ≤ 0xBF → 0x80 ≤ b2 ≤ 0xBF →
  (b0 = 0xE0 → 0xA0 ≤ b1) → (b0 = 0xED → b1 ≤ 0x9F) →
  utf8_stable (String (Z_to_byte b0) (String (Z_to_byte b1)
                 (String (Z_to_byte b2) EmptyString))).
Proof.
  intros H0 H1 H2 Hlo Hhi.
  apply (stable_of_wf_seq _ (String (Z_to_byte b1) (String (Z_to_byte b2) EmptyString))
           (rune3 b0 b1 b2)).
  - rewrite byte_to_Z_to_byte by lia. unfold utf8.RuneSelf. lia.
  - intros X. cbn [append wf_seq String.length]. rewrite !byte_to_Z_to_byte by lia.
    unfold second_lo, second_hi, seq_len, continuation. split_eq; split_cmp; reflexivity.
  - now apply EncodeRune_3.
Qed.

Lemma stable_seq4 (b0 b1 b2 b3 : Z) :
  0xF0 ≤ b0 ≤ 0xF4 → 0x80 ≤ b1 ≤ 0xBF → 0x80 ≤ b2 ≤ 0xBF → 0x80 ≤ b3 ≤ 0xBF →
  (b0 = 0xF0 → 0x90 ≤ b1) → (b0 = 0xF4 → b1 ≤ 0x8F) →
  utf8_stable (String (Z_to_byte b0) (String (Z_to_byte b1)
                 (String (Z_to_byte b2) (String (Z_to_byte b3) EmptyString)))).
Proof.
  intros H0 H1 H2 H3 Hlo Hhi.
  apply (stable_of_wf_seq _
           (String (Z_to_byte b1) (String (Z_to_byte b2) (String (Z_to_byte b3) EmptyString)))
           (rune4 b0 b1 b2 b3)).
  - rewrite byte_to_Z_to_byte by lia. unfold utf8.RuneSelf. lia.
  - intros X. cbn [append wf_seq String.length]. rewrite !byte_to_Z_to_byte by lia.
    unfold second_lo, second_hi, seq_len, continuation. split_eq; split_cmp; reflexivity.
  - now apply EncodeRune_4.
Qed.

(** Every rune is written as well-formed UTF-8: a surrogate half as
    U+FFFD. *)
Lemma stable_EncodeRune (r : Z) : 0 ≤ r ≤ utf8.MaxRune → utf8_stable (utf8.EncodeRune r).
Proof.
  unfold utf8.MaxRune. intros Hr.
  destruct (Z_le_gt_dec r 0x7F) as [H1|H1].
  { unfold utf8.EncodeRune. rewrite Z.mod_small by lia. unfold utf8.rune1Max.
    destruct (Z.leb_spec r 0x7F); [|lia].
    apply stable_ascii. cbn [is_ascii]. rewrite byte_to_Z_to_byte by lia.
    unfold utf8.RuneSelf. destruct (Z.ltb_spec r 0x80); [reflexivity | lia]. }
  destruct (Z_le_gt_dec r 0x7FF) as [H2|H2].
  { replace r with (rune2 (0xC0 + r / 64) (0x80 + r mod 64))
      by (rewrite rune2_value by arith; arith).
    rewrite EncodeRune_2 by arith. apply stable_seq2; arith. }
  destruct (Z_le_gt_dec 0xD800 r) as [H3|H3]; [destruct (Z_le_gt_dec r 0xDFFF) as [H4|H4] |].
  { replace (utf8.EncodeRune r) with (utf8.EncodeRune (rune3 0xEF 0xBF 0xBD)).
    - rewrite EncodeRune_3 by lia. apply stable_seq3; lia.
    - unfold utf8.EncodeRune at 2. rewrite Z.mod_small by lia.
      unfold utf8.rune1Max, utf8.rune2Max, utf8.MaxRune, utf8.surrogateMin, utf8.surrogateMax.
      destruct (Z.leb_spec r 0x7F); [lia |].
      destruct (Z.leb_spec r 0x7FF); [lia |].
      destruct (Z.leb_spec 0xD800 r); [|lia].
      destruct (Z.leb_spec r 0xDFFF); [|lia].
      rewrite orb_true_r. reflexivity. }
  all: destruct (Z_le_gt_dec r 0xFFFF) as [H5|H5].
  2, 4: replace r with (rune4 (0xF0 + r / 262144) (0x80 + (r / 4096) mod 64)
                         (0x80 + (r / 64) mod 64) (0x80 + r mod 64))
      by (rewrite rune4_value by arith; arith);
    rewrite EncodeRune_4 by arith; apply stable_seq4; arith.
  all: replace r with (rune3 (0xE0 + r / 4096) (0x80 + (r / 64) mod 64) (0x80 + r mod 64))
      by (rewrite rune3_value by arith; arith);
    rewrite EncodeRune_3 by arith; apply stable_seq3; arith.
Qed.

(** ** The decoder returns well-formed UTF-8 *)

Lemma hexval_range (c : ascii) (x : Z) : json_dec.hexval c = Some x → 0 ≤ x ≤ 15.
Proof.
  unfold json_dec.hexval. cbv zeta. intros H.
  repeat match type of H with
    | context [if ?b then _ else _] =>
        let E := fresh "E" in destruct b eqn:E; [apply andb_true_iff in E as [?%Z.leb_le ?%Z.leb_le] |]
    end; try discriminate; injection H as <-; lia.
Qed.

Lemma getu4_range (s : string) : json_dec.getu4 s = -1 ∨ 0 ≤ json_dec.getu4 s ≤ 0xFFFF.
Proof.
  unfold json_dec.getu4.
  destruct s as [|c0 [|c1 [|h0 [|h1 [|h2 [|h3 r]]]]]]; try (now left).
  destruct (_ && _); [|now left].
  destruct (json_dec.hexval h0) as [a|] eqn:Ha; [|now left].
  destruct (json_dec.hexval h1) as [b|] eqn:Hb; [|now left].
  destruct (json_dec.hexval h2) as [c|] eqn:Hc; [|now left].
  destruct (json_dec.hexval h3) as [d|] eqn:Hd; [|now left].
  apply hexval_range in Ha, Hb, Hc, Hd. right. lia.
Qed.

Lemma utf16_DecodeRune_range (r1 r2 : Z) : 0 ≤ utf16.DecodeRune r1 r2 ≤ utf8.MaxRune.
Proof.
  unfold utf16.DecodeRune, utf16.surr1, utf16.surr2, utf16.surr3, utf16.surrSelf,
    utf16.replacementChar, utf8.MaxRune.
  destruct (_ && _) eqn:E; [|lia].
  repeat (apply andb_true_iff in E as [E ?]).
  apply Z.leb_le in E. 
  repeat match goal with
    | H : (_ <=? _) = true |- _ => apply Z.leb_le in H
    | H : (_ <? _) = true |- _ => apply Z.ltb_lt in H
    end.
  rewrite Z.shiftl_mul_pow2 by lia.
  rewrite (lor_add_disjoint _ _ 10) by arith. lia.
Qed.

Lemma stable_decoded_rune (c0 : ascii) (r : string) :
  utf8.RuneSelf ≤ byte_to_Z c0 →
  utf8_stable (utf8.EncodeRune (fst (utf8.DecodeRuneInString (String c0 r)))).
Proof.
  intros Hb.
  destruct (DecodeRune_cases c0 r Hb)
    as [-> | (c & k & chunk & t & -> & -> & Hk & _ & Henc & Hst)]; cbn [fst].
  - apply stable_EncodeRune. unfold utf8.RuneError, utf8.MaxRune. lia.
  - rewrite Henc. intros X. cbn [append].
    rewrite (coerce_utf8_rune c0 chunk X c Hb) by (now rewrite Hst, Hk).
    now rewrite Henc.
Qed.

Lemma stable_prepend (out : string) (x : option (string * string)) (t rest : string) :
  utf8_stable out →
  (∀ t' rest', x = Some (t', rest') → utf8_stable t') →
  prepend out x = Some (t, rest) → utf8_stable t.
Proof.
  intros Hout Hx. destruct x as [[t' rest']|]; [|discriminate].
  intros [= <- <-]. apply stable_app; [assumption | now apply (Hx t' rest')].
Qed.

Lemma unquote_loop_prepend (f : nat) (s : string) :
  json_dec.unquote_loop (S f) s
  = match s with
    | EmptyString => None
    | String c r =>
        let v := byte_to_Z c in
        if v =? 0x22 then Some (EmptyString, r)
        else if v =? 0x5C then
          match r with
          | EmptyString => None
          | String e r' =>
              let ev := byte_to_Z e in
              if (ev =? 0x22) || (ev =? 0x5C) || (ev =? 0x2F) then
                prepend (String e EmptyString) (json_dec.unquote_loop f r')
              else if ev =? 0x62 then
                prepend (String "008"%char EmptyString) (json_dec.unquote_loop f r')
              else if ev =? 0x66 then
                prepend (String "012"%char EmptyString) (json_dec.unquote_loop f r')
              else if ev =? 0x6E then
                prepend (String "010"%char EmptyString) (json_dec.unquote_loop f r')
              else if ev =? 0x72 then
                prepend (String "013"%char EmptyString) (json_dec.unquote_loop f r')
              else if ev =? 0x74 then
                prepend (String "009"%char EmptyString) (json_dec.unquote_loop f r')
              else if ev =? 0x75 then
                let rr := json_dec.getu4 s in
                if rr <? 0 then None
                else
                  let r6 := drop_bytes 6 s in
                  if utf16.IsSurrogate rr then
                    let dec := utf16.DecodeRune rr (json_dec.getu4 r6) in
                    if negb (dec =? utf16.replacementChar) then
                      prepend (utf8.EncodeRune dec) (json_dec.unquote_loop f (drop_bytes 6 r6))
                    else
                      prepend (utf8.EncodeRune utf16.replacementChar)
                        (json_dec.unquote_loop f r6)
                  else prepend (utf8.EncodeRune rr) (json_dec.unquote_loop f r6)
              else None
          end
        else if v <? 0x20 then None
        else if v <? utf8.RuneSelf then
          prepend (String c EmptyString) (json_dec.unquote_loop f r)
        else
          prepend (utf8.EncodeRune (fst (utf8.DecodeRuneInString s)))
            (json_dec.unquote_loop f (drop_bytes (snd (utf8.DecodeRuneInString s)) s))
    end.
Proof.
  cbn [json_dec.unquote_loop]. unfold prepend.
  destruct s as [|c r]; [reflexivity |]. cbv zeta.
  destruct (utf8.DecodeRuneInString (String c r)) as [rr size]. reflexivity.
Qed.

Lemma stable_unquote_loop (f : nat) : ∀ (s t rest : string),
  json_dec.unquote_loop f s = Some (t, rest) → utf8_stable t.
Proof.
  induction f as [|f IH]; intros s t rest; [discriminate |].
  rewrite unquote_loop_prepend.
  destruct s as [|c r]; [discriminate |]. cbv zeta.
  destruct (byte_to_Z c =? 0x22); [intros [= <- <-]; apply stable_nil |].
  destruct (byte_to_Z c =? 0x5C).
  { destruct r as [|e r']; [discriminate |].
    destruct (_ || _) eqn:He.
    { apply stable_prepend; [|apply IH]. apply stable_ascii. cbn [is_ascii].
      rewrite andb_true_r. apply Z.ltb_lt. unfold utf8.RuneSelf.
      repeat (apply orb_true_iff in He as [He|He]); apply Z.eqb_eq in He; lia. }
    destruct (byte_to_Z e =? 0x62); [apply stable_prepend; [now apply stable_ascii | apply IH] |].
    destruct (byte_to_Z e =? 0x66); [apply stable_prepend; [now apply stable_ascii | apply IH] |].
    destruct (byte_to_Z e =? 0x6E); [apply stable_prepend; [now apply stable_ascii | apply IH] |].
    destruct (byte_to_Z e =? 0x72); [apply stable_prepend; [now apply stable_ascii | apply IH] |].
    destruct (byte_to_Z e =? 0x74); [apply stable_prepend; [now apply stable_ascii | apply IH] |].
    destruct (byte_to_Z e =? 0x75); [|discriminate].
    destruct (json_dec.getu4 (String c (String e r')) <? 0) eqn:Hneg; [discriminate |].
    apply Z.ltb_ge in Hneg.
    destruct (getu4_range (String c (String e r'))) as [Hg|Hg]; [lia |].
    destruct (utf16.IsSurrogate _).
    - destruct (negb _).
      + apply stable_prepend; [|apply IH]. apply stable_EncodeRune, utf16_DecodeRune_range.
      + apply stable_prepend; [|apply IH]. apply stable_EncodeRune.
        unfold utf16.replacementChar, utf8.MaxRune. lia.
    - apply stable_prepend; [|apply IH]. apply stable_EncodeRune. unfold utf8.MaxRune. lia. }
  destruct (byte_to_Z c <? 0x20); [discriminate |].
  destruct (Z.ltb_spec (byte_to_Z c) utf8.RuneSelf) as [Hlt|Hge].
  - apply stable_prepend; [|apply IH]. apply stable_ascii. cbn [is_ascii].
    rewrite andb_true_r. now apply Z.ltb_lt.
  - apply stable_prepend; [|apply IH]. now apply stable_decoded_rune.
Qed.

Lemma stable_unquote (s t rest : string) :
  json_dec.unquote s = Some (t, rest) → utf8_stable t.
Proof. apply stable_unquote_loop. Qed.

Lemma parse_lists_shape (conv : bool) (f : nat) :
  (∀ depth s acc x rest,
     json_dec.parse_elements conv f depth s acc = Some (x, rest) → ∃ l, x = VSlice l)
  ∧ (∀ depth s acc x rest,
       json_dec.parse_members conv f depth s acc = Some (x, rest) → ∃ m, x = VMap m).
Proof.
  induction f as [|f [IHe IHm]]; [split; discriminate |]. split; intros depth s acc x rest.
  - rewrite parse_elements_unfold.
    destruct (json_dec.parse_value conv f depth s) as [[y r1]|]; [|discriminate].
    destruct (json_dec.skip_space r1) as [|c r]; [discriminate |].
    destruct (byte_to_Z c =? 0x2C); [apply IHe |].
    destruct (byte_to_Z c =? 0x5D); [|discriminate].
    intros [= <- <-]. eauto.
  - rewrite parse_members_unfold.
    destruct (json_dec.skip_space s) as [|c r]; [discriminate |].
    destruct (byte_to_Z c =? 0x22); [|discriminate].
    destruct (json_dec.unquote r) as [[k r1]|]; [|discriminate].
    destruct (json_dec.skip_space r1) as [|c2 r2]; [discriminate |].
    destruct (byte_to_Z c2 =? 0x3A); [|discriminate].
    destruct (json_dec.parse_value conv f depth r2) as [[y r3]|]; [|discriminate].
    destruct (json_dec.skip_space r3) as [|c3 r4]; [discriminate |].
    destruct (byte_to_Z c3 =? 0x2C); [apply IHm |].
    destruct (byte_to_Z c3 =? 0x7D); [|discriminate].
    intros [= <- <-]. eauto.
Qed.

Lemma parse_value_string (conv : bool) (f : nat) (depth : N) (s t rest : string) :
  json_dec.parse_value conv f depth s = Some (VString t, rest) → utf8_stable t.
Proof.
  destruct f as [|f]; [discriminate |]. cbn [json_dec.parse_value].
  destruct (json_dec.skip_space s) as [|c r]; [discriminate |]. cbv zeta.
  destruct (byte_to_Z c =? 0x7B).
  { destruct (depth <? json_dec.maxNestingDepth)%N; [|discriminate].
    destruct (json_dec.skip_space r) as [|c' r']; [discriminate |].
    destruct (byte_to_Z c' =? 0x7D); [discriminate |].
    intros H. apply (proj2 (parse_lists_shape conv f)) in H as [m [=]]. }
  destruct (byte_to_Z c =? 0x5B).
  { destruct (depth <? json_dec.maxNestingDepth)%N; [|discriminate].
    destruct (json_dec.skip_space r) as [|c' r']; [discriminate |].
    destruct (byte_to_Z c' =? 0x5D); [discriminate |].
    intros H. apply (proj1 (parse_lists_shape conv f)) in H as [l [=]]. }
  destruct (byte_to_Z c =? 0x22).
  { destruct (json_dec.unquote r) as [[t' rest']|] eqn:Hq; [|discriminate].
    intros [= <- <-]. now apply (stable_unquote r t' rest'). }
  repeat (destruct (byte_to_Z c =? _);
          [destruct (json_dec.strip_prefix _ r); discriminate |]).
  destruct (json_dec.scan_number _) as [[lit ?]|]; [|discriminate].
  unfold json_dec.convertNumber. destruct (_ && _); discriminate.
Qed.

Lemma wf_strings_empty : wf_strings ∅.
Proof. intros k s H. now rewrite lookup_empty in H. Qed.

Lemma wf_strings_insert (m : gmap string value) (k : string) (x : value) :
  wf_strings m → (∀ s, x = VString s → utf8_stable s) → wf_strings (<[k:=x]> m).
Proof.
  intros Hm Hx k' s. destruct (decide (k' = k)) as [->|Hne].
  - rewrite lookup_insert_eq. intros [= ->]. now apply Hx.
  - rewrite lookup_insert_ne by congruence. apply Hm.
Qed.

Lemma parse_members_wf (conv : bool) (f : nat) :
  ∀ (depth : N) (s : string) (acc m : gmap string value) (rest : string),
    wf_strings acc → json_dec.parse_members conv f depth s acc = Some (VMap m, rest) →
    wf_strings m.
Proof.
  induction f as [|f IH]; intros depth s acc m rest Hacc; [discriminate |].
  rewrite parse_members_unfold.
  destruct (json_dec.skip_space s) as [|c r]; [discriminate |].
  destruct (byte_to_Z c =? 0x22); [|discriminate].
  destruct (json_dec.unquote r) as [[k r1]|]; [|discriminate].
  destruct (json_dec.skip_space r1) as [|c2 r2]; [discriminate |].
  destruct (byte_to_Z c2 =? 0x3A); [|discriminate].
  destruct (json_dec.parse_value conv f depth r2) as [[y r3]|] eqn:Hy; [|discriminate].
  assert (Hins : wf_strings (<[k:=y]> acc)).
  { apply wf_strings_insert; [assumption |]. intros t ->.
    now apply (parse_value_string conv f depth r2 t r3). }
  destruct (json_dec.skip_space r3) as [|c3 r4]; [discriminate |].
  destruct (byte_to_Z c3 =? 0x2C); [now apply IH |].
  destruct (byte_to_Z c3 =? 0x7D); [|discriminate].
  now intros [= <- <-].
Qed.

Lemma parse_value_wf (conv : bool) (f : nat) (depth : N) (s : string)
    (m : gmap string value) (rest : string) :
  json_dec.parse_value conv f depth s = Some (VMap m, rest) → wf_strings m.
Proof.
  destruct f as [|f]; [discriminate |]. cbn [json_dec.parse_value].
  destruct (json_dec.skip_space s) as [|c r]; [discriminate |]. cbv zeta.
  destruct (byte_to_Z c =? 0x7B).
  { destruct (depth <? json_dec.maxNestingDepth)%N; [|discriminate].
    destruct (json_dec.skip_space r) as [|c' r']; [discriminate |].
    destruct (byte_to_Z c' =? 0x7D); [intros [= <- <-]; apply wf_strings_empty |].
    apply parse_members_wf, wf_strings_empty. }
  destruct (byte_to_Z c =? 0x5B).
  { destruct (depth <? json_dec.maxNestingDepth)%N; [|discriminate].
    destruct (json_dec.skip_space r) as [|c' r']; [discriminate |].
    destruct (byte_to_Z c' =? 0x5D); [discriminate |].
    intros H. apply (proj1 (parse_lists_shape conv f)) in H as [l [=]]. }
  destruct (byte_to_Z c =? 0x22).
  { destruct (json_dec.unquote r) as [[t' rest']|]; discriminate. }
  repeat (destruct (byte_to_Z c =? _);
          [destruct (json_dec.strip_prefix _ r); discriminate |]).
  destruct (json_dec.scan_number _) as [[lit ?]|]; [|discriminate].
  unfold json_dec.convertNumber. destruct (_ && _); discriminate.
Qed.

Lemma Decoder_Decode_map_wf (body : string) (m : gmap string value) :
  json_dec.Decoder_Decode_map body = inr m → wf_strings m.
Proof.
  unfold json_dec.Decoder_Decode_map.
  destruct (json_dec.parse_value _ _ _ body) as [[x rest]|] eqn:Hp; [|discriminate].
  destruct x; try discriminate; cbn [json_dec.into_map]; intros [= <-].
  - apply wf_strings_empty.
  - eapply parse_value_wf. exact Hp.
Qed.

Lemma stable_well_formed (s : string) : utf8_stable s → coerce_utf8 s = s.
Proof.
  intros H. specialize (H EmptyString).
  now rewrite coerce_utf8_nil, !append_nil_r in H.
Qed.

Lemma index_lookup (m : gmap string value) (k s : string) :
  index m k = VString s → m !! k = Some (VString s).
Proof. unfold index. destruct (m !! k) as [x|]; simpl; [now intros -> | discriminate]. Qed.

(** ** Cutting a string at an ASCII byte *)

(** A sequence never reaches over a byte below [0x80]. *)
Lemma wf_seq_cut (x : ascii) (a : string) (c : ascii) (b : string) :
  byte_to_Z c < utf8.RuneSelf →
  wf_seq (String x (a +:+ String c b)) = wf_seq (String x a).
Proof.
  unfold utf8.RuneSelf. intros Hc.
  assert (Hcont : continuation (byte_to_Z c) = false).
  { unfold continuation. apply andb_false_iff. left. apply Z.leb_gt. lia. }
  assert (Hsec : ∀ b0, (second_lo b0 <=? byte_to_Z c) = false).
  { intros b0. apply Z.leb_gt. unfold second_lo. repeat case_match; lia. }
  destruct a as [|c1 a1]; cbn [append wf_seq]; cbv zeta.
  { now rewrite Hsec. }
  destruct (_ && _); [|reflexivity].
  destruct (seq_len (byte_to_Z x)) as [|[|[|[|[|n]]]]]; try reflexivity.
  - destruct a1 as [|c2 a2]; cbn [append]; [now rewrite Hcont | reflexivity].
  - destruct a1 as [|c2 [|c3 a3]]; cbn [append]; try reflexivity.
    + rewrite Hcont. destruct b; reflexivity.
    + rewrite Hcont. now rewrite andb_false_r.
Qed.

Lemma coerce_utf8_cut (n : nat) : ∀ (a : string) (c : ascii) (b : string),
  (String.length a <= n)%nat →
  byte_to_Z c < utf8.RuneSelf →
  coerce_utf8 (a +:+ String c b) = coerce_utf8 a +:+ String c (coerce_utf8 b).
Proof.
  induction n as [|n IH]; intros [|x a] c b Hn Hc; cbn [String.length] in Hn; try lia;
    cbn [append]; try (now rewrite coerce_utf8_ascii).
  destruct (Z.ltb_spec (byte_to_Z x) utf8.RuneSelf) as [Hlt|Hge].
  { rewrite !(coerce_utf8_ascii x) by assumption. cbn [append]. f_equal. apply IH; [lia | assumption]. }
  pose proof (wf_seq_cut x a c b Hc) as Hcut.
  destruct (wf_seq (String x a)) as [[r k]|] eqn:Hwf.
  - destruct (wf_seq_chunk _ _ _ _ Hwf) as (chunk & t & -> & Hk & _ & Henc & Hst).
    rewrite append_assoc.
    rewrite !(coerce_utf8_rune x chunk _ r Hge)
      by (rewrite DecodeRune_multibyte by assumption; now rewrite Hst, Hk).
    rewrite append_assoc. f_equal. apply IH; [|assumption].
    rewrite length_append in Hn. lia.
  - rewrite !(coerce_utf8_invalid x) by (try assumption;
      rewrite DecodeRune_multibyte by assumption; now rewrite ?Hcut, ?Hwf).
    rewrite append_assoc. f_equal. apply IH; [lia | assumption].
Qed.

Lemma contains_append (c : ascii) (a b : string) :
  contains c (a +:+ b) = contains c a || contains c b.
Proof.
  induction a as [|x a IH]; cbn [append contains]; [reflexivity |].
  now rewrite IH, orb_assoc.
Qed.

Lemma eqb_high_low (x c : ascii) :
  utf8.RuneSelf ≤ byte_to_Z x → byte_to_Z c < utf8.RuneSelf → Ascii.eqb x c = false.
Proof. intros Hx Hc. apply Ascii.eqb_neq. intros ->. lia. Qed.

(** The round trip neither adds nor removes an ASCII byte. *)
Lemma contains_coerce_utf8 (c : ascii) (n : nat) : ∀ s : string,
  (String.length s <= n)%nat →
  byte_to_Z c < utf8.RuneSelf →
  contains c (coerce_utf8 s) = contains c s.
Proof.
  induction n as [|n IH]; intros [|x s] Hn Hc; cbn [String.length] in Hn; try lia;
    try reflexivity.
  destruct (Z.ltb_spec (byte_to_Z x) utf8.RuneSelf) as [Hlt|Hge].
  { rewrite coerce_utf8_ascii by assumption. cbn [contains]. f_equal. apply IH; [lia | assumption]. }
  destruct (DecodeRune_cases x s Hge)
    as [Hd | (r & k & chunk & t & Hd & -> & Hk & _ & Henc & _)].
  - rewrite coerce_utf8_invalid by assumption. rewrite contains_append.
    cbn [contains]. rewrite (eqb_high_low x c) by assumption. cbn [orb].
    rewrite IH by (lia || assumption).
    replace (contains c (utf8.EncodeRune utf8.RuneError)) with false; [reflexivity |].
    change (utf8.EncodeRune utf8.RuneError)
      with (String "239"%char (String "191"%char (String "189"%char EmptyString))).
    cbn [contains]. unfold utf8.RuneSelf in Hc.
    rewrite !eqb_high_low by (assumption || (unfold utf8.RuneSelf; vm_compute; discriminate)).
    reflexivity.
  - rewrite (coerce_utf8_rune x chunk t r Hge) by (now rewrite Hd, Hk).
    rewrite Henc.
    change (String x (chunk +:+ t)) with (String x chunk +:+ t).
    rewrite !contains_append. f_equal. apply IH; [|assumption].
    rewrite length_append in Hn. lia.
Qed.

(** The extension of a well-formed name is well-formed. *)
Lemma well_formed_extension (name : string) :
  coerce_utf8 name = name →
  coerce_utf8 (gostrings.TrimPrefix (filepath.Ext name) ".")
  = gostrings.TrimPrefix (filepath.Ext name) ".".
Proof.
  intros Hwf.
  destruct (Ext_shape name) as [-> | (base & ext & Hn & He & Hdot & Hsep)]; [reflexivity |].
  rewrite He, TrimPrefix_dot.
  assert (H : filepath.Ext (coerce_utf8 name) = "." +:+ coerce_utf8 ext).
  { rewrite Hn at 1. change ("." +:+ ext) with (String "."%char ext).
    rewrite (coerce_utf8_cut (String.length base)) by (reflexivity || lia).
    apply (Ext_suffix (coerce_utf8 base) (coerce_utf8 ext)).
    - now rewrite (contains_coerce_utf8 _ (String.length ext)) by (reflexivity || lia).
    - now rewrite (contains_coerce_utf8 _ (String.length ext)) by (reflexivity || lia). }
  rewrite Hwf, He in H. now injection H.
Qed.

(** ** Bodies that hold no value *)

Lemma parse_value_blank (conv : bool) (f : nat) (depth : N) (s : string) :
  json_dec.skip_space s = EmptyString → json_dec.parse_value conv f depth s = None.
Proof. intros H. destruct f; cbn [json_dec.parse_value]; [reflexivity | now rewrite H]. Qed.

Lemma Unmarshal_map_blank (s : string) :
  json_dec.skip_space s = EmptyString →
  json_dec.Unmarshal_map s = inl json_dec.InvalidInput.
Proof.
  intros H. unfold json_dec.Unmarshal_map, json_dec.Unmarshal_value.
  now rewrite parse_value_blank.
Qed.

Lemma Decoder_Decode_map_blank (s : string) :
  json_dec.skip_space s = EmptyString →
  json_dec.Decoder_Decode_map s = inl json_dec.InvalidInput.
Proof. intros H. unfold json_dec.Decoder_Decode_map. now rewrite parse_value_blank. Qed.

(** What [json.Unmarshal] accepts, the decoder of the handler accepts
    and reads alike. *)
Lemma Unmarshal_map_Decoder (s : string) (m : gmap string value) :
  json_dec.Unmarshal_map s = inr m → json_dec.Decoder_Decode_map s = inr m.
Proof.
  unfold json_dec.Unmarshal_map, json_dec.Unmarshal_value, json_dec.Decoder_Decode_map.
  destruct (json_dec.parse_value _ _ _ s) as [[x rest]|]; [|discriminate].
  destruct (json_dec.skip_space rest); [tauto | discriminate].
Qed.


(** ** Numbers out of range and deep nesting *)

(** A number above the largest [float64] is an error of both decoders
    of records, alone in the record or next to the members the mapper
    reads. *)
Example number_out_of_range_is_rejected :
  json_dec.Unmarshal_map body_out_of_range = inl json_dec.InvalidInput
  ∧ json_dec.Decoder_Decode_map body_out_of_range = inl json_dec.InvalidInput
  ∧ json_dec.Unmarshal_map body_extra_out_of_range = inl json_dec.InvalidInput
  ∧ json_dec.Decoder_Decode_map body_extra_out_of_range = inl json_dec.InvalidInput.
Proof. repeat split; vm_compute; reflexivity. Qed.

(** The handler answers such a request with 400, and [consume] logs
    the mapping error of such a message and goes on: neither panics on
    the number that stands where the mapper expects a string. *)
Example out_of_range_request_gets_400 (v : videoMapper) :
  http.response (mapHandler v http.fresh
                   {| http.Header := request_headers1; http.Body := body_out_of_range |})
  = Some (400, EmptyString)
  ∧ http.response (mapHandler v http.fresh
                     {| http.Header := request_headers1;
                        http.Body := body_extra_out_of_range |})
    = Some (400, EmptyString).
Proof.
  split; now apply (response_undecodable_body v _ json_dec.InvalidInput).
Qed.

Example out_of_range_message_is_dropped (v : videoMapper) :
  consume v {| consumer.Headers := headers1; consumer.Body := body_out_of_range |}
  = ([Printf warnLogger "Mapping error: [%v]"
        [AString ("Video JSON from Brightcove couldn't be unmarshalled. Skipping invalid JSON: "
                  +:+ body_out_of_range)]],
     Returns tt).
Proof. vm_compute. reflexivity. Qed.

(** The largest [float64] is in range: the record is decoded and the
    request is answered as the scenario's. *)
Example largest_float64_is_accepted (v : videoMapper) :
  json_dec.Decoder_Decode_map body_extra_largest
  = inr (<["views" := VFloat64 "1.7976931348623157e308"]> record1)
  ∧ http.response (mapHandler v http.fresh
                     {| http.Header := request_headers1; http.Body := body_extra_largest |})
    = Some (200, encode event1).
Proof. split; vm_compute; reflexivity. Qed.

(** Where [ParseFloat] draws the line: the decimals that round to the
    largest [float64] are in range, the threshold and what is above it
    are not; a zero with a large exponent and a number that rounds to
    zero are in range. *)
Example overflows_at_the_threshold :
  strconv.overflows "1.7976931348623158e308" = false
  ∧ strconv.overflows "1.7976931348623159e308" = true
  ∧ strconv.overflows "-1e309" = true
  ∧ strconv.overflows "0.0001e312" = false
  ∧ strconv.overflows "0.0001e313" = true
  ∧ strconv.overflows "0e999" = false
  ∧ strconv.overflows "1e-999" = false.
Proof. repeat split; vm_compute; reflexivity. Qed.

(** A decoder that stores into a struct skips the members the struct
    has no field for, and converts no number of theirs. *)
Example struct_decoding_skips_numbers :
  Unmarshal_payload (json_text "{'uuid':'u','n':1e999}")
  = Some {| UUID := "u"; Identifiers := []; PublishedDate := EmptyString;
            MediaType := EmptyString; PublishReference := EmptyString;
            LastModified := EmptyString |}.
Proof. vm_compute. reflexivity. Qed.

(** Ten thousand arrays and objects may be open at a time: the object
    of a record and 9999 arrays in it are decoded, one array more is
    an error, and the handler answers it with 400. *)
Example nesting_is_limited (v : videoMapper) :
  (∃ m, json_dec.Decoder_Decode_map (body_nested (N.to_nat 9999)) = inr m)
  ∧ json_dec.Decoder_Decode_map (body_nested (N.to_nat 10000)) = inl json_dec.InvalidInput
  ∧ json_dec.Unmarshal_map (body_nested (N.to_nat 10000)) = inl json_dec.InvalidInput
  ∧ http.response (mapHandler v http.fresh
                     {| http.Header := request_headers1;
                        http.Body := body_nested (N.to_nat 10000) |})
    = Some (400, EmptyString).
Proof.
  assert (H : json_dec.Decoder_Decode_map (body_nested (N.to_nat 10000))
              = inl json_dec.InvalidInput) by (vm_compute; reflexivity).
  split; [|split; [|split]].
  - destruct (json_dec.Decoder_Decode_map (body_nested (N.to_nat 9999))) as [e|m] eqn:Hd.
    + vm_compute in Hd. discriminate.
    + now exists m.
  - exact H.
  - vm_compute. reflexivity.
  - now apply (response_undecodable_body v _ json_dec.InvalidInput).
Qed.

(** ** What a reader of the mapper's bytes gets *)

Lemma coerce_utf8_ascii_prefix (a X : string) :
  is_ascii a = true → coerce_utf8 (a +:+ X) = a +:+ coerce_utf8 X.
Proof. intros H. now apply stable_ascii. Qed.

(** The bytes the mapper returns decode to an event and a payload that
    hold the record's four strings and the two header values, each as
    the round trip leaves it. *)
Lemma mapper_output_decodes v m r l out :
  result_of (mapBrightcoveVideo v m r l) = Returns (Ok out) →
  ∃ uuid id d name e,
    index m "uuid" = VString uuid ∧ index m "id" = VString id
    ∧ index m "updated_at" = VString d ∧ index m "name" = VString name
    ∧ Unmarshal_publicationEvent out = Some e
    ∧ event.ContentUri e = videoContentUriBase +:+ coerce_utf8 uuid
    ∧ event.LastModified e = coerce_utf8 l
    ∧ Unmarshal_payload (event.Payload e) = Some
        {| UUID := coerce_utf8 uuid;
           Identifiers := [ {| Authority := brigthcoveAuthority;
                               IdentifierValue := coerce_utf8 id |} ];
           PublishedDate := coerce_utf8 d;
           MediaType := viodeMediaTypeBase
                        +:+ coerce_utf8 (gostrings.TrimPrefix (filepath.Ext name) ".");
           PublishReference := coerce_utf8 r;
           LastModified := coerce_utf8 l |}.
Proof.
  intros (uuid & id & d & name & Hu & _ & Hi & _ & Hd & _ & Hn & ->)%mapBrightcoveVideo_Ok_inv.
  eexists uuid, id, d, name, _. repeat (split; [eassumption |]).
  split; [apply Unmarshal_encode_event |].
  cbn [coerce_event event.Payload event.ContentUri event.LastModified].
  split; [now apply coerce_utf8_ascii_prefix |]. split; [reflexivity |].
  rewrite coerce_encode_payload, Unmarshal_encode_payload.
  unfold coerce_payload, coerce_identifier.
  cbn [UUID Identifiers PublishedDate MediaType PublishReference LastModified
       Authority IdentifierValue map].
  rewrite (coerce_utf8_ascii_prefix viodeMediaTypeBase) by reflexivity.
  replace (coerce_utf8 brigthcoveAuthority) with brigthcoveAuthority
    by (symmetry; apply stable_well_formed, stable_ascii; reflexivity).
  reflexivity.
Qed.

(** X7: when the mapper returns bytes, the payload they decode to has
    exactly one identifier: its authority is the Brightcove authority
    and its value is the record's id (as the round trip leaves it). *)
Theorem emitted_payload_has_one_brightcove_identifier v m r l out :
  result_of (mapBrightcoveVideo v m r l) = Returns (Ok out) →
  ∃ e p id,
    Unmarshal_publicationEvent out = Some e
    ∧ Unmarshal_payload (event.Payload e) = Some p
    ∧ index m "id" = VString id
    ∧ Identifiers p = [ {| Authority := "http://api.ft.com/system/BRIGHTCOVE";
                           IdentifierValue := coerce_utf8 id |} ].
Proof.
  intros (uuid & id & d & name & e & _ & Hi & _ & _ & He & _ & _ & Hp)%mapper_output_decodes.
  eexists e, _, id. repeat split; eassumption || reflexivity.
Qed.

Lemma emitted_payload_has_one_brightcove_identifier_witness :
  ∃ e p id,
    Unmarshal_publicationEvent (encode event1) = Some e
    ∧ Unmarshal_payload (event.Payload e) = Some p
    ∧ index record1 "id" = VString id
    ∧ Identifiers p = [ {| Authority := "http://api.ft.com/system/BRIGHTCOVE";
                           IdentifierValue := coerce_utf8 id |} ].
Proof.
  apply (emitted_payload_has_one_brightcove_identifier v0 record1 "req-1" "ts-1").
  vm_compute. reflexivity.
Defined.

(** X8: when the mapper returns bytes, the media type of the payload
    they decode to is video/ followed by an extension that holds
    neither a slash nor a dot, whatever the record's name is. *)
Theorem emitted_mediaType_has_one_slash v m r l out :
  result_of (mapBrightcoveVideo v m r l) = Returns (Ok out) →
  ∃ e p ext,
    Unmarshal_publicationEvent out = Some e
    ∧ Unmarshal_payload (event.Payload e) = Some p
    ∧ MediaType p = "video/" +:+ ext
    ∧ contains "/"%char ext = false
    ∧ contains "."%char ext = false.
Proof.
  intros (uuid & id & d & name & e & _ & _ & _ & _ & He & _ & _ & Hp)%mapper_output_decodes.
  eexists e, _, _. split; [eassumption |]. split; [eassumption |].
  cbn [MediaType]. split; [reflexivity |].
  destruct (Ext_shape name) as [-> | (base & ext & _ & -> & Hdot & Hsep)];
    [split; reflexivity |].
  rewrite TrimPrefix_dot.
  split; rewrite (contains_coerce_utf8 _ _ _ (Nat.le_refl _)) by reflexivity; assumption.
Qed.

Lemma emitted_mediaType_has_one_slash_witness :
  ∃ e p ext,
    Unmarshal_publicationEvent (encode event1) = Some e
    ∧ Unmarshal_payload (event.Payload e) = Some p
    ∧ MediaType p = "video/" +:+ ext
    ∧ contains "/"%char ext = false
    ∧ contains "."%char ext = false.
Proof.
  apply (emitted_mediaType_has_one_slash v0 record1 "req-1" "ts-1").
  vm_compute. reflexivity.
Defined.

(** X9: when the mapper returns bytes, the event and the payload they
    decode to carry the same lastModified, the timestamp passed in, and
    the payload's publishReference is the publish reference passed in
    (each as the round trip leaves it). *)
Theorem emitted_lastModified_agree v m r l out :
  result_of (mapBrightcoveVideo v m r l) = Returns (Ok out) →
  ∃ e p,
    Unmarshal_publicationEvent out = Some e
    ∧ Unmarshal_payload (event.Payload e) = Some p
    ∧ event.LastModified e = LastModified p
    ∧ LastModified p = coerce_utf8 l
    ∧ PublishReference p = coerce_utf8 r.
Proof.
  intros (uuid & id & d & name & e & _ & _ & _ & _ & He & _ & Hl & Hp)%mapper_output_decodes.
  eexists e, _. repeat split; eassumption || reflexivity.
Qed.

Lemma emitted_lastModified_agree_witness :
  ∃ e p,
    Unmarshal_publicationEvent (encode event1) = Some e
    ∧ Unmarshal_payload (event.Payload e) = Some p
    ∧ event.LastModified e = LastModified p
    ∧ LastModified p = coerce_utf8 "ts-1"
    ∧ PublishReference p = coerce_utf8 "req-1".
Proof.
  apply (emitted_lastModified_agree v0 record1 "req-1" "ts-1").
  vm_compute. reflexivity.
Defined.

(** ** The round trip of the two types *)

(** X10: [json.Marshal] of a payload, with any number of identifiers,
    returns bytes, and decoding them with the struct's tags gives the
    payload back, each string well-formed UTF-8 being kept and every
    other byte replaced by U+FFFD. *)
Theorem marshalled_payload_round_trip (p : payload) :
  ∃ b, json.Marshal p = Ok b ∧ Unmarshal_payload b = Some (coerce_payload p).
Proof. eexists. split; [reflexivity | apply Unmarshal_encode_payload]. Qed.

(** X11: the payload text put into an event survives the outer
    encoding byte for byte: decoding the event gives back exactly the
    bytes [json.Marshal] wrote for the payload, and they decode to the
    payload. *)
Theorem embedded_payload_survives (p : payload) (contentUri lastModified : string) :
  ∃ b e,
    json.Marshal {| event.ContentUri := contentUri;
                    event.Payload := encode p;
                    event.LastModified := lastModified |} = Ok b
    ∧ Unmarshal_publicationEvent b = Some e
    ∧ event.Payload e = encode p
    ∧ Unmarshal_payload (event.Payload e) = Some (coerce_payload p).
Proof.
  eexists _, _. split; [reflexivity |]. split; [apply Unmarshal_encode_event |].
  cbn [coerce_event event.Payload]. rewrite coerce_encode_payload.
  split; [reflexivity | apply Unmarshal_encode_payload].
Qed.


(** ** Records that were decoded from JSON *)

Lemma Unmarshal_map_wf (body : string) (m : gmap string value) :
  json_dec.Unmarshal_map body = inr m → wf_strings m.
Proof. intros H. now apply (Decoder_Decode_map_wf body), Unmarshal_map_Decoder. Qed.

Lemma wf_strings_index (m : gmap string value) (k s : string) :
  wf_strings m → index m k = VString s → coerce_utf8 s = s.
Proof. intros Hm H%index_lookup. now apply stable_well_formed, (Hm k). Qed.

(** On a record of well-formed strings the round trip changes nothing
    but, at most, the two header values. *)
Lemma mapper_output_exact v m r l out :
  wf_strings m →
  result_of (mapBrightcoveVideo v m r l) = Returns (Ok out) →
  ∃ uuid id d name e,
    index m "uuid" = VString uuid ∧ index m "id" = VString id
    ∧ index m "updated_at" = VString d ∧ index m "name" = VString name
    ∧ Unmarshal_publicationEvent out = Some e
    ∧ event.ContentUri e = videoContentUriBase +:+ uuid
    ∧ event.LastModified e = coerce_utf8 l
    ∧ Unmarshal_payload (event.Payload e) = Some
        {| UUID := uuid;
           Identifiers := [ {| Authority := brigthcoveAuthority; IdentifierValue := id |} ];
           PublishedDate := d;
           MediaType := viodeMediaTypeBase +:+ gostrings.TrimPrefix (filepath.Ext name) ".";
           PublishReference := coerce_utf8 r;
           LastModified := coerce_utf8 l |}.
Proof.
  intros Hm (uuid & id & d & name & e & Hu & Hi & Hd & Hn & He & Hc & Hl & Hp)
            %mapper_output_decodes.
  exists uuid, id, d, name, e. repeat (split; [assumption |]).
  rewrite (wf_strings_index m "uuid" uuid Hm Hu) in Hc, Hp.
  rewrite (wf_strings_index m "id" id Hm Hi) in Hp.
  rewrite (wf_strings_index m "updated_at" d Hm Hd) in Hp.
  rewrite (well_formed_extension name (wf_strings_index m "name" name Hm Hn)) in Hp.
  repeat split; assumption.
Qed.

(** X12: every string member of a record decoded from a body, by
    [json.Unmarshal] or by the handler's decoder, is well-formed
    UTF-8: a further round trip leaves it as it is. *)
Theorem decoded_strings_are_well_formed (body : string) (m : gmap string value)
    (k s : string) :
  json_dec.Unmarshal_map body = inr m ∨ json_dec.Decoder_Decode_map body = inr m →
  index m k = VString s →
  coerce_utf8 s = s.
Proof.
  intros [H%Unmarshal_map_wf | H%Decoder_Decode_map_wf]; now apply wf_strings_index.
Qed.

Lemma decoded_strings_are_well_formed_witness : coerce_utf8 "abc-1" = "abc-1".
Proof.
  apply (decoded_strings_are_well_formed body1 record1 "uuid" "abc-1").
  - left. vm_compute. reflexivity.
  - reflexivity.
Defined.

(** ** The broker path, outcome by outcome *)

Lemma mapMessage_run v m :
  (∃ e, json_dec.Unmarshal_map (consumer.Body m) = inl e
        ∧ mapMessage v m = ([], Returns (Err (errors.New
            ("Video JSON from Brightcove couldn't be unmarshalled. Skipping invalid JSON: "
             +:+ consumer.Body m)))))
  ∨ ∃ rec, json_dec.Unmarshal_map (consumer.Body m) = inr rec ∧
      ((header (consumer.Headers m) "X-Request-Id" = EmptyString
        ∧ mapMessage v m = ([], Returns (Err (errors.New
            "X-Request-Id not found in kafka message headers. Skipping message."))))
       ∨ header (consumer.Headers m) "X-Request-Id" ≠ EmptyString ∧
         ((header (consumer.Headers m) "Message-Timestamp" = EmptyString
           ∧ mapMessage v m = ([], Returns (Err (errors.New
               "Message-Timestamp not found in kafka message headers. Skipping message."))))
          ∨ (header (consumer.Headers m) "Message-Timestamp" ≠ EmptyString
             ∧ mapMessage v m
               = mapBrightcoveVideo v rec (header (consumer.Headers m) "X-Request-Id")
                   (header (consumer.Headers m) "Message-Timestamp")))).
Proof.
  unfold mapMessage. destruct (json_dec.Unmarshal_map _) as [e|rec]; [left; eauto |].
  right. exists rec. split; [reflexivity |].
  case_decide; [left; now split | right; split; [assumption |]].
  case_decide; [left; now split | right; now split].
Qed.

#[local] Ltac message_run v m :=
  destruct (mapMessage_run v m)
    as [(err & Hbody & Hrun) | (rec & Hbody & [[Href Hrun] | [Href [[Hts Hrun] | [Hts Hrun]]]])].

(** A message that is rejected leaves no log line behind in [mapMessage]. *)
Lemma mapMessage_error_trace v m e :
  result_of (mapMessage v m) = Returns (Err e) → mapMessage v m = ([], Returns (Err e)).
Proof.
  message_run v m; rewrite Hrun; cbn [result_of snd]; try (now intros [= <-]).
  destruct (mapBrightcoveVideo_cases v rec (header (consumer.Headers m) "X-Request-Id")
              (header (consumer.Headers m) "Message-Timestamp"))
    as [[p ->] | [(err & -> & _) | (uuid & id & d & name & _ & _ & _ & _ & _ & _ & _ & ->)]];
    cbn [snd]; try discriminate.
  now intros [= <-].
Qed.

(** X13: a body that is empty or holds white space only is rejected
    on both paths, whatever the headers are: [mapMessage] returns its
    unmarshalling error without a log line, the handler answers 400
    with an empty body. *)
Theorem blank_body_is_rejected (v : videoMapper) (body : string)
    (h : gmap string string) (h' : gmap string (list string)) :
  json_dec.skip_space body = EmptyString →
  mapMessage v {| consumer.Headers := h; consumer.Body := body |}
  = ([], Returns (Err (errors.New
       ("Video JSON from Brightcove couldn't be unmarshalled. Skipping invalid JSON: "
        +:+ body))))
  ∧ http.response (mapHandler v http.fresh {| http.Header := h'; http.Body := body |})
    = Some (400, EmptyString).
Proof.
  intros H. split.
  - unfold mapMessage. cbn [consumer.Body]. now rewrite Unmarshal_map_blank.
  - apply (response_undecodable_body v _ json_dec.InvalidInput).
    now apply Decoder_Decode_map_blank.
Qed.

Lemma blank_body_is_rejected_witness :
  mapMessage v0 {| consumer.Headers := headers1; consumer.Body := " " |}
  = ([], Returns (Err (errors.New
       ("Video JSON from Brightcove couldn't be unmarshalled. Skipping invalid JSON: "
        +:+ " "))))
  ∧ http.response (mapHandler v0 http.fresh
                     {| http.Header := request_headers1; http.Body := " " |})
    = Some (400, EmptyString).
Proof. apply (blank_body_is_rejected v0 " " headers1 request_headers1). reflexivity. Defined.

(** X14: [consume] panics exactly when the message is of Brightcove
    origin, carries both headers, its body decodes to a record, and
    the mapper reaches an unchecked assertion on a member of it that
    holds no string; an undecodable body or a missing header never
    makes it panic. *)
Theorem consume_panics_iff v m p :
  result_of (consume v m) = Panics p
  ↔ header (consumer.Headers m) "Origin-System-Id" = brightcoveOrigin
    ∧ header (consumer.Headers m) "X-Request-Id" ≠ EmptyString
    ∧ header (consumer.Headers m) "Message-Timestamp" ≠ EmptyString
    ∧ ∃ rec k,
        json_dec.Unmarshal_map (consumer.Body m) = inr rec
        ∧ failing_assertion rec k
        ∧ p = TypeAssertionError (dynamic_type (index rec k)) "string".
Proof.
  unfold consume. case_decide as Ho.
  { cbn [result_of snd mret M_ret]. split; [discriminate | tauto]. }
  assert (Hc : ∀ X : M (result string),
    result_of (r ← X;
      match r with
      | Err err => logger_Printf warnLogger "Mapping error: [%v]" [AString (Error err)]
      | Ok b => logger_Printf infoLogger "Sending %v" [ABytes b]
      end) = Panics p ↔ result_of X = Panics p).
  { intros [t [[b|e]|q]]; cbn [mbind M_bind logger_Printf emit result_of snd];
      split; intros [=]; subst; reflexivity. }
  rewrite Hc. clear Hc.
  message_run v m; rewrite Hrun.
  1-3: cbn [result_of snd]; split; [discriminate |];
       intros (_ & Hr & Ht & rec' & k & Hb & _); congruence.
  unfold failing_assertion.
  mapper_run v rec (header (consumer.Headers m) "X-Request-Id")
    (header (consumer.Headers m) "Message-Timestamp");
    cbn [result_of snd]; split;
    try (intros [= <-]; repeat (split; [assumption |]); exists rec; eexists;
         split; [assumption |]; split; [split; [eassumption | tauto] | reflexivity]);
    try discriminate;
    intros (_ & _ & _ & rec' & k & Hb & (Hk & Hcase) & ->);
    rewrite Hbody in Hb; injection Hb as <-;
    destruct Hcase as [-> | [(-> & ?) | [(-> & ? & ?) | (-> & ? & ? & ?)]]];
    try reflexivity; absurd_string.
Qed.

(** X15: a message of Brightcove origin that [mapMessage] rejects is
    dropped: [consume] writes one warning that carries the text of the
    error, writes nothing else and returns. *)
Theorem consume_warns_and_drops_rejected v m e :
  header (consumer.Headers m) "Origin-System-Id" = brightcoveOrigin →
  result_of (mapMessage v m) = Returns (Err e) →
  consume v m
  = ([Printf warnLogger "Mapping error: [%v]" [AString (Error e)]], Returns tt).
Proof.
  intros Ho He%mapMessage_error_trace.
  now rewrite (consume_logs v m [] (Err e) Ho He).
Qed.

Lemma consume_warns_and_drops_rejected_witness :
  consume v0 {| consumer.Headers := headers1; consumer.Body := "[1]" |}
  = ([Printf warnLogger "Mapping error: [%v]"
        [AString (Error (errors.New
           ("Video JSON from Brightcove couldn't be unmarshalled. Skipping invalid JSON: "
            +:+ "[1]")))]],
     Returns tt).
Proof.
  apply (consume_warns_and_drops_rejected v0
           {| consumer.Headers := headers1; consumer.Body := "[1]" |});
    vm_compute; reflexivity.
Defined.

(** X16: all [consume] ever does is write log lines, two at most:
    nothing, or one warning about a mapping error, or the line that
    announces the sending, alone or after the mapper's warning about
    the name.  It sends nothing and never writes to the error log. *)
Theorem consume_only_logs v m :
  trace (consume v m) = []
  ∨ (∃ e, trace (consume v m)
          = [Printf warnLogger "Mapping error: [%v]" [AString (Error e)]])
  ∨ (∃ out, trace (consume v m) = [Printf infoLogger "Sending %v" [ABytes out]]
            ∨ trace (consume v m)
              = [name_warning; Printf infoLogger "Sending %v" [ABytes out]]).
Proof.
  unfold consume. case_decide as Ho; [now left |].
  message_run v m; rewrite Hrun.
  1-3: right; left; eexists; reflexivity.
  mapper_run v rec (header (consumer.Headers m) "X-Request-Id")
    (header (consumer.Headers m) "Message-Timestamp");
    try (now left); try (right; left; eexists; reflexivity).
  right; right. exists out.
  destruct (decide (name = EmptyString)); [now right | now left].
Qed.

(** A message is mapped when its body decodes, both headers are there
    and the mapper returns bytes for the decoded record. *)
Lemma mapMessage_Ok_inv v m out :
  result_of (mapMessage v m) = Returns (Ok out) →
  ∃ rec,
    json_dec.Unmarshal_map (consumer.Body m) = inr rec
    ∧ result_of (mapBrightcoveVideo v rec (header (consumer.Headers m) "X-Request-Id")
                   (header (consumer.Headers m) "Message-Timestamp"))
      = Returns (Ok out).
Proof.
  message_run v m; rewrite Hrun; try discriminate. intros H. now exists rec.
Qed.

(** X17: when [mapMessage] returns bytes, they decode to an event and
    a payload that hold the uuid, the id, the updated_at and the
    extension of the name of the decoded body exactly as they are, the
    base URI and the Brightcove authority, and the two header values
    (as the round trip leaves them). *)
Theorem broker_output_carries_the_record v m out :
  result_of (mapMessage v m) = Returns (Ok out) →
  ∃ rec uuid id d name e,
    json_dec.Unmarshal_map (consumer.Body m) = inr rec
    ∧ index rec "uuid" = VString uuid ∧ index rec "id" = VString id
    ∧ index rec "updated_at" = VString d ∧ index rec "name" = VString name
    ∧ Unmarshal_publicationEvent out = Some e
    ∧ event.ContentUri e = videoContentUriBase +:+ uuid
    ∧ event.LastModified e = coerce_utf8 (header (consumer.Headers m) "Message-Timestamp")
    ∧ Unmarshal_payload (event.Payload e) = Some
        {| UUID := uuid;
           Identifiers := [ {| Authority := brigthcoveAuthority; IdentifierValue := id |} ];
           PublishedDate := d;
           MediaType := viodeMediaTypeBase +:+ gostrings.TrimPrefix (filepath.Ext name) ".";
           PublishReference := coerce_utf8 (header (consumer.Headers m) "X-Request-Id");
           LastModified := coerce_utf8 (header (consumer.Headers m) "Message-Timestamp") |}.
Proof.
  intros (rec & Hbody & (uuid & id & d & name & e & H)%mapper_output_exact)%mapMessage_Ok_inv;
    [|now apply (Unmarshal_map_wf (consumer.Body m))].
  exists rec, uuid, id, d, name, e. split; assumption.
Qed.

Lemma broker_output_carries_the_record_witness :
  ∃ rec uuid id d name e,
    json_dec.Unmarshal_map (consumer.Body message1) = inr rec
    ∧ index rec "uuid" = VString uuid ∧ index rec "id" = VString id
    ∧ index rec "updated_at" = VString d ∧ index rec "name" = VString name
    ∧ Unmarshal_publicationEvent (encode event1) = Some e
    ∧ event.ContentUri e = videoContentUriBase +:+ uuid
    ∧ event.LastModified e
      = coerce_utf8 (header (consumer.Headers message1) "Message-Timestamp")
    ∧ Unmarshal_payload (event.Payload e) = Some
        {| UUID := uuid;
           Identifiers := [ {| Authority := brigthcoveAuthority; IdentifierValue := id |} ];
           PublishedDate := d;
           MediaType := viodeMediaTypeBase +:+ gostrings.TrimPrefix (filepath.Ext name) ".";
           PublishReference := coerce_utf8 (header (consumer.Headers message1) "X-Request-Id");
           LastModified
             := coerce_utf8 (header (consumer.Headers message1) "Message-Timestamp") |}.
Proof.
  apply (broker_output_carries_the_record v0 message1 (encode event1)).
  vm_compute. reflexivity.
Defined.

(** ** The HTTP path, outcome by outcome *)

Lemma mapHandler_run v w r :
  (∃ e, json_dec.Decoder_Decode_map (http.Body r) = inl e
        ∧ mapHandler v w r = ([], Returns (http.WriteHeader http.StatusBadRequest w)))
  ∨ ∃ rec, json_dec.Decoder_Decode_map (http.Body r) = inr rec ∧
      ((http.Header_Get (http.Header r) "X-Request-Id" = EmptyString
        ∧ mapHandler v w r
          = ([Printf warnLogger
                "X-Request-Id not found in kafka message headers. Skipping message." []],
             Returns w))
       ∨ http.Header_Get (http.Header r) "X-Request-Id" ≠ EmptyString ∧
         ((http.Header_Get (http.Header r) "Message-Timestamp" = EmptyString
           ∧ mapHandler v w r
             = ([Printf warnLogger
                   "Message-Timestamp not found in kafka message headers. Skipping message." []],
                Returns w))
          ∨ (http.Header_Get (http.Header r) "Message-Timestamp" ≠ EmptyString
             ∧ mapHandler v w r
               = (res ← mapBrightcoveVideo v rec
                          (http.Header_Get (http.Header r) "X-Request-Id")
                          (http.Header_Get (http.Header r) "Message-Timestamp");
                  match res with
                  | Err _ => mret (http.WriteHeader http.StatusBadRequest w)
                  | Ok b => mret (http.Write b w)
                  end)))).
Proof.
  unfold mapHandler. destruct (json_dec.Decoder_Decode_map _) as [e|rec]; [left; eauto |].
  right. exists rec. split; [reflexivity |].
  case_decide; [left; now split | right; split; [assumption |]].
  case_decide; [left; now split | right; now split].
Qed.

#[local] Ltac handler_run v w r :=
  destruct (mapHandler_run v w r)
    as [(err & Hbody & Hrun) | (rec & Hbody & [[Href Hrun] | [Href [[Hts Hrun] | [Hts Hrun]]]])].

(** X18: a request whose body decodes but which lacks X-Request-Id or
    Message-Timestamp (or has it empty) is not mapped: the handler
    writes one warning and leaves the response untouched, so that the
    client gets status 200 and an empty body. *)
Theorem request_without_header_gets_empty_200 v r m :
  json_dec.Decoder_Decode_map (http.Body r) = inr m →
  http.Header_Get (http.Header r) "X-Request-Id" = EmptyString
  ∨ http.Header_Get (http.Header r) "Message-Timestamp" = EmptyString →
  http.response (mapHandler v http.fresh r) = Some (200, EmptyString)
  ∧ ∃ text, mapHandler v http.fresh r = ([Printf warnLogger text []], Returns http.fresh).
Proof.
  intros Hrec Hmissing.
  handler_run v http.fresh r; rewrite Hrun; try congruence; try tauto;
    (split; [reflexivity | eexists; reflexivity]).
Qed.

Lemma request_without_header_gets_empty_200_witness :
  http.response (mapHandler v0 http.fresh {| http.Header := ∅; http.Body := "{}" |})
  = Some (200, EmptyString)
  ∧ ∃ text, mapHandler v0 http.fresh {| http.Header := ∅; http.Body := "{}" |}
            = ([Printf warnLogger text []], Returns http.fresh).
Proof.
  apply (request_without_header_gets_empty_200 v0
           {| http.Header := ∅; http.Body := "{}" |} ∅).
  - vm_compute. reflexivity.
  - left. reflexivity.
Defined.

(** X19: the client gets no response exactly when both headers are
    there, the body decodes to a record, and the mapper reaches an
    unchecked assertion on a member of it that holds no string. *)
Theorem handler_panics_iff v w r :
  http.response (mapHandler v w r) = None
  ↔ http.Header_Get (http.Header r) "X-Request-Id" ≠ EmptyString
    ∧ http.Header_Get (http.Header r) "Message-Timestamp" ≠ EmptyString
    ∧ ∃ rec k,
        json_dec.Decoder_Decode_map (http.Body r) = inr rec
        ∧ failing_assertion rec k.
Proof.
  handler_run v w r; rewrite Hrun.
  1-3: cbn [http.response result_of snd]; split; [discriminate |];
       intros (Hr & Ht & rec' & k & Hb & _); congruence.
  unfold failing_assertion.
  mapper_run v rec (http.Header_Get (http.Header r) "X-Request-Id")
    (http.Header_Get (http.Header r) "Message-Timestamp");
    cbn [http.response result_of snd mbind M_bind mret M_ret]; split;
    try (intros _; repeat (split; [assumption |]); exists rec; eexists;
         split; [assumption |]; split; [eassumption | tauto]);
    try discriminate; try reflexivity;
    intros (_ & _ & rec' & k & Hb & Hk & Hcase);
    rewrite Hbody in Hb; injection Hb as <-;
    destruct Hcase as [-> | [(-> & ?) | [(-> & ? & ?) | (-> & ? & ? & ?)]]];
    absurd_string.
Qed.

(** X20: the handler answers 400 exactly when the body does not
    decode, or when it decodes, both headers are there and the mapper
    returns an error; the body of a 400 response is empty. *)
Theorem handler_answers_400_iff v r b :
  http.response (mapHandler v http.fresh r) = Some (400, b)
  ↔ b = EmptyString
    ∧ ((∃ e, json_dec.Decoder_Decode_map (http.Body r) = inl e)
       ∨ ∃ rec e,
           json_dec.Decoder_Decode_map (http.Body r) = inr rec
           ∧ http.Header_Get (http.Header r) "X-Request-Id" ≠ EmptyString
           ∧ http.Header_Get (http.Header r) "Message-Timestamp" ≠ EmptyString
           ∧ result_of (mapBrightcoveVideo v rec
                          (http.Header_Get (http.Header r) "X-Request-Id")
                          (http.Header_Get (http.Header r) "Message-Timestamp"))
             = Returns (Err e)).
Proof.
  handler_run v http.fresh r; rewrite Hrun.
  - cbn. split; [intros [= <-]; split; [reflexivity | left; eauto] | now intros [-> _]].
  - cbn. split; [discriminate |].
    intros (_ & [[e He] | (rec' & e & _ & Hr & _)]); congruence.
  - cbn. split; [discriminate |].
    intros (_ & [[e He] | (rec' & e & _ & _ & Ht & _)]); congruence.
  - destruct (mapBrightcoveVideo v rec _ _) as [t [[out|e]|p]] eqn:Hm;
      cbn [http.response result_of snd mbind M_bind mret M_ret http.WriteHeader http.Write
           http.status http.written http.fresh default from_option id].
    + split; [discriminate |].
      intros (_ & [[e He] | (rec' & e & Hb & _ & _ & He)]); [congruence |].
      rewrite Hbody in Hb. injection Hb as <-. rewrite Hm in He. discriminate.
    + split; [intros [= <-] | now intros [-> _]].
      split; [reflexivity |]. right. exists rec, e. rewrite Hm. now repeat split.
    + split; [discriminate |].
      intros (_ & [[e He] | (rec' & e & Hb & _ & _ & He)]); [congruence |].
      rewrite Hbody in Hb. injection Hb as <-. rewrite Hm in He. discriminate.
Qed.

(** X21: a response with a body has status 200, and its body decodes
    to an event and a payload that hold the uuid, the id, the
    updated_at and the extension of the name of the decoded request
    body exactly as they are, with the two header values (as the round
    trip leaves them). *)
Theorem response_body_carries_the_record v r st b :
  http.response (mapHandler v http.fresh r) = Some (st, b) →
  b ≠ EmptyString →
  st = 200
  ∧ ∃ rec uuid id d name e,
      json_dec.Decoder_Decode_map (http.Body r) = inr rec
      ∧ index rec "uuid" = VString uuid ∧ index rec "id" = VString id
      ∧ index rec "updated_at" = VString d ∧ index rec "name" = VString name
      ∧ Unmarshal_publicationEvent b = Some e
      ∧ event.ContentUri e = videoContentUriBase +:+ uuid
      ∧ event.LastModified e
        = coerce_utf8 (http.Header_Get (http.Header r) "Message-Timestamp")
      ∧ Unmarshal_payload (event.Payload e) = Some
          {| UUID := uuid;
             Identifiers := [ {| Authority := brigthcoveAuthority; IdentifierValue := id |} ];
             PublishedDate := d;
             MediaType := viodeMediaTypeBase +:+ gostrings.TrimPrefix (filepath.Ext name) ".";
             PublishReference
               := coerce_utf8 (http.Header_Get (http.Header r) "X-Request-Id");
             LastModified
               := coerce_utf8 (http.Header_Get (http.Header r) "Message-Timestamp") |}.
Proof.
  handler_run v http.fresh r; rewrite Hrun.
  1-3: cbn; intros [= <- <-] Hb; now destruct Hb.
  destruct (mapBrightcoveVideo v rec _ _) as [t [[out|e]|p]] eqn:Hm;
    cbn [http.response result_of snd mbind M_bind mret M_ret http.WriteHeader http.Write
         http.status http.written http.fresh default from_option id];
    [| intros [= <- <-] Hb; now destruct Hb | discriminate].
  intros [= <- <-] _. split; [reflexivity |].
  apply (f_equal result_of) in Hm. cbn [result_of snd] in Hm.
  apply mapper_output_exact in Hm as (uuid & id & d & name & e & H);
    [|now apply (Decoder_Decode_map_wf (http.Body r))].
  exists rec, uuid, id, d, name, e. split; assumption.
Qed.

Lemma response_body_carries_the_record_witness :
  200 = 200
  ∧ ∃ rec uuid id d name e,
      json_dec.Decoder_Decode_map (http.Body request1) = inr rec
      ∧ index rec "uuid" = VString uuid ∧ index rec "id" = VString id
      ∧ index rec "updated_at" = VString d ∧ index rec "name" = VString name
      ∧ Unmarshal_publicationEvent (encode event1) = Some e
      ∧ event.ContentUri e = videoContentUriBase +:+ uuid
      ∧ event.LastModified e
        = coerce_utf8 (http.Header_Get (http.Header request1) "Message-Timestamp")
      ∧ Unmarshal_payload (event.Payload e) = Some
          {| UUID := uuid;
             Identifiers := [ {| Authority := brigthcoveAuthority; IdentifierValue := id |} ];
             PublishedDate := d;
             MediaType := viodeMediaTypeBase +:+ gostrings.TrimPrefix (filepath.Ext name) ".";
             PublishReference
               := coerce_utf8 (http.Header_Get (http.Header request1) "X-Request-Id");
             LastModified
               := coerce_utf8 (http.Header_Get (http.Header request1) "Message-Timestamp") |}.
Proof.
  apply (response_body_carries_the_record v0 request1 200 (encode event1)).
  - vm_compute. reflexivity.
  - vm_compute. discriminate.
Defined.

(** X22: what the broker path maps, the HTTP path maps alike: for the
    same body and the same two header values, the bytes [mapMessage]
    returns are the body of the handler's 200 response. *)
Theorem http_and_broker_paths_agree v m r out :
  http.Body r = consumer.Body m →
  http.Header_Get (http.Header r) "X-Request-Id"
    = header (consumer.Headers m) "X-Request-Id" →
  http.Header_Get (http.Header r) "Message-Timestamp"
    = header (consumer.Headers m) "Message-Timestamp" →
  result_of (mapMessage v m) = Returns (Ok out) →
  http.response (mapHandler v http.fresh r) = Some (200, out).
Proof.
  intros Hb Hr Ht.
  message_run v m; rewrite Hrun; try discriminate.
  intros Hout.
  destruct (mapBrightcoveVideo v rec _ _) as [t res] eqn:Hm.
  cbn [result_of snd] in Hout. subst res.
  apply (response_mapped v r rec) with (t := t).
  - rewrite Hb. now apply Unmarshal_map_Decoder.
  - now rewrite Hr.
  - now rewrite Ht.
  - now rewrite Hr, Ht.
Qed.

Lemma http_and_broker_paths_agree_witness :
  http.response (mapHandler v0 http.fresh request1) = Some (200, encode event1).
Proof.
  apply (http_and_broker_paths_agree v0 message1 request1 (encode event1));
    vm_compute; reflexivity.
Defined.

(** ** What follows a value does not change how it is read *)

Lemma skip_space_append (a b : string) :
  json_dec.skip_space a ≠ EmptyString →
  json_dec.skip_space (a +:+ b) = json_dec.skip_space a +:+ b.
Proof.
  induction a as [|c a IH]; cbn [append json_dec.skip_space]; [congruence |].
  destruct (json_dec.isSpace c); [exact IH | reflexivity].
Qed.

Lemma skip_space_append_blank (a b : string) :
  json_dec.skip_space a = EmptyString →
  json_dec.skip_space (a +:+ b) = json_dec.skip_space b.
Proof.
  induction a as [|c a IH]; cbn [append json_dec.skip_space]; [reflexivity |].
  destruct (json_dec.isSpace c); [exact IH | discriminate].
Qed.

Lemma skip_space_cons_append (a b : string) (c : ascii) (r : string) :
  json_dec.skip_space a = String c r →
  json_dec.skip_space (a +:+ b) = String c (r +:+ b).
Proof. intros H. rewrite skip_space_append by (rewrite H; discriminate). now rewrite H. Qed.

Lemma drop_bytes_append_le (n : nat) (s junk : string) :
  (n <= String.length s)%nat → drop_bytes n (s +:+ junk) = drop_bytes n s +:+ junk.
Proof.
  revert s. induction n as [|n IH]; intros [|c s] H; cbn [String.length] in H;
    cbn [append drop_bytes]; try reflexivity; try lia.
  apply IH. lia.
Qed.

Lemma prefix_append_r (p s junk : string) :
  String.prefix p s = true →
  String.prefix p (s +:+ junk) = true ∧ (String.length p <= String.length s)%nat.
Proof.
  revert s. induction p as [|a p IH]; intros s H.
  - split; [destruct s, junk; reflexivity | cbn; lia].
  - destruct s as [|b s]; [discriminate |]. cbn [String.prefix append String.length] in *.
    destruct (ascii_dec a b); [|discriminate].
    destruct (IH s H). split; [assumption | lia].
Qed.

Lemma strip_prefix_append (p s rest junk : string) :
  json_dec.strip_prefix p s = Some rest →
  json_dec.strip_prefix p (s +:+ junk) = Some (rest +:+ junk).
Proof.
  unfold json_dec.strip_prefix.
  destruct (String.prefix p s) eqn:Hp; [|discriminate].
  destruct (prefix_append_r p s junk Hp) as [-> Hlen].
  intros [= <-]. now rewrite drop_bytes_append_le.
Qed.

Lemma span_digits_append (a junk d r : string) :
  json_dec.span_digits a = (d, r) → r ≠ EmptyString →
  json_dec.span_digits (a +:+ junk) = (d, r +:+ junk).
Proof.
  revert d. induction a as [|c a IH]; intros d; cbn [append json_dec.span_digits].
  - intros [= <- <-] H. now destruct H.
  - destruct (json_dec.isDigit c).
    + destruct (json_dec.span_digits a) as [d' r'] eqn:Ha.
      intros [= <- <-] Hr. now rewrite (IH d' eq_refl Hr).
    + intros [= <- <-] _. reflexivity.
Qed.

Lemma scan_number_parts (s : string) :
  json_dec.scan_number s
  = let '(sign, s1) :=
      match s with
      | String c r => if byte_to_Z c =? 0x2D then ("-", r) else (EmptyString, s)
      | EmptyString => (EmptyString, s)
      end in
    match int_part s1 with
    | None => None
    | Some (i, s2) =>
        match frac_part s2 with
        | None => None
        | Some (f, s3) =>
            match exp_part s3 with
            | None => None
            | Some (e, s4) => Some (sign +:+ i +:+ f +:+ e, s4)
            end
        end
    end.
Proof. reflexivity. Qed.

Lemma int_part_append (s1 junk i s2 : string) :
  int_part s1 = Some (i, s2) → s2 ≠ EmptyString →
  int_part (s1 +:+ junk) = Some (i, s2 +:+ junk).
Proof.
  unfold int_part. destruct s1 as [|c r]; [discriminate |]. cbn [append].
  destruct (byte_to_Z c =? 0x30); [now intros [= <- <-] |].
  destruct (json_dec.isDigit c); [|discriminate].
  intros H Hne.
  assert (Hs : json_dec.span_digits (String c r) = (i, s2)) by congruence.
  change (String c (r +:+ junk)) with (String c r +:+ junk).
  now rewrite (span_digits_append _ junk _ _ Hs Hne).
Qed.

Lemma frac_part_append (s2 junk f s3 : string) :
  frac_part s2 = Some (f, s3) → s3 ≠ EmptyString →
  frac_part (s2 +:+ junk) = Some (f, s3 +:+ junk).
Proof.
  unfold frac_part. destruct s2 as [|c r]; [intros [= <- <-] H; now destruct H |].
  cbn [append].
  destruct (byte_to_Z c =? 0x2E); [|now intros [= <- <-]].
  destruct (json_dec.span_digits r) as [d r'] eqn:Hs.
  destruct d as [|d0 d]; [discriminate |]. intros [= <- <-] Hne.
  now rewrite (span_digits_append r junk _ _ Hs Hne).
Qed.

Lemma exp_part_append (s3 junk e s4 : string) :
  exp_part s3 = Some (e, s4) → s4 ≠ EmptyString →
  exp_part (s3 +:+ junk) = Some (e, s4 +:+ junk).
Proof.
  unfold exp_part. destruct s3 as [|c r]; [intros [= <- <-] H; now destruct H |].
  cbn [append].
  destruct (_ || _); [|now intros [= <- <-]].
  destruct r as [|c' r']; cbn [append].
  { cbn [json_dec.span_digits]. discriminate. }
  destruct (_ || _).
  - destruct (json_dec.span_digits r') as [d r''] eqn:Hs.
    destruct d as [|d0 d]; [discriminate |]. intros [= <- <-] Hne.
    now rewrite (span_digits_append r' junk _ _ Hs Hne).
  - destruct (json_dec.span_digits (String c' r')) as [d r''] eqn:Hs.
    destruct d as [|d0 d]; [discriminate |]. intros [= <- <-] Hne.
    change (String c' (r' +:+ junk)) with (String c' r' +:+ junk).
    now rewrite (span_digits_append _ junk _ _ Hs Hne).
Qed.

Lemma frac_part_nonempty (s2 f s3 : string) :
  frac_part s2 = Some (f, s3) → s3 ≠ EmptyString → s2 ≠ EmptyString.
Proof. intros H Hne ->. cbn in H. injection H as _ <-. now destruct Hne. Qed.

Lemma exp_part_nonempty (s3 e s4 : string) :
  exp_part s3 = Some (e, s4) → s4 ≠ EmptyString → s3 ≠ EmptyString.
Proof. intros H Hne ->. cbn in H. injection H as _ <-. now destruct Hne. Qed.

Lemma scan_number_append (s lit rest junk : string) :
  json_dec.scan_number s = Some (lit, rest) → rest ≠ EmptyString →
  json_dec.scan_number (s +:+ junk) = Some (lit, rest +:+ junk).
Proof.
  rewrite !scan_number_parts. intros H Hrest.
  assert (Hparts : ∀ sign s1,
    match int_part s1 with
    | None => None
    | Some (i, s2) =>
        match frac_part s2 with
        | None => None
        | Some (f, s3) =>
            match exp_part s3 with
            | None => None
            | Some (e, s4) => Some (sign +:+ i +:+ f +:+ e, s4)
            end
        end
    end = Some (lit, rest) →
    match int_part (s1 +:+ junk) with
    | None => None
    | Some (i, s2) =>
        match frac_part s2 with
        | None => None
        | Some (f, s3) =>
            match exp_part s3 with
            | None => None
            | Some (e, s4) => Some (sign +:+ i +:+ f +:+ e, s4)
            end
        end
    end = Some (lit, rest +:+ junk)).
  { intros sign s1.
    destruct (int_part s1) as [[i s2]|] eqn:Hi; [|discriminate].
    destruct (frac_part s2) as [[f s3]|] eqn:Hf; [|discriminate].
    destruct (exp_part s3) as [[e s4]|] eqn:He; [|discriminate].
    intros [= <- <-].
    pose proof (exp_part_nonempty _ _ _ He Hrest) as H3.
    pose proof (frac_part_nonempty _ _ _ Hf H3) as H2.
    rewrite (int_part_append _ junk _ _ Hi H2), (frac_part_append _ junk _ _ Hf H3),
      (exp_part_append _ junk _ _ He Hrest). reflexivity. }
  destruct s as [|c r]; [discriminate |]. cbn [append].
  destruct (byte_to_Z c =? 0x2D).
  - now apply Hparts.
  - change (String c (r +:+ junk)) with (String c r +:+ junk). now apply Hparts.
Qed.

Lemma getu4_head (c0 : ascii) (x : string) :
  0 ≤ json_dec.getu4 (String c0 x) →
  byte_to_Z c0 = 0x5C
  ∧ match x with
    | String c1 _ => byte_to_Z c1 = 0x75
    | EmptyString => False
    end.
Proof.
  unfold json_dec.getu4.
  destruct x as [|c1 [|h0 [|h1 [|h2 [|h3 r]]]]]; try lia.
  destruct (Z.eqb_spec (byte_to_Z c0) 0x5C), (Z.eqb_spec (byte_to_Z c1) 0x75);
    cbn [andb]; lia.
Qed.

Lemma getu4_append (s junk : string) :
  0 ≤ json_dec.getu4 s →
  json_dec.getu4 (s +:+ junk) = json_dec.getu4 s ∧ (6 <= String.length s)%nat.
Proof.
  unfold json_dec.getu4.
  destruct s as [|c0 [|c1 [|h0 [|h1 [|h2 [|h3 r]]]]]]; try lia.
  intros _. split; [reflexivity | cbn; lia].
Qed.

Lemma all_bytes_drop (P : ascii → bool) (n : nat) (s : string) :
  all_bytes P s = true → all_bytes P (drop_bytes n s) = true.
Proof.
  revert s. induction n as [|n IH]; intros [|c s] H; cbn [drop_bytes]; try assumption.
  cbn [all_bytes] in H. apply andb_true_iff in H as [_ H]. now apply IH.
Qed.

(** A literal that holds bytes of [0x80] and above only is not closed. *)
Lemma unquote_loop_high (f : nat) : ∀ r : string,
  all_bytes high_byte r = true → json_dec.unquote_loop f r = None.
Proof.
  induction f as [|f IH]; intros r Hr; [reflexivity |].
  rewrite unquote_loop_prepend. destruct r as [|c r]; [reflexivity |]. cbv zeta.
  pose proof Hr as Hc. cbn [all_bytes] in Hc. apply andb_true_iff in Hc as [Hc _].
  unfold high_byte in Hc. apply Z.leb_le in Hc. unfold utf8.RuneSelf in *.
  destruct (Z.eqb_spec (byte_to_Z c) 0x22); [lia |].
  destruct (Z.eqb_spec (byte_to_Z c) 0x5C); [lia |].
  destruct (Z.ltb_spec (byte_to_Z c) 0x20); [lia |].
  destruct (Z.ltb_spec (byte_to_Z c) 0x80); [lia |].
  rewrite IH; [reflexivity |]. now apply all_bytes_drop.
Qed.

(** An escape that is cut short does not start a literal that closes. *)
Lemma unquote_loop_short_escape (f : nat) (r junk : string) :
  json_dec.getu4 r < 0 → 0 ≤ json_dec.getu4 (r +:+ junk) →
  json_dec.unquote_loop f r = None.
Proof.
  intros Hr Hj. destruct f as [|f]; [reflexivity |].
  rewrite unquote_loop_prepend. destruct r as [|c0 r1]; [reflexivity |]. cbv zeta.
  cbn [append] in Hj. destruct (getu4_head _ _ Hj) as [H0 H1].
  destruct (Z.eqb_spec (byte_to_Z c0) 0x22); [lia |].
  destruct (Z.eqb_spec (byte_to_Z c0) 0x5C); [|lia].
  destruct r1 as [|c1 r2]; [reflexivity |]. cbn [append] in H1.
  rewrite H1. cbn [Z.eqb Pos.eqb orb].
  destruct (Z.ltb_spec (json_dec.getu4 (String c0 (String c1 r2))) 0); [reflexivity | lia].
Qed.

(** What follows a sequence changes how it is read only when the
    string ends within it. *)
Lemma wf_seq_append (c0 : ascii) (r junk : string) :
  wf_seq (String c0 (r +:+ junk)) = wf_seq (String c0 r)
  ∨ (wf_seq (String c0 r) = None ∧ all_bytes high_byte r = true).
Proof.
  destruct (wf_seq (String c0 r)) as [[c k]|] eqn:Hwf.
  { left. destruct (wf_seq_chunk _ _ _ _ Hwf) as (chunk & t & -> & _ & _ & _ & Hst).
    rewrite append_assoc. apply Hst. }
  revert Hwf. unfold wf_seq.
  destruct r as [|c1 r1]; [right; now split |]. cbn [append]. cbv zeta.
  destruct (_ && _) eqn:H2; [|now left].
  pose proof (second_bounds _ _ H2) as (Hb1 & _).
  assert (Hh1 : high_byte c1 = true) by (apply Z.leb_le; unfold utf8.RuneSelf; lia).
  destruct (seq_len (byte_to_Z c0)) as [|[|[|[|[|n]]]]]; try (now left); try discriminate.
  - destruct r1 as [|c2 r2]; cbn [append].
    { right. split; [reflexivity |]. cbn [all_bytes]. now rewrite Hh1. }
    destruct (continuation (byte_to_Z c2)); [discriminate | now left].
  - destruct r1 as [|c2 [|c3 r3]]; cbn [append].
    { right. split; [reflexivity |]. cbn [all_bytes]. now rewrite Hh1. }
    { destruct (continuation (byte_to_Z c2)) eqn:H3.
      - right. split; [reflexivity |]. cbn [all_bytes]. rewrite Hh1.
        pose proof (continuation_bounds _ H3).
        replace (high_byte c2) with true; [reflexivity |].
        symmetry. apply Z.leb_le. unfold utf8.RuneSelf. lia.
      - left. destruct junk as [|j0 junk]; reflexivity. }
    destruct (continuation (byte_to_Z c2) && continuation (byte_to_Z c3));
      [discriminate | now left].
Qed.

Lemma prepend_append (out : string) (x y : option (string * string)) (t rest junk : string) :
  (∀ t' rest', x = Some (t', rest') → y = Some (t', rest' +:+ junk)) →
  prepend out x = Some (t, rest) → prepend out y = Some (t, rest +:+ junk).
Proof.
  intros Hxy. destruct x as [[t' rest']|]; [|discriminate].
  intros [= <- <-]. now rewrite (Hxy t' rest' eq_refl).
Qed.

Lemma DecodeRune_size_le (c : ascii) (r : string) :
  utf8.RuneSelf ≤ byte_to_Z c →
  (snd (utf8.DecodeRuneInString (String c r)) <= S (String.length r))%nat.
Proof.
  intros Hc.
  destruct (DecodeRune_cases c r Hc) as [-> | (x & k & chunk & t & -> & -> & <- & _)];
    cbn [snd]; [lia |]. rewrite length_append. lia.
Qed.

Lemma getu4_negative (s : string) : json_dec.getu4 s < 0 → json_dec.getu4 s = -1.
Proof. destruct (getu4_range s); lia. Qed.

Lemma utf16_DecodeRune_no_low (r1 : Z) : utf16.DecodeRune r1 (-1) = utf16.replacementChar.
Proof.
  unfold utf16.DecodeRune. change (utf16.surr2 <=? -1) with false.
  now rewrite andb_false_r.
Qed.

(** What follows the closing quotation mark does not change how a
    literal is read. *)
Lemma unquote_loop_append (f : nat) : ∀ (s t rest junk : string) (f' : nat),
  json_dec.unquote_loop f s = Some (t, rest) → (f <= f')%nat →
  json_dec.unquote_loop f' (s +:+ junk) = Some (t, rest +:+ junk).
Proof.
  induction f as [|f IH]; intros s t rest junk f' H Hf; [discriminate |].
  destruct f' as [|f']; [lia |].
  assert (Hrec : ∀ a t' rest', json_dec.unquote_loop f a = Some (t', rest') →
                   json_dec.unquote_loop f' (a +:+ junk) = Some (t', rest' +:+ junk))
    by (intros; apply IH; [assumption | lia]).
  rewrite unquote_loop_prepend in H |- *.
  destruct s as [|c r]; [discriminate |]. cbn [append]. cbv zeta in H |- *.
  destruct (byte_to_Z c =? 0x22); [now injection H as <- <- |].
  destruct (byte_to_Z c =? 0x5C).
  { destruct r as [|e r']; [discriminate |]. cbn [append].
    destruct (_ || _); [revert H; apply prepend_append, Hrec |].
    destruct (byte_to_Z e =? 0x62); [revert H; apply prepend_append, Hrec |].
    destruct (byte_to_Z e =? 0x66); [revert H; apply prepend_append, Hrec |].
    destruct (byte_to_Z e =? 0x6E); [revert H; apply prepend_append, Hrec |].
    destruct (byte_to_Z e =? 0x72); [revert H; apply prepend_append, Hrec |].
    destruct (byte_to_Z e =? 0x74); [revert H; apply prepend_append, Hrec |].
    destruct (byte_to_Z e =? 0x75); [|discriminate].
    change (String c (String e (r' +:+ junk))) with (String c (String e r') +:+ junk).
    set (s0 := String c (String e r')) in *.
    destruct (Z.ltb_spec (json_dec.getu4 s0) 0) as [|Hrr]; [discriminate |].
    destruct (getu4_append s0 junk Hrr) as [-> Hlen].
    destruct (Z.ltb_spec (json_dec.getu4 s0) 0); [lia |].
    rewrite (drop_bytes_append_le 6 s0 junk Hlen).
    set (r6 := drop_bytes 6 s0) in *.
    destruct (utf16.IsSurrogate _); [|revert H; apply prepend_append, Hrec].
    destruct (Z_lt_ge_dec (json_dec.getu4 r6) 0) as [Hneg|Hpos].
    - destruct (Z_lt_ge_dec (json_dec.getu4 (r6 +:+ junk)) 0) as [Hneg'|Hpos'].
      + rewrite (getu4_negative _ Hneg) in H. rewrite (getu4_negative _ Hneg').
        rewrite utf16_DecodeRune_no_low in H |- *.
        rewrite Z.eqb_refl in H |- *. cbn [negb] in H |- *.
        revert H. apply prepend_append, Hrec.
      + rewrite (getu4_negative _ Hneg), utf16_DecodeRune_no_low, Z.eqb_refl in H.
        cbn [negb] in H.
        rewrite (unquote_loop_short_escape f r6 junk) in H by lia. discriminate.
    - destruct (getu4_append r6 junk ltac:(lia)) as [-> Hlen6].
      rewrite (drop_bytes_append_le 6 r6 junk Hlen6).
      destruct (negb _); revert H; apply prepend_append, Hrec. }
  destruct (byte_to_Z c <? 0x20); [discriminate |].
  destruct (Z.ltb_spec (byte_to_Z c) utf8.RuneSelf) as [Hlt|Hge];
    [revert H; apply prepend_append, Hrec |].
  rewrite !DecodeRune_multibyte in H |- * by assumption.
  pose proof (DecodeRune_size_le c r Hge) as Hsz.
  rewrite DecodeRune_multibyte in Hsz by assumption.
  change (String c (r +:+ junk)) with (String c r +:+ junk).
  destruct (wf_seq_append c r junk) as [Heq | [Hnone Hhigh]].
  - cbn [append]. rewrite Heq. change (String c (r +:+ junk)) with (String c r +:+ junk).
    rewrite drop_bytes_append_le by (cbn [String.length]; exact Hsz).
    revert H. apply prepend_append, Hrec.
  - rewrite Hnone in H. cbn [fst snd drop_bytes] in H.
    rewrite (unquote_loop_high f r Hhigh) in H. discriminate.
Qed.

Lemma unquote_append (r junk t rest : string) :
  json_dec.unquote r = Some (t, rest) →
  json_dec.unquote (r +:+ junk) = Some (t, rest +:+ junk).
Proof.
  unfold json_dec.unquote. intros H.
  apply (unquote_loop_append (String.length r)); [assumption |].
  rewrite length_append. lia.
Qed.

Lemma skip_space_nonempty (a : string) (c : ascii) (r : string) :
  json_dec.skip_space a = String c r → a ≠ EmptyString.
Proof. now intros H ->. Qed.

(** A value that is followed by something, or that is no number, is
    read alike whatever is appended to the input. *)
Lemma parse_append (conv : bool) (f : nat) :
  (∀ depth s v rest junk f',
     json_dec.parse_value conv f depth s = Some (v, rest) →
     rest ≠ EmptyString ∨ (∀ lit, v ≠ VFloat64 lit) →
     (f <= f')%nat →
     json_dec.parse_value conv f' depth (s +:+ junk) = Some (v, rest +:+ junk))
  ∧ (∀ depth s acc v rest junk f',
       json_dec.parse_elements conv f depth s acc = Some (v, rest) →
       (f <= f')%nat →
       json_dec.parse_elements conv f' depth (s +:+ junk) acc = Some (v, rest +:+ junk))
  ∧ (∀ depth s acc v rest junk f',
       json_dec.parse_members conv f depth s acc = Some (v, rest) →
       (f <= f')%nat →
       json_dec.parse_members conv f' depth (s +:+ junk) acc = Some (v, rest +:+ junk)).
Proof.
  induction f as [|f (IHv & IHe & IHm)]; [repeat split; discriminate |].
  split; [|split].
  - intros depth s v rest junk [|f'] H Hv Hf; [lia |].
    cbn [json_dec.parse_value] in H |- *.
    destruct (json_dec.skip_space s) as [|c r] eqn:Hs; [discriminate |].
    rewrite (skip_space_cons_append s junk c r Hs). cbv zeta in H |- *.
    destruct (byte_to_Z c =? 0x7B).
    { destruct (depth <? json_dec.maxNestingDepth)%N; [|discriminate].
      destruct (json_dec.skip_space r) as [|c' r'] eqn:Hr; [discriminate |].
      rewrite (skip_space_cons_append r junk c' r' Hr).
      destruct (byte_to_Z c' =? 0x7D); [now injection H as <- <- |].
      apply IHm; [assumption | lia]. }
    destruct (byte_to_Z c =? 0x5B).
    { destruct (depth <? json_dec.maxNestingDepth)%N; [|discriminate].
      destruct (json_dec.skip_space r) as [|c' r'] eqn:Hr; [discriminate |].
      rewrite (skip_space_cons_append r junk c' r' Hr).
      destruct (byte_to_Z c' =? 0x5D); [now injection H as <- <- |].
      apply IHe; [assumption | lia]. }
    destruct (byte_to_Z c =? 0x22).
    { destruct (json_dec.unquote r) as [[t rest']|] eqn:Hq; [|discriminate].
      injection H as <- <-. now rewrite (unquote_append r junk t rest' Hq). }
    destruct (byte_to_Z c =? 0x74).
    { destruct (json_dec.strip_prefix "rue" r) as [rest'|] eqn:Hp; [|discriminate].
      injection H as <- <-. now rewrite (strip_prefix_append _ r rest' junk Hp). }
    destruct (byte_to_Z c =? 0x66).
    { destruct (json_dec.strip_prefix "alse" r) as [rest'|] eqn:Hp; [|discriminate].
      injection H as <- <-. now rewrite (strip_prefix_append _ r rest' junk Hp). }
    destruct (byte_to_Z c =? 0x6E).
    { destruct (json_dec.strip_prefix "ull" r) as [rest'|] eqn:Hp; [|discriminate].
      injection H as <- <-. now rewrite (strip_prefix_append _ r rest' junk Hp). }
    destruct (json_dec.scan_number (String c r)) as [[lit rest']|] eqn:Hn; [|discriminate].
    destruct (json_dec.convertNumber conv lit) as [x|] eqn:Hc; [|discriminate].
    injection H as <- <-.
    change (String c (r +:+ junk)) with (String c r +:+ junk).
    rewrite (scan_number_append _ lit rest' junk Hn); [now rewrite Hc |].
    destruct Hv as [Hv | Hv]; [assumption |].
    unfold json_dec.convertNumber in Hc. destruct (_ && _); [discriminate |].
    injection Hc as <-. now destruct (Hv lit).
  - intros depth s acc v rest junk [|f'] H Hf; [lia |].
    rewrite parse_elements_unfold in H |- *.
    destruct (json_dec.parse_value conv f depth s) as [[x rest1]|] eqn:Hx; [|discriminate].
    destruct (json_dec.skip_space rest1) as [|c r] eqn:Hs; [discriminate |].
    rewrite (IHv depth s x rest1 junk f' Hx)
      by (lia || (left; now apply (skip_space_nonempty _ c r))).
    rewrite (skip_space_cons_append rest1 junk c r Hs).
    destruct (byte_to_Z c =? 0x2C); [apply IHe; [assumption | lia] |].
    destruct (byte_to_Z c =? 0x5D); [|discriminate].
    now injection H as <- <-.
  - intros depth s acc v rest junk [|f'] H Hf; [lia |].
    rewrite parse_members_unfold in H |- *.
    destruct (json_dec.skip_space s) as [|c r] eqn:Hs; [discriminate |].
    rewrite (skip_space_cons_append s junk c r Hs).
    destruct (byte_to_Z c =? 0x22); [|discriminate].
    destruct (json_dec.unquote r) as [[k rest0]|] eqn:Hq; [|discriminate].
    rewrite (unquote_append r junk k rest0 Hq).
    destruct (json_dec.skip_space rest0) as [|c2 r2] eqn:Hs2; [discriminate |].
    rewrite (skip_space_cons_append rest0 junk c2 r2 Hs2).
    destruct (byte_to_Z c2 =? 0x3A); [|discriminate].
    destruct (json_dec.parse_value conv f depth r2) as [[x rest2]|] eqn:Hx; [|discriminate].
    destruct (json_dec.skip_space rest2) as [|c3 r3] eqn:Hs3; [discriminate |].
    rewrite (IHv depth r2 x rest2 junk f' Hx)
      by (lia || (left; now apply (skip_space_nonempty _ c3 r3))).
    rewrite (skip_space_cons_append rest2 junk c3 r3 Hs3).
    destruct (byte_to_Z c3 =? 0x2C); [apply IHm; [assumption | lia] |].
    destruct (byte_to_Z c3 =? 0x7D); [|discriminate].
    now injection H as <- <-.
Qed.

(** The first value of [body ++ junk] is the first value of [body]
    when that is an object or [null]. *)
Lemma Decoder_Decode_map_append (body junk : string) (m : gmap string value) :
  json_dec.Decoder_Decode_map body = inr m →
  json_dec.Decoder_Decode_map (body +:+ junk) = inr m.
Proof.
  unfold json_dec.Decoder_Decode_map.
  destruct (json_dec.parse_value _ _ _ body) as [[x rest]|] eqn:Hp; [|discriminate].
  intros Hm.
  rewrite (proj1 (parse_append _ _) _ body x rest junk (json_dec.fuel_for (body +:+ junk)) Hp).
  - exact Hm.
  - right. intros lit ->. discriminate.
  - unfold json_dec.fuel_for. rewrite length_append. lia.
Qed.

Lemma Unmarshal_map_append (body junk : string) (m : gmap string value) :
  json_dec.Unmarshal_map body = inr m →
  json_dec.skip_space junk ≠ EmptyString →
  json_dec.Unmarshal_map (body +:+ junk) = inl json_dec.InvalidInput.
Proof.
  unfold json_dec.Unmarshal_map, json_dec.Unmarshal_value.
  destruct (json_dec.parse_value _ _ _ body) as [[x rest]|] eqn:Hp; [|discriminate].
  destruct (json_dec.skip_space rest) eqn:Hrest; [|discriminate].
  intros Hm Hjunk.
  rewrite (proj1 (parse_append _ _) _ body x rest junk (json_dec.fuel_for (body +:+ junk)) Hp).
  - rewrite (skip_space_append_blank rest junk Hrest).
    destruct (json_dec.skip_space junk); [now destruct Hjunk | reflexivity].
  - right. intros lit ->. discriminate.
  - unfold json_dec.fuel_for. rewrite length_append. lia.
Qed.

(** ** The two paths compared *)

(** X23: the handler reads the first JSON value of the body and
    nothing after it: whatever follows a body that decodes, the
    handler does the same. *)
Theorem handler_reads_the_first_value_only v w (h : gmap string (list string))
    (body junk : string) (m : gmap string value) :
  json_dec.Decoder_Decode_map body = inr m →
  mapHandler v w {| http.Header := h; http.Body := body +:+ junk |}
  = mapHandler v w {| http.Header := h; http.Body := body |}.
Proof.
  intros H. unfold mapHandler. cbn [http.Body http.Header].
  now rewrite (Decoder_Decode_map_append body junk m H), H.
Qed.

Lemma handler_reads_the_first_value_only_witness :
  mapHandler v0 http.fresh
    {| http.Header := request_headers1; http.Body := body1 +:+ "]]" |}
  = mapHandler v0 http.fresh {| http.Header := request_headers1; http.Body := body1 |}.
Proof.
  apply (handler_reads_the_first_value_only v0 http.fresh request_headers1 body1 "]]" record1).
  vm_compute. reflexivity.
Defined.

(** X24: the two paths differ on what follows the record: when a body
    that [json.Unmarshal] accepts is followed by bytes that are not
    all white space, [mapMessage] rejects the whole with its
    unmarshalling error, while the handler answers as for the body
    alone. *)
Theorem trailing_bytes_split_the_paths v (h : gmap string string)
    (h' : gmap string (list string)) (body junk : string) (m : gmap string value) :
  json_dec.Unmarshal_map body = inr m →
  json_dec.skip_space junk ≠ EmptyString →
  mapMessage v {| consumer.Headers := h; consumer.Body := body +:+ junk |}
  = ([], Returns (Err (errors.New
       ("Video JSON from Brightcove couldn't be unmarshalled. Skipping invalid JSON: "
        +:+ (body +:+ junk)))))
  ∧ http.response (mapHandler v http.fresh
                     {| http.Header := h'; http.Body := body +:+ junk |})
    = http.response (mapHandler v http.fresh {| http.Header := h'; http.Body := body |}).
Proof.
  intros Hm Hjunk. split.
  - unfold mapMessage. cbn [consumer.Body].
    now rewrite (Unmarshal_map_append body junk m Hm Hjunk).
  - f_equal. unfold mapHandler. cbn [http.Body http.Header].
    apply Unmarshal_map_Decoder in Hm.
    now rewrite (Decoder_Decode_map_append body junk m Hm), Hm.
Qed.

Lemma trailing_bytes_split_the_paths_witness :
  mapMessage v0 {| consumer.Headers := headers1; consumer.Body := body1 +:+ "," |}
  = ([], Returns (Err (errors.New
       ("Video JSON from Brightcove couldn't be unmarshalled. Skipping invalid JSON: "
        +:+ (body1 +:+ ",")))))
  ∧ http.response (mapHandler v0 http.fresh
                     {| http.Header := request_headers1; http.Body := body1 +:+ "," |})
    = http.response (mapHandler v0 http.fresh
                       {| http.Header := request_headers1; http.Body := body1 |}).
Proof.
  apply (trailing_bytes_split_the_paths v0 headers1 request_headers1 body1 "," record1).
  - vm_compute. reflexivity.
  - discriminate.
Defined.

(** X25: the mapping keeps records apart: two messages that
    [mapMessage] maps to the same bytes have bodies whose uuid, id and
    updated_at are the same. *)
Theorem mapping_keeps_records_apart v m1 m2 rec1 rec2 out :
  json_dec.Unmarshal_map (consumer.Body m1) = inr rec1 →
  json_dec.Unmarshal_map (consumer.Body m2) = inr rec2 →
  result_of (mapMessage v m1) = Returns (Ok out) →
  result_of (mapMessage v m2) = Returns (Ok out) →
  index rec1 "uuid" = index rec2 "uuid"
  ∧ index rec1 "id" = index rec2 "id"
  ∧ index rec1 "updated_at" = index rec2 "updated_at".
Proof.
  intros H1 H2 (r1 & Hb1 & Ho1)%mapMessage_Ok_inv (r2 & Hb2 & Ho2)%mapMessage_Ok_inv.
  rewrite H1 in Hb1. rewrite H2 in Hb2. injection Hb1 as <-. injection Hb2 as <-.
  apply mapper_output_exact in Ho1
    as (uuid1 & id1 & d1 & n1 & e1 & Hu1 & Hi1 & Hd1 & _ & He1 & _ & _ & Hp1);
    [|now apply (Unmarshal_map_wf (consumer.Body m1))].
  apply mapper_output_exact in Ho2
    as (uuid2 & id2 & d2 & n2 & e2 & Hu2 & Hi2 & Hd2 & _ & He2 & _ & _ & Hp2);
    [|now apply (Unmarshal_map_wf (consumer.Body m2))].
  rewrite He1 in He2. injection He2 as <-.
  rewrite Hp1 in Hp2. injection Hp2 as -> -> ->.
  rewrite Hu1, Hu2, Hi1, Hi2, Hd1, Hd2. repeat split; reflexivity.
Qed.

Lemma mapping_keeps_records_apart_witness :
  index record1 "uuid" = index (record_named "other.mp4") "uuid"
  ∧ index record1 "id" = index (record_named "other.mp4") "id"
  ∧ index record1 "updated_at" = index (record_named "other.mp4") "updated_at".
Proof.
  apply (mapping_keeps_records_apart v0 message1
           {| consumer.Headers := headers1; consumer.Body := body_renamed |}
           record1 (record_named "other.mp4") (encode event1));
    vm_compute; reflexivity.
Defined.

(** ** The bytes the encoder never writes *)

Lemma all_bytes_append (P : ascii → bool) (a b : string) :
  all_bytes P (a +:+ b) = all_bytes P a && all_bytes P b.
Proof.
  induction a as [|x a IH]; cbn [append all_bytes]; [reflexivity |].
  now rewrite IH, andb_assoc.
Qed.

Lemma escape_byte_emitted (b : ascii) :
  all_bytes emitted_byte (json_enc.escape_byte b) = true.
Proof. destruct b as [[] [] [] [] [] [] [] []]; reflexivity. Qed.

Lemma emitted_byte_high (b : Z) : 0x80 ≤ b ≤ 0xBF → emitted_byte (Z_to_byte b) = true.
Proof.
  intros H. unfold emitted_byte. cbv zeta. rewrite byte_to_Z_to_byte by lia.
  split_cmp; reflexivity.
Qed.

Lemma emitted_byte_of_high (c : ascii) : 0x80 ≤ byte_to_Z c → emitted_byte c = true.
Proof. intros H. unfold emitted_byte. cbv zeta. split_cmp; reflexivity. Qed.

(** The bytes of a well-formed sequence are all [0x80] and above. *)
Lemma wf_seq_emitted (c0 : ascii) (r : string) (c : Z) (k : nat) :
  wf_seq (String c0 r) = Some (c, k) → all_bytes emitted_byte (take_bytes (k - 1) r) = true.
Proof.
  unfold wf_seq. destruct r as [|c1 r1]; [discriminate |]. cbv zeta.
  destruct (_ && _) eqn:H2; [|discriminate].
  pose proof (second_bounds _ _ H2) as (Hb1 & _).
  destruct (seq_len (byte_to_Z c0)) as [|[|[|[|[|n]]]]]; try discriminate.
  - intros [= <- <-]. cbn [Nat.sub take_bytes all_bytes].
    rewrite emitted_byte_of_high by lia. reflexivity.
  - destruct r1 as [|c2 r2]; [discriminate |].
    destruct (continuation (byte_to_Z c2)) eqn:H3; [|discriminate].
    pose proof (continuation_bounds _ H3).
    intros [= <- <-]. cbn [Nat.sub take_bytes all_bytes].
    rewrite !emitted_byte_of_high by lia. reflexivity.
  - destruct r1 as [|c2 [|c3 r3]]; try discriminate.
    destruct (continuation (byte_to_Z c2)) eqn:H3; [|discriminate].
    destruct (continuation (byte_to_Z c3)) eqn:H4; [|discriminate].
    pose proof (continuation_bounds _ H3). pose proof (continuation_bounds _ H4).
    intros [= <- <-]. cbn [Nat.sub take_bytes all_bytes].
    rewrite !emitted_byte_of_high by lia. reflexivity.
Qed.

Lemma string_loop_emitted (n : nat) : ∀ (s : string) (f : nat),
  (String.length s <= n)%nat → (String.length s <= f)%nat →
  all_bytes emitted_byte (json_enc.string_loop f s) = true.
Proof.
  induction n as [|n IH]; intros [|b r] f Hn Hf; cbn [String.length] in *;
    try lia; destruct f as [|f]; try lia; try reflexivity.
  cbn [json_enc.string_loop].
  destruct (Z.ltb_spec (byte_to_Z b) utf8.RuneSelf) as [Hlt|Hge].
  { rewrite all_bytes_append, escape_byte_emitted. apply IH; lia. }
  pose proof (DecodeRune_multibyte b r Hge) as Hm.
  destruct (DecodeRune_cases b r Hge)
    as [Hd | (c & k & chunk & t & Hd & -> & Hk & Hk2 & Henc & Hst)].
  - rewrite Hd. cbn [andb Z.eqb Nat.eqb utf8.RuneError Pos.eqb drop_bytes].
    rewrite all_bytes_append. rewrite IH by lia. reflexivity.
  - rewrite Hd in *. subst k. rewrite length_append in *.
    replace ((c =? utf8.RuneError) && (S (String.length chunk) =? 1)%nat) with false
      by (symmetry; apply andb_false_iff; right; apply Nat.eqb_neq; lia).
    cbn [take_bytes drop_bytes]. rewrite take_bytes_append, drop_bytes_append.
    destruct ((c =? 0x2028) || (c =? 0x2029)) eqn:Hsep.
    + rewrite all_bytes_append. cbn [all_bytes]. rewrite IH by lia.
      apply orb_true_iff in Hsep as [->%Z.eqb_eq | ->%Z.eqb_eq]; reflexivity.
    + change (String b chunk +:+ json_enc.string_loop f t)
        with (String b (chunk +:+ json_enc.string_loop f t)).
      cbn [all_bytes]. rewrite all_bytes_append, IH by lia.
      unfold utf8.RuneSelf in Hge. rewrite emitted_byte_of_high by lia.
      destruct (wf_seq (String b (chunk +:+ t))) as [[c' k']|] eqn:Hwf;
        [|injection Hm as _ Hone; lia].
      injection Hm as <- <-.
      apply wf_seq_emitted in Hwf.
      replace (S (String.length chunk) - 1)%nat with (String.length chunk) in Hwf by lia.
      rewrite take_bytes_append in Hwf. now rewrite Hwf.
Qed.

Lemma encode_string_emitted (s : string) : all_bytes emitted_byte (encode s) = true.
Proof.
  unfold encode, string_Marshaler, json_enc.encode_string. cbn [all_bytes].
  rewrite all_bytes_append, (string_loop_emitted (String.length s)) by lia.
  reflexivity.
Qed.

#[local] Ltac emitted_pieces :=
  repeat (rewrite all_bytes_append; apply andb_true_iff; split;
          [first [reflexivity | apply encode_string_emitted | assumption] |]);
  first [reflexivity | apply encode_string_emitted | assumption].

Lemma encode_identifier_emitted (i : identifier) : all_bytes emitted_byte (encode i) = true.
Proof. unfold encode at 1, identifier_Marshaler. emitted_pieces. Qed.

Lemma encode_elements_emitted (l : list identifier) :
  all_bytes emitted_byte (encode_elements l) = true.
Proof.
  induction l as [|i [|j l] IH].
  - reflexivity.
  - apply encode_identifier_emitted.
  - change (all_bytes emitted_byte (encode i +:+ "," +:+ encode_elements (j :: l)) = true).
    pose proof (encode_identifier_emitted i). emitted_pieces.
Qed.

Lemma encode_payload_emitted (p : payload) : all_bytes emitted_byte (encode p) = true.
Proof.
  unfold encode at 1, payload_Marshaler.
  assert (all_bytes emitted_byte (encode (Identifiers p)) = true).
  { unfold encode, slice_Marshaler. pose proof (encode_elements_emitted (Identifiers p)).
    emitted_pieces. }
  emitted_pieces.
Qed.

Lemma encode_event_emitted (e : publicationEvent) : all_bytes emitted_byte (encode e) = true.
Proof. unfold encode at 1, publicationEvent_Marshaler. emitted_pieces. Qed.

(** X26: in the bytes the mapper returns there is no byte below 0x20
    (no ASCII control character: no line feed, no carriage return, no
    tab) and none of the characters <, > and &; the encoder has escaped
    them all.  DEL (0x7F) and the bytes of multi-byte sequences (so the
    controls from U+0080 to U+009F) are written as they are. *)
Theorem mapper_output_has_no_c0_control_and_no_html_byte v m r l out :
  result_of (mapBrightcoveVideo v m r l) = Returns (Ok out) →
  all_bytes emitted_byte out = true.
Proof.
  intros (uuid & id & d & name & _ & _ & _ & _ & _ & _ & _ & ->)%mapBrightcoveVideo_Ok_inv.
  apply encode_event_emitted.
Qed.

Lemma mapper_output_has_no_c0_control_and_no_html_byte_witness :
  all_bytes emitted_byte (encode event1) = true.
Proof.
  apply (mapper_output_has_no_c0_control_and_no_html_byte v0 record1 "req-1" "ts-1").
  vm_compute. reflexivity.
Defined.
